(** * writing-helper: story generation front end

    A shallow embedding of the image-to-story application:

    - [JS]: the string operations of the host language the code relies on
      (strings are sequences of UTF-16 code units);
    - [GeminiService]: services/geminiService.ts, the request builders and
      the extraction of the three sections of the first model response;
    - [Ui]: App.tsx and components/ChatInterface.tsx as an event-driven
      machine.  Every handler is a function on the component state; an
      [async] handler is cut at each [await] into a synchronous prefix and
      the frames that resume it, so that handlers can interleave exactly
      where the event loop lets them.

    Definitions come first, the verified properties follow. *)

From Stdlib Require Import String Ascii.
From Stdlib Require Import List NArith ZArith Bool Lia.
Import ListNotations.

(* ===================================================================== *)
(** ** Host-language strings *)
(* ===================================================================== *)

Module JS.

(** A string is a finite sequence of 16-bit code units; [length], [slice],
    and the regular expressions without the [u] flag all count code units. *)
Definition code_unit := N.
Definition jsstring := list code_unit.

(** *** Literals

    Source literals are written here as UTF-8 text and converted to the code
    units the program manipulates. *)

Definition cont (b : N) : N := N.land b 63.

Definition units_of_code_point (cp : N) : jsstring :=
  if (cp <? 65536)%N then [cp]
  else let v := (cp - 65536)%N in
       [(55296 + N.shiftr v 10)%N; (56320 + N.land v 1023)%N].

Fixpoint utf16_of_utf8 (bs : list N) : jsstring :=
  match bs with
  | [] => []
  | b0 :: r0 =>
    if (b0 <? 128)%N then b0 :: utf16_of_utf8 r0
    else match r0 with
    | [] => [b0]
    | b1 :: r1 =>
      if (b0 <? 224)%N then
        (N.shiftl (N.land b0 31) 6 + cont b1)%N :: utf16_of_utf8 r1
      else match r1 with
      | [] => [b0; b1]
      | b2 :: r2 =>
        if (b0 <? 240)%N then
          (N.shiftl (N.land b0 15) 12 + N.shiftl (cont b1) 6 + cont b2)%N
            :: utf16_of_utf8 r2
        else match r2 with
        | [] => [b0; b1; b2]
        | b3 :: r3 =>
          units_of_code_point
            (N.shiftl (N.land b0 7) 18 + N.shiftl (cont b1) 12
             + N.shiftl (cont b2) 6 + cont b3)%N
            ++ utf16_of_utf8 r3
        end
      end
    end
  end.

Definition lit (s : string) : jsstring :=
  utf16_of_utf8 (map N_of_ascii (list_ascii_of_string s)).

Definition LF : code_unit := 10%N.
Definition DQUOTE : code_unit := 34%N.
Definition COMMA : code_unit := 44%N.

(** Truthiness of a string: only the empty string is falsy. *)
Definition truthy (s : jsstring) : bool :=
  match s with [] => false | _ :: _ => true end.

(** [a || b] on strings. *)
Definition or_else (a b : jsstring) : jsstring :=
  if truthy a then a else b.

(** [x || b] where [x] may be [undefined]. *)
Definition opt_or_else (x : option jsstring) (b : jsstring) : jsstring :=
  match x with Some a => or_else a b | None => b end.

(** *** String.prototype.slice

    Relative indices: a negative index counts from the end, and both ends
    are clamped to the string. *)
Definition clamp_index (len k : Z) : Z :=
  if (k <? 0)%Z then Z.max (len + k) 0 else Z.min k len.

Definition slice (s : jsstring) (start : Z) (end_ : option Z) : jsstring :=
  let len := Z.of_nat (length s) in
  let from := clamp_index len start in
  let to := match end_ with Some e => clamp_index len e | None => len end in
  let span := Z.max (to - from) 0 in
  firstn (Z.to_nat span) (skipn (Z.to_nat from) s).

(** *** String.prototype.trim

    WhiteSpace and LineTerminator code points. *)
Definition is_white_space (c : code_unit) : bool :=
  ((c =? 9) || (c =? 10) || (c =? 11) || (c =? 12) || (c =? 13) || (c =? 32)
   || (c =? 160) || (c =? 5760) || ((8192 <=? c) && (c <=? 8202))
   || (c =? 8232) || (c =? 8233) || (c =? 8239) || (c =? 8287)
   || (c =? 12288) || (c =? 65279))%N.

Fixpoint trimStart (s : jsstring) : jsstring :=
  match s with
  | c :: s' => if is_white_space c then trimStart s' else s
  | [] => []
  end.

Definition trimEnd (s : jsstring) : jsstring := rev (trimStart (rev s)).

Definition trim (s : jsstring) : jsstring := trimEnd (trimStart s).

(** *** Searching *)

Fixpoint starts_with (p s : jsstring) : bool :=
  match p, s with
  | [], _ => true
  | _ :: _, [] => false
  | a :: p', b :: s' => (a =? b)%N && starts_with p' s'
  end.

(** [indexOf]: position of the first occurrence. *)
Fixpoint index_of (p s : jsstring) : option nat :=
  if starts_with p s then Some 0
  else match s with
       | [] => None
       | _ :: s' => option_map S (index_of p s')
       end.

(** [s.split(c)] for a separator of one code unit: the pieces between the
    occurrences of [c]; always at least one piece. *)
Fixpoint split_on (c : code_unit) (s : jsstring) : list jsstring :=
  match s with
  | [] => [[]]
  | x :: s' =>
    if (x =? c)%N then [] :: split_on c s'
    else match split_on c s' with
         | piece :: rest => (x :: piece) :: rest
         | [] => [[x]]
         end
  end.

(** *** The regular expressions of the program

    The program uses four patterns, of three shapes.  Their matching is
    written out as the backtracking search the pattern denotes: candidate
    start positions from left to right, and for a lazy star the shortest
    extension first. *)

(** [[\s\S]*?B] anchored at the start of [s]: the lazy star takes as few
    code units as possible before [B]; the result is what the star took. *)
Fixpoint lazy_until (B s : jsstring) : option jsstring :=
  if starts_with B s then Some []
  else match s with
       | [] => None
       | c :: s' => option_map (cons c) (lazy_until B s')
       end.

(** [A([\s\S]*?)B] anchored at the start of [s]; the capture group. *)
Definition match_between_here (A B s : jsstring) : option jsstring :=
  if starts_with A s then lazy_until B (skipn (length A) s) else None.

(** [s.match(/A([\s\S]*?)B/)]: capture group 1 of the leftmost match, or
    [None] when the pattern matches nowhere. *)
Fixpoint match_between (A B s : jsstring) : option jsstring :=
  match match_between_here A B s with
  | Some cap => Some cap
  | None => match s with
            | [] => None
            | _ :: s' => match_between A B s'
            end
  end.

(** [s.match] on the pattern [A] followed by a greedy any-character star in
    a group: the star takes the rest of the input, so group 1 is everything
    after the leftmost [A]. *)
Fixpoint match_after (A s : jsstring) : option jsstring :=
  if starts_with A s then Some (skipn (length A) s)
  else match s with
       | [] => None
       | _ :: s' => match_after A s'
       end.

(** [.] without the [s] flag: any code unit but a line terminator. *)
Definition is_line_terminator (c : code_unit) : bool :=
  ((c =? 10) || (c =? 13) || (c =? 8232) || (c =? 8233))%N.

(** [.*C] anchored at the start of [s], for one code unit [C]: some [C]
    occurs before the first line terminator. *)
Fixpoint dots_then (C : code_unit) (s : jsstring) : bool :=
  match s with
  | [] => false
  | c :: s' =>
    if (c =? C)%N then true
    else if is_line_terminator c then false
    else dots_then C s'
  end.

End JS.

(* ===================================================================== *)
(** ** services/geminiService.ts *)
(* ===================================================================== *)

Module GeminiService.
Import JS.

(** *** Requests handed to the hosted model *)

Inductive Part :=
| TextPart (text : jsstring)
| InlineData (mimeType : jsstring) (data : option jsstring).

Record Content := { role : option jsstring; parts : list Part }.

(** The [config] object of a request; the temperature literal is kept in
    hundredths (0.8 is 80, 0.85 is 85). *)
Inductive Config :=
| Temperature (hundredths : N)
| SystemInstruction (text : jsstring)
| SpeechVoice (voiceName : jsstring).

Record Request :=
  { model : jsstring; contents : list Content; config : Config }.

(** [imageBase64.split(',')[1]]: the piece after the first comma of the data
    URL, [undefined] when there is no comma. *)
Definition image_payload (imageBase64 : jsstring) : option jsstring :=
  nth_error (split_on COMMA imageBase64) 1.

Definition jpeg_part (imageBase64 : jsstring) : Part :=
  InlineData (lit "image/jpeg") (image_payload imageBase64).

(** Decimal rendering of a chapter number inside a template literal. *)
Fixpoint units_of_uint (d : Decimal.uint) : jsstring :=
  match d with
  | Decimal.Nil => []
  | Decimal.D0 d => 48%N :: units_of_uint d
  | Decimal.D1 d => 49%N :: units_of_uint d
  | Decimal.D2 d => 50%N :: units_of_uint d
  | Decimal.D3 d => 51%N :: units_of_uint d
  | Decimal.D4 d => 52%N :: units_of_uint d
  | Decimal.D5 d => 53%N :: units_of_uint d
  | Decimal.D6 d => 54%N :: units_of_uint d
  | Decimal.D7 d => 55%N :: units_of_uint d
  | Decimal.D8 d => 56%N :: units_of_uint d
  | Decimal.D9 d => 57%N :: units_of_uint d
  end.

Definition number_to_string (n : N) : jsstring := units_of_uint (N.to_uint n).

(** *** analyzeAndPlan *)

Definition analyzeAndPlan_prompt : jsstring :=
  [LF] ++
  lit "    你是一位文学泰斗。请针对提供的图片执行以下任务：" ++ [LF] ++
  lit "    1. 意境分析：描述图片的情绪、光影和深层意象。" ++ [LF] ++
  lit "    2. 创作蓝图：构思一部以此为背景的长篇小说大纲，包含 6 个章节的标题和剧情梗概。" ++ [LF] ++
  lit "    3. 序章创作：撰写第一章内容（约 800 字），文字需极其考究，铺垫宏大的世界观。" ++ [LF] ++
  lit "    " ++ [LF] ++
  lit "    返回格式（严格遵守，不要包含 Markdown 符号）：" ++ [LF] ++
  lit "    分析：[分析内容]" ++ [LF] ++
  lit "    大纲：[大纲内容]" ++ [LF] ++
  lit "    故事：[第一章内容]" ++ [LF] ++
  lit "  ".

Definition analyzeAndPlan_request (imageBase64 : jsstring) : Request :=
  {| model := lit "gemini-3-pro-preview";
     contents :=
       [{| role := None;
           parts := [jpeg_part imageBase64; TextPart analyzeAndPlan_prompt] |}];
     config := Temperature 80 |}.

(** The three section markers.  The patterns carry the [i] flag, which is
    inert here: no code unit of a marker has a case variant. *)
Definition MARK_ANALYSIS : jsstring := lit "分析：".
Definition MARK_BLUEPRINT : jsstring := lit "大纲：".
Definition MARK_STORY : jsstring := lit "故事：".

Definition ANALYSIS_PLACEHOLDER : jsstring := lit "分析完成。".
Definition BLUEPRINT_PLACEHOLDER : jsstring := lit "蓝图已构思。".

Record Plan :=
  { analysis : jsstring; blueprint : jsstring; firstChapter : jsstring }.

(** What [analyzeAndPlan] returns once the model has answered;
    [response_text] is [response.text], possibly [undefined]. *)
Definition analyzeAndPlan_result (response_text : option jsstring) : Plan :=
  let text := opt_or_else response_text [] in
  let analysisMatch := match_between MARK_ANALYSIS MARK_BLUEPRINT text in
  let blueprintMatch := match_between MARK_BLUEPRINT MARK_STORY text in
  let storyMatch := match_after MARK_STORY text in
  {| analysis :=
       match analysisMatch with
       | Some g => trim g
       | None => ANALYSIS_PLACEHOLDER
       end;
     blueprint :=
       match blueprintMatch with
       | Some g => trim g
       | None => BLUEPRINT_PLACEHOLDER
       end;
     firstChapter :=
       match storyMatch with
       | Some g => trim g
       | None => text
       end |}.

(** *** writeNextChapter *)

Definition writeNextChapter_prompt
    (currentStory blueprint : jsstring) (chapterIndex : N)
    (chatContext : jsstring) : jsstring :=
  [LF] ++
  lit "    你正在创作一部长篇巨著。" ++ [LF] ++
  lit "    " ++ [LF] ++
  lit "    【核心要求】" ++ [LF] ++
  lit "    你必须严格根据“创作助手”给出的以下提示和指导来撰写本章节：" ++ [LF] ++
  lit "    " ++ [DQUOTE] ++ chatContext ++ [DQUOTE] ++ [LF] ++
  lit "    " ++ [LF] ++
  lit "    【全书大纲】" ++ [LF] ++
  lit "    " ++ [DQUOTE] ++ blueprint ++ [DQUOTE] ++ [LF] ++
  lit "    " ++ [LF] ++
  lit "    【前文回顾】" ++ [LF] ++
  lit "    " ++ [DQUOTE] ++ slice currentStory (-2000) None ++ [DQUOTE] ++ [LF] ++
  lit "    " ++ [LF] ++
  lit "    【任务】" ++ [LF] ++
  lit "    请撰写第 " ++ number_to_string chapterIndex ++ lit " 章。" ++ [LF] ++
  lit "    1. 深度结合上述“创作助手”的提示词，将其转化为具体的故事情节、人物对话或心理描写。" ++ [LF] ++
  lit "    2. 字数在 1200 字以上，展现文学大师级的文笔。" ++ [LF] ++
  lit "    3. 承接前文，自然过渡，且符合大纲的整体走向。" ++ [LF] ++
  lit "    4. 以“第 " ++ number_to_string chapterIndex ++ lit " 章：[标题]”作为开头。" ++ [LF] ++
  lit "    " ++ [LF] ++
  lit "    直接返回章节正文，无需任何解释。" ++ [LF] ++
  lit "  ".

(** [imageBase64] is [string | null]; [null] and the empty string are both
    falsy, so neither adds an image part. *)
Definition optional_image_parts (imageBase64 : option jsstring) : list Part :=
  match imageBase64 with
  | Some img => if truthy img then [jpeg_part img] else []
  | None => []
  end.

Definition writeNextChapter_request
    (currentStory blueprint : jsstring) (chapterIndex : N)
    (imageBase64 : option jsstring) (chatContext : jsstring) : Request :=
  {| model := lit "gemini-3-pro-preview";
     contents :=
       [{| role := None;
           parts :=
             TextPart (writeNextChapter_prompt currentStory blueprint
                         chapterIndex chatContext)
             :: optional_image_parts imageBase64 |}];
     config := Temperature 85 |}.

(** [response.text || ""] *)
Definition writeNextChapter_result (response_text : option jsstring)
  : jsstring :=
  opt_or_else response_text [].

(** *** chatWithStory *)

Definition CHAT_SYSTEM_INSTRUCTION : jsstring :=
  lit "你是文学创作助手。你的任务是为用户提供具体的、可执行的创意提示词和剧情建议。你的每一个回答都应包含明确的‘创作引导’，以便后续章节能够根据你的建议进行撰写。请用专业且富有启发性的中文交流。".

Inductive Role := user | assistant.

Record HistoryEntry := { h_role : Role; h_text : jsstring }.

Definition chatWithStory_request
    (history : list HistoryEntry) (message : jsstring)
    (imageBase64 : option jsstring) : Request :=
  {| model := lit "gemini-3-pro-preview";
     contents :=
       map (fun h =>
              {| role := Some (match h_role h with
                               | assistant => lit "model"
                               | user => lit "user"
                               end);
                 parts := [TextPart (h_text h)] |}) history
       ++ [{| role := Some (lit "user");
              parts := TextPart message :: optional_image_parts imageBase64 |}];
     config := SystemInstruction CHAT_SYSTEM_INSTRUCTION |}.

Definition CHAT_NO_ANSWER : jsstring := lit "暂时无法回应。".

(** [response.text || "暂时无法回应。"] *)
Definition chatWithStory_result (response_text : option jsstring) : jsstring :=
  opt_or_else response_text CHAT_NO_ANSWER.

(** *** generateSpeech *)

Definition generateSpeech_request (text voiceName : jsstring) : Request :=
  {| model := lit "gemini-2.5-flash-preview-tts";
     contents :=
       [{| role := None;
           parts := [TextPart (lit "请用充满故事感的语气朗读：" ++ text)] |}];
     config := SpeechVoice voiceName |}.

End GeminiService.

(* ===================================================================== *)
(** ** App.tsx and components/ChatInterface.tsx *)
(* ===================================================================== *)

Module Ui.
Import JS.
Export GeminiService(Role, user, assistant).

(** *** types.ts and the component state *)

Record Message := { role : Role; content : jsstring }.

(** [AdvancedStoryState].  The chapter counter is a number that starts at 1
    and only ever receives [+ 1]; it is kept as a natural number. *)
Record StoryState := {
  image : option jsstring;
  analysis : jsstring;
  paragraph : jsstring;
  isLoading : bool;
  error : option jsstring;
  blueprint : jsstring;
  currentChapter : N
}.

(** A buffer source node created by the narration loop, identified by the
    chapter position it plays and the audio it was built from. *)
Record Source := { src_chapter : nat; src_audio : jsstring }.

(** The hooks of [App]: the [useState] cells, then the [useRef] cells. *)
Record App := {
  state : StoryState;
  currentGuidance : jsstring;
  isAutoGenerating : bool;
  isPlaying : bool;
  playingChapterIndex : option nat;
  isEditingBlueprint : bool;
  editableBlueprint : jsstring;
  audioContextRef : bool;
  sourceRef : option Source;
  stopSignal : bool;
  isReadingRef : bool
}.

(** The hooks of [ChatInterface]. *)
Record Chat := {
  messages : list Message;
  input : jsstring;
  isTyping : bool
}.

Definition initialState : StoryState :=
  {| image := None; analysis := []; blueprint := []; paragraph := [];
     isLoading := false; currentChapter := 1; error := None |}.

Definition initialApp : App :=
  {| state := initialState; currentGuidance := []; isAutoGenerating := false;
     isPlaying := false; playingChapterIndex := None;
     isEditingBlueprint := false; editableBlueprint := [];
     audioContextRef := false; sourceRef := None; stopSignal := false;
     isReadingRef := false |}.

Definition initialChat : Chat :=
  {| messages := []; input := []; isTyping := false |}.

(** Cell updates: [setX(v)] and [ref.current = v]. *)
Definition setState (f : StoryState -> StoryState) (a : App) : App :=
  {| state := f (state a); currentGuidance := currentGuidance a;
     isAutoGenerating := isAutoGenerating a; isPlaying := isPlaying a;
     playingChapterIndex := playingChapterIndex a;
     isEditingBlueprint := isEditingBlueprint a;
     editableBlueprint := editableBlueprint a;
     audioContextRef := audioContextRef a; sourceRef := sourceRef a;
     stopSignal := stopSignal a; isReadingRef := isReadingRef a |}.

Definition setCurrentGuidance (v : jsstring) (a : App) : App :=
  {| state := state a; currentGuidance := v;
     isAutoGenerating := isAutoGenerating a; isPlaying := isPlaying a;
     playingChapterIndex := playingChapterIndex a;
     isEditingBlueprint := isEditingBlueprint a;
     editableBlueprint := editableBlueprint a;
     audioContextRef := audioContextRef a; sourceRef := sourceRef a;
     stopSignal := stopSignal a; isReadingRef := isReadingRef a |}.

Definition setIsAutoGenerating (v : bool) (a : App) : App :=
  {| state := state a; currentGuidance := currentGuidance a;
     isAutoGenerating := v; isPlaying := isPlaying a;
     playingChapterIndex := playingChapterIndex a;
     isEditingBlueprint := isEditingBlueprint a;
     editableBlueprint := editableBlueprint a;
     audioContextRef := audioContextRef a; sourceRef := sourceRef a;
     stopSignal := stopSignal a; isReadingRef := isReadingRef a |}.

Definition setIsPlaying (v : bool) (a : App) : App :=
  {| state := state a; currentGuidance := currentGuidance a;
     isAutoGenerating := isAutoGenerating a; isPlaying := v;
     playingChapterIndex := playingChapterIndex a;
     isEditingBlueprint := isEditingBlueprint a;
     editableBlueprint := editableBlueprint a;
     audioContextRef := audioContextRef a; sourceRef := sourceRef a;
     stopSignal := stopSignal a; isReadingRef := isReadingRef a |}.

Definition setPlayingChapterIndex (v : option nat) (a : App) : App :=
  {| state := state a; currentGuidance := currentGuidance a;
     isAutoGenerating := isAutoGenerating a; isPlaying := isPlaying a;
     playingChapterIndex := v;
     isEditingBlueprint := isEditingBlueprint a;
     editableBlueprint := editableBlueprint a;
     audioContextRef := audioContextRef a; sourceRef := sourceRef a;
     stopSignal := stopSignal a; isReadingRef := isReadingRef a |}.

Definition setIsEditingBlueprint (v : bool) (a : App) : App :=
  {| state := state a; currentGuidance := currentGuidance a;
     isAutoGenerating := isAutoGenerating a; isPlaying := isPlaying a;
     playingChapterIndex := playingChapterIndex a;
     isEditingBlueprint := v;
     editableBlueprint := editableBlueprint a;
     audioContextRef := audioContextRef a; sourceRef := sourceRef a;
     stopSignal := stopSignal a; isReadingRef := isReadingRef a |}.

Definition setEditableBlueprint (v : jsstring) (a : App) : App :=
  {| state := state a; currentGuidance := currentGuidance a;
     isAutoGenerating := isAutoGenerating a; isPlaying := isPlaying a;
     playingChapterIndex := playingChapterIndex a;
     isEditingBlueprint := isEditingBlueprint a;
     editableBlueprint := v;
     audioContextRef := audioContextRef a; sourceRef := sourceRef a;
     stopSignal := stopSignal a; isReadingRef := isReadingRef a |}.

Definition set_audioContextRef (v : bool) (a : App) : App :=
  {| state := state a; currentGuidance := currentGuidance a;
     isAutoGenerating := isAutoGenerating a; isPlaying := isPlaying a;
     playingChapterIndex := playingChapterIndex a;
     isEditingBlueprint := isEditingBlueprint a;
     editableBlueprint := editableBlueprint a;
     audioContextRef := v; sourceRef := sourceRef a;
     stopSignal := stopSignal a; isReadingRef := isReadingRef a |}.

Definition set_sourceRef (v : option Source) (a : App) : App :=
  {| state := state a; currentGuidance := currentGuidance a;
     isAutoGenerating := isAutoGenerating a; isPlaying := isPlaying a;
     playingChapterIndex := playingChapterIndex a;
     isEditingBlueprint := isEditingBlueprint a;
     editableBlueprint := editableBlueprint a;
     audioContextRef := audioContextRef a; sourceRef := v;
     stopSignal := stopSignal a; isReadingRef := isReadingRef a |}.

Definition set_stopSignal (v : bool) (a : App) : App :=
  {| state := state a; currentGuidance := currentGuidance a;
     isAutoGenerating := isAutoGenerating a; isPlaying := isPlaying a;
     playingChapterIndex := playingChapterIndex a;
     isEditingBlueprint := isEditingBlueprint a;
     editableBlueprint := editableBlueprint a;
     audioContextRef := audioContextRef a; sourceRef := sourceRef a;
     stopSignal := v; isReadingRef := isReadingRef a |}.

Definition set_isReadingRef (v : bool) (a : App) : App :=
  {| state := state a; currentGuidance := currentGuidance a;
     isAutoGenerating := isAutoGenerating a; isPlaying := isPlaying a;
     playingChapterIndex := playingChapterIndex a;
     isEditingBlueprint := isEditingBlueprint a;
     editableBlueprint := editableBlueprint a;
     audioContextRef := audioContextRef a; sourceRef := sourceRef a;
     stopSignal := stopSignal a; isReadingRef := v |}.

(** *** The outside world

    What a handler asks of its environment, in the order it asks. *)
Inductive Effect :=
| ReadAsDataURL
| CallAnalyzeAndPlan (imageBase64 : jsstring)
| CallWriteNextChapter (currentStory blueprint : jsstring) (chapterIndex : N)
    (imageBase64 : option jsstring) (chatContext : jsstring)
| CallChatWithStory (history : list GeminiService.HistoryEntry)
    (message : jsstring) (imageBase64 : option jsstring)
| CallGenerateSpeech (text voiceName : jsstring)
| SourceStart (s : Source)
| SourceStop (s : Source)
| SetTimeout (ms : N)
| ConsoleError
| ClipboardWriteText (text : jsstring)
| Alert (text : jsstring).

(** The request a service call puts on the wire. *)
Definition request_of (e : Effect) : option GeminiService.Request :=
  match e with
  | CallAnalyzeAndPlan img => Some (GeminiService.analyzeAndPlan_request img)
  | CallWriteNextChapter s b n img g =>
      Some (GeminiService.writeNextChapter_request s b n img g)
  | CallChatWithStory h m img =>
      Some (GeminiService.chatWithStory_request h m img)
  | CallGenerateSpeech t v => Some (GeminiService.generateSpeech_request t v)
  | _ => None
  end.

(** How an awaited promise settles. *)
Inductive Settled (A : Type) :=
| Fulfilled (a : A)
| Rejected.
Arguments Fulfilled {A} a.
Arguments Rejected {A}.

(** A suspended [async] handler: the [await] it sits at, with the local
    variables its continuation still reads. *)
Inductive Frame :=
| UploadAwaitFile
| UploadAwaitPlan
| GenerateAwaitChapter (chapter : N) (currentContent : jsstring)
| SendAwaitReply
| ReadAwaitSpeech (chapters : list jsstring) (i : nat)
| ReadAwaitDecode (chapters : list jsstring) (i : nat) (audioBase64 : jsstring)
| ReadAwaitEnded (chapters : list jsstring) (i : nat)
| ReadAwaitPause (chapters : list jsstring) (i : nat).

(** What a handler leaves behind: the new component state, the effects it
    issued, and the frame it is suspended in, if any. *)
Record Outcome (S : Type) :=
  { next : S; effects : list Effect; await : option Frame }.

Arguments next {S} o.
Arguments effects {S} o.
Arguments await {S} o.

Definition done {S} (s : S) : Outcome S :=
  {| next := s; effects := []; await := None |}.

(** *** App: image upload *)

Definition UPLOAD_ERROR : jsstring := lit "创作启动失败，请检查网络。".
Definition GENERATE_ERROR : jsstring := lit "创作过程中断，请重试。".
Definition READ_ERROR : jsstring := lit "朗诵过程中遇到问题。".
Definition DEFAULT_GUIDANCE : jsstring :=
  lit "请根据图片意境和大纲要求，自然推进剧情。".

(** [handleImageUpload]; [file] tells whether [e.target.files?.[0]] exists. *)
Definition handleImageUpload (file : bool) (a : App) : Outcome App :=
  if negb file then done a
  else {| next := a; effects := [ReadAsDataURL];
          await := Some UploadAwaitFile |}.

Definition stopAudio (a : App) : App * list Effect :=
  let a1 := set_isReadingRef false a in
  let '(a2, fx) :=
    match sourceRef a1 with
    | Some s => (set_sourceRef None a1, [SourceStop s])
    | None => (a1, [])
    end in
  (setPlayingChapterIndex None (setIsPlaying false a2), fx).

(** [reader.onload], up to [await analyzeAndPlan(base64)]. *)
Definition reader_onload (base64 : jsstring) (a : App) : Outcome App :=
  let a1 :=
    setState (fun prev =>
      {| image := Some base64; isLoading := true; error := None;
         paragraph := []; analysis := []; blueprint := [];
         currentChapter := 1 |}) a in
  let a2 := setCurrentGuidance [] a1 in
  let '(a3, fx) := stopAudio a2 in
  {| next := a3; effects := fx ++ [CallAnalyzeAndPlan base64];
     await := Some UploadAwaitPlan |}.

(** [reader.onload], after [await analyzeAndPlan(base64)]; [r] is the
    [response.text] of the model, or the exception. *)
Definition reader_onload_resume (r : Settled (option jsstring)) (a : App)
  : Outcome App :=
  match r with
  | Fulfilled t =>
    let result := GeminiService.analyzeAndPlan_result t in
    done (setState (fun prev =>
      {| image := image prev;
         analysis := GeminiService.analysis result;
         paragraph := GeminiService.firstChapter result;
         isLoading := false;
         error := error prev;
         blueprint := GeminiService.blueprint result;
         currentChapter := currentChapter prev |}) a)
  | Rejected =>
    done (setState (fun prev =>
      {| image := image prev; analysis := analysis prev;
         paragraph := paragraph prev; isLoading := false;
         error := Some UPLOAD_ERROR; blueprint := blueprint prev;
         currentChapter := currentChapter prev |}) a)
  end.

(** *** App: blueprint editing *)

Definition handleSaveBlueprint (a : App) : App :=
  setIsEditingBlueprint false
    (setState (fun prev =>
       {| image := image prev; analysis := analysis prev;
          paragraph := paragraph prev; isLoading := isLoading prev;
          error := error prev; blueprint := editableBlueprint a;
          currentChapter := currentChapter prev |}) a).

(** The button over the blueprint: save when editing, else start editing. *)
Definition blueprint_button (a : App) : App :=
  if isEditingBlueprint a then handleSaveBlueprint a
  else setIsEditingBlueprint true a.

(** *** App: chapter generation *)

(** [generateNextPartOfStory], up to [await writeNextChapter(...)]. *)
Definition generateNextPartOfStory (a : App) : Outcome App :=
  if isAutoGenerating a || negb (truthy (blueprint (state a))) then done a
  else
    let a1 := set_stopSignal false (setIsAutoGenerating true a) in
    let chapter := (currentChapter (state a) + 1)%N in
    let currentContent := paragraph (state a) in
    let guidanceToUse := or_else (currentGuidance a) DEFAULT_GUIDANCE in
    {| next := a1;
       effects := [CallWriteNextChapter currentContent (blueprint (state a))
                     chapter (image (state a)) guidanceToUse];
       await := Some (GenerateAwaitChapter chapter currentContent) |}.

(** [generateNextPartOfStory], after the [await]: [chapter] and
    [currentContent] are the locals computed before it. *)
Definition generateNextPartOfStory_resume
    (chapter : N) (currentContent : jsstring)
    (r : Settled (option jsstring)) (a : App) : Outcome App :=
  let a1 :=
    match r with
    | Fulfilled t =>
      let nextPart := GeminiService.writeNextChapter_result t in
      let currentContent := currentContent ++ [LF; LF] ++ nextPart in
      setState (fun prev =>
        {| image := image prev; analysis := analysis prev;
           paragraph := currentContent; isLoading := isLoading prev;
           error := error prev; blueprint := blueprint prev;
           currentChapter := chapter |}) a
    | Rejected =>
      setState (fun prev =>
        {| image := image prev; analysis := analysis prev;
           paragraph := paragraph prev; isLoading := isLoading prev;
           error := Some GENERATE_ERROR; blueprint := blueprint prev;
           currentChapter := currentChapter prev |}) a
    end in
  done (setIsAutoGenerating false a1).

Definition handleStop (a : App) : App :=
  setIsAutoGenerating false (set_stopSignal true a).

(** *** App: narration *)

Definition DI : code_unit := 31532%N.     (* 第 *)
Definition ZHANG : code_unit := 31456%N.  (* 章 *)

(** The separator pattern, anchored at the start of [s]: two line feeds,
    then a lookahead for 第, any run without line terminator, 章.  On a
    match the two line feeds are consumed and [Some] of the rest returned. *)
Definition separator_here (s : jsstring) : option jsstring :=
  match s with
  | a :: b :: rest =>
    if (a =? LF)%N && (b =? LF)%N
       && match rest with
          | c :: r => (c =? DI)%N && dots_then ZHANG r
          | [] => false
          end
    then Some rest else None
  | _ => None
  end.

(** [paragraph.split(separator)]: the text is scanned from the left; at
    each match the piece read so far is closed and the scan continues after
    the separator. *)
Fixpoint split_chapters (s : jsstring) : list jsstring :=
  match s with
  | [] => [[]]
  | a :: s1 =>
    let extend :=
      match split_chapters s1 with
      | piece :: rest => (a :: piece) :: rest
      | [] => [[a]]
      end in
    match s1 with
    | b :: s2 =>
      match separator_here s with
      | Some _ => [] :: split_chapters s2
      | None => extend
      end
    | [] => extend
    end
  end.

Definition KORE : jsstring := lit "Kore".
Definition PUCK : jsstring := lit "Puck".

Definition voice_for (i : nat) : jsstring :=
  if Nat.even i then KORE else PUCK.

(** The [finally] block of [handleReadFullStory]. *)
Definition read_finally (a : App) : App :=
  if isReadingRef a
  then set_isReadingRef false
         (setPlayingChapterIndex None (setIsPlaying false a))
  else a.

(** The [catch] block, followed by [finally]. *)
Definition read_catch (a : App) : Outcome App :=
  {| next :=
       read_finally (setState (fun prev =>
         {| image := image prev; analysis := analysis prev;
            paragraph := paragraph prev; isLoading := isLoading prev;
            error := Some READ_ERROR; blueprint := blueprint prev;
            currentChapter := currentChapter prev |}) a);
     effects := [ConsoleError];
     await := None |}.

(** The loop from the test [i < chapters.length] to the first [await]. *)
Definition read_loop (chapters : list jsstring) (i : nat) (a : App)
  : Outcome App :=
  match nth_error chapters i with
  | None => done (read_finally a)
  | Some chapterText =>
    if negb (isReadingRef a) then done (read_finally a)
    else
      let a1 := setPlayingChapterIndex (Some (i + 1)) a in
      let voice := voice_for i in
      let textToRead := slice chapterText 0 (Some 1500%Z) in
      {| next := a1;
         effects := [CallGenerateSpeech textToRead voice];
         await := Some (ReadAwaitSpeech chapters i) |}
  end.

(** [handleReadFullStory], up to the first [await]; [contextAvailable]
    tells whether constructing an AudioContext succeeds, should one be
    needed. *)
Definition handleReadFullStory (contextAvailable : bool) (a : App)
  : Outcome App :=
  if isPlaying a then
    let '(a1, fx) := stopAudio a in
    {| next := a1; effects := fx; await := None |}
  else if negb (truthy (paragraph (state a))) then done a
  else
    let a1 := set_isReadingRef true (setIsPlaying true a) in
    let chapters := split_chapters (paragraph (state a)) in
    if audioContextRef a1 then read_loop chapters 0 a1
    else if contextAvailable
         then read_loop chapters 0 (set_audioContextRef true a1)
         else read_catch a1.

(** [response.candidates?.[0]?.content?.parts?.[0]?.inlineData?.data || ""] *)
Definition generateSpeech_result (data : option jsstring) : jsstring :=
  opt_or_else data [].

(** After [await generateSpeech(textToRead, voice)]. *)
Definition read_after_speech (chapters : list jsstring) (i : nat)
    (r : Settled (option jsstring)) (a : App) : Outcome App :=
  match r with
  | Rejected => read_catch a
  | Fulfilled data =>
    let audioBase64 := generateSpeech_result data in
    if negb (isReadingRef a) then done (read_finally a)
    else {| next := a; effects := [];
            await := Some (ReadAwaitDecode chapters i audioBase64) |}
  end.

(** After [decodeBase64ToUint8Array] and [await decodeAudioData]: both live
    in utils/audioUtils, outside the sources at hand, so whether they yield
    a buffer or throw is given by [r]. *)
Definition read_after_decode (chapters : list jsstring) (i : nat)
    (audioBase64 : jsstring) (r : Settled unit) (a : App) : Outcome App :=
  match r with
  | Rejected => read_catch a
  | Fulfilled _ =>
    let source := {| src_chapter := i; src_audio := audioBase64 |} in
    {| next := set_sourceRef (Some source) a;
       effects := [SourceStart source];
       await := Some (ReadAwaitEnded chapters i) |}
  end.

(** After the promise resolved by [source.onended]. *)
Definition read_after_ended (chapters : list jsstring) (i : nat) (a : App)
  : Outcome App :=
  if (S i <? length chapters)%nat && isReadingRef a
  then {| next := a; effects := [SetTimeout 800];
          await := Some (ReadAwaitPause chapters i) |}
  else read_loop chapters (S i) a.

(** After the 800 ms pause. *)
Definition read_after_pause (chapters : list jsstring) (i : nat) (a : App)
  : Outcome App :=
  read_loop chapters (S i) a.

Definition copyToClipboard (a : App) : Outcome App :=
  {| next := a;
     effects := [ClipboardWriteText (paragraph (state a));
                 Alert (lit "作品已成功复制到剪贴板。")];
     await := None |}.

(** The button of the error toast; it is labelled 重试 and clears the slot. *)
Definition dismiss_error (a : App) : App :=
  setState (fun s =>
    {| image := image s; analysis := analysis s; paragraph := paragraph s;
       isLoading := isLoading s; error := None; blueprint := blueprint s;
       currentChapter := currentChapter s |}) a.

(** [useEffect(() => setEditableBlueprint(state.blueprint),
    [state.blueprint])]: after a render in which the blueprint differs from
    the previous render, the edit buffer is reset to it. *)
Definition useEffect_blueprint (before after : App) : App :=
  if list_eq_dec N.eq_dec (blueprint (state before)) (blueprint (state after))
  then after
  else setEditableBlueprint (blueprint (state after)) after.

(** *** ChatInterface *)

Definition CHAT_FALLBACK : jsstring := lit "连接助手时遇到了点问题。".

Definition setMessages (f : list Message -> list Message) (c : Chat) : Chat :=
  {| messages := f (messages c); input := input c; isTyping := isTyping c |}.
Definition setInput (v : jsstring) (c : Chat) : Chat :=
  {| messages := messages c; input := v; isTyping := isTyping c |}.
Definition setIsTyping (v : bool) (c : Chat) : Chat :=
  {| messages := messages c; input := input c; isTyping := v |}.

(** [handleSend], up to [await chatWithStory(...)]; [imageBase64] is the
    prop of that name. *)
Definition handleSend (imageBase64 : option jsstring) (c : Chat)
  : Outcome Chat :=
  if negb (truthy (trim (input c))) || isTyping c then done c
  else
    let userMsg := {| role := user; content := input c |} in
    let c1 :=
      setIsTyping true
        (setInput [] (setMessages (fun prev => prev ++ [userMsg]) c)) in
    let history :=
      map (fun m => {| GeminiService.h_role := role m;
                       GeminiService.h_text := content m |}) (messages c) in
    {| next := c1;
       effects := [CallChatWithStory history (input c) imageBase64];
       await := Some SendAwaitReply |}.

(** [handleSend], after the [await]; besides the new chat state and the
    effects, the value handed to [onAssistantReply], if it is called. *)
Definition handleSend_resume (r : Settled (option jsstring)) (c : Chat)
  : Chat * list Effect * option jsstring :=
  match r with
  | Fulfilled t =>
    let response := GeminiService.chatWithStory_result t in
    (setIsTyping false
       (setMessages
          (fun prev => prev ++ [{| role := assistant; content := response |}])
          c),
     [], Some response)
  | Rejected =>
    (setIsTyping false
       (setMessages
          (fun prev =>
             prev ++ [{| role := assistant; content := CHAT_FALLBACK |}])
          c),
     [ConsoleError], None)
  end.

(** *** The event loop

    One configuration holds both components, the suspended handlers, and
    the effects issued so far.  Handlers run to their next [await] without
    interruption; between two such runs, any user event or any settled
    promise may come next. *)

Record World := {
  app : App;
  chat : Chat;
  pending : list Frame;
  log : list Effect
}.

Definition initialWorld : World :=
  {| app := initialApp; chat := initialChat; pending := []; log := [] |}.

(** What wakes a suspended handler. *)
Inductive Wake :=
| FileLoaded (base64 : jsstring)
| Response (r : Settled (option jsstring))
| Decoded (r : Settled unit)
| Ended
| TimerFired.

Inductive Event :=
| PickFile (file : bool)
| ClickGenerate
| ClickStop
| ClickRead (contextAvailable : bool)
| ClickBlueprintButton
| EditBlueprint (text : jsstring)
| ClickCopy
| ClickDismissError
| TypeInput (text : jsstring)
| SubmitChat
| Resume (n : nat) (k : Wake).

Fixpoint remove_nth {A} (n : nat) (l : list A) : list A :=
  match n, l with
  | _, [] => []
  | O, _ :: l' => l'
  | S n', x :: l' => x :: remove_nth n' l'
  end.

Definition frames_of (f : option Frame) : list Frame :=
  match f with Some x => [x] | None => [] end.

(** A handler of [App] has run: render, post-render effect, bookkeeping. *)
Definition commit (w : World) (o : Outcome App) : World :=
  {| app := useEffect_blueprint (app w) (next o);
     chat := chat w;
     pending := pending w ++ frames_of (await o);
     log := log w ++ effects o |}.

Definition commit_chat (w : World) (o : Outcome Chat) : World :=
  {| app := app w;
     chat := next o;
     pending := pending w ++ frames_of (await o);
     log := log w ++ effects o |}.

(** The continuation of a frame of [App] on the value that wakes it. *)
Definition resume (f : Frame) (k : Wake) (a : App) : option (Outcome App) :=
  match f, k with
  | UploadAwaitFile, FileLoaded b => Some (reader_onload b a)
  | UploadAwaitPlan, Response r => Some (reader_onload_resume r a)
  | GenerateAwaitChapter ch cc, Response r =>
      Some (generateNextPartOfStory_resume ch cc r a)
  | ReadAwaitSpeech chs i, Response r => Some (read_after_speech chs i r a)
  | ReadAwaitDecode chs i au, Decoded r =>
      Some (read_after_decode chs i au r a)
  | ReadAwaitEnded chs i, Ended => Some (read_after_ended chs i a)
  | ReadAwaitPause chs i, TimerFired => Some (read_after_pause chs i a)
  | _, _ => None
  end.

Definition unplug (n : nat) (w : World) : World :=
  {| app := app w; chat := chat w; pending := remove_nth n (pending w);
     log := log w |}.

(** One turn of the event loop; [None] when the event cannot occur (no such
    frame, or a frame woken by a value of the wrong kind). *)
Definition step (w : World) (e : Event) : option World :=
  match e with
  | PickFile file => Some (commit w (handleImageUpload file (app w)))
  | ClickGenerate => Some (commit w (generateNextPartOfStory (app w)))
  | ClickStop => Some (commit w (done (handleStop (app w))))
  | ClickRead ok => Some (commit w (handleReadFullStory ok (app w)))
  | ClickBlueprintButton => Some (commit w (done (blueprint_button (app w))))
  | EditBlueprint t => Some (commit w (done (setEditableBlueprint t (app w))))
  | ClickCopy => Some (commit w (copyToClipboard (app w)))
  | ClickDismissError => Some (commit w (done (dismiss_error (app w))))
  | TypeInput t =>
      Some (commit_chat w (done (setInput t (chat w))))
  | SubmitChat =>
      Some (commit_chat w (handleSend (image (state (app w))) (chat w)))
  | Resume n k =>
    match nth_error (pending w) n with
    | None => None
    | Some SendAwaitReply =>
      match k with
      | Response r =>
        let '(c, fx, reply) := handleSend_resume r (chat w) in
        let a := match reply with
                 | Some response => setCurrentGuidance response (app w)
                 | None => app w
                 end in
        Some {| app := a; chat := c; pending := remove_nth n (pending w);
                log := log w ++ fx |}
      | _ => None
      end
    | Some f =>
      match resume f k (app w) with
      | Some o => Some (commit (unplug n w) o)
      | None => None
      end
    end
  end.

Fixpoint run (w : World) (es : list Event) : option World :=
  match es with
  | [] => Some w
  | e :: es' =>
    match step w e with
    | Some w' => run w' es'
    | None => None
    end
  end.

(** One handler followed on its own: [later] is the outcome of resuming
    the frame left by [earlier]; [drive] feeds the wakes, one after the
    other, to the frame the handler is suspended in. *)
Definition after (earlier later : Outcome App) : Outcome App :=
  {| next := next later;
     effects := effects earlier ++ effects later;
     await := await later |}.


(** Which controls the rendered page offers.  The file input exists only
    while no image is set; the generation panel needs a story, no initial
    analysis under way and fewer than six chapters; the stop button is part
    of that panel while a generation is flagged; the blueprint card and the
    narration button need a blueprint (and a story). *)
Definition generation_panel (a : App) : bool :=
  truthy (paragraph (state a)) && negb (isLoading (state a))
  && (currentChapter (state a) <? 6)%N.

Definition offered (w : World) (e : Event) : bool :=
  let a := app w in
  match e with
  | PickFile _ =>
      match image (state a) with Some i => negb (truthy i) | None => true end
  | ClickGenerate => generation_panel a && negb (isAutoGenerating a)
  | ClickStop => generation_panel a && isAutoGenerating a
  | ClickRead _ =>
      truthy (blueprint (state a)) && truthy (paragraph (state a))
  | ClickBlueprintButton => truthy (blueprint (state a))
  | EditBlueprint _ => truthy (blueprint (state a)) && isEditingBlueprint a
  | ClickCopy => truthy (paragraph (state a))
  | ClickDismissError =>
      match error (state a) with Some m => truthy m | None => false end
  | TypeInput _ => true
  | SubmitChat => true
  | Resume _ _ => true
  end.

(** A run in which every user event goes through a control on the page. *)
Fixpoint run_page (w : World) (es : list Event) : option World :=
  match es with
  | [] => Some w
  | e :: es' =>
    if offered w e then
      match step w e with
      | Some w' => run_page w' es'
      | None => None
      end
    else None
  end.

(** *** App: the article

    [state.paragraph.split('\n\n')]: the pieces between the occurrences of
    two line feeds, found from the left, each search starting behind the
    occurrence before. *)
Fixpoint split_paragraphs (s : jsstring) : list jsstring :=
  match s with
  | [] => [[]]
  | a :: s1 =>
    let extend :=
      match split_paragraphs s1 with
      | piece :: rest => (a :: piece) :: rest
      | [] => [[a]]
      end in
    match s1 with
    | b :: s2 =>
      if (a =? LF)%N && (b =? LF)%N then [] :: split_paragraphs s2
      else extend
    | [] => extend
    end
  end.

(** The paragraphs of the article in the order shown, each with the test
    [p.startsWith('第')] that renders it as a chapter heading. *)
Definition article (paragraph : jsstring) : list (bool * jsstring) :=
  map (fun p => (starts_with [DI] p, p)) (split_paragraphs paragraph).

End Ui.

(* ===================================================================== *)
(** ** Vocabulary of the properties *)
(* ===================================================================== *)

Import JS.

(** *** Strings and model responses *)

(** The last [n] code units of a string, the whole string when it has fewer. *)
Definition last_chars (n : nat) (s : jsstring) : jsstring :=
  skipn (length s - n) s.


(** Model responses: all three sections, the story section missing, and
    only the story section. *)
Definition sample_response : jsstring := lit "前言 分析： 雾 大纲： 六章 故事： 起 ".
Definition response_without_story : jsstring := lit "分析：a大纲：b".
Definition response_story_only : jsstring := lit "故事：c".

(** A response in which 故事： occurs twice. *)
Definition response_two_stories : jsstring := lit "分析：a大纲：b故事：c故事：d".

(** *** Configurations and sessions on the page *)

(** The story part of a configuration. *)
Definition story_of (w : Ui.World) : Ui.StoryState := Ui.state (Ui.app w).

(** Sample data: an image, a first model response with a blueprint, and a
    configuration in the middle of a story, narrating, with a second file
    being read and one call of each remote kind in flight. *)
Definition sample_image : jsstring := lit "data:image/jpeg;base64,QUJD".

Definition sample_story : Ui.StoryState :=
  {| Ui.image := Some (lit "data:image/jpeg;base64,AAAA");
     Ui.analysis := lit "mist"; Ui.paragraph := lit "Once";
     Ui.isLoading := false; Ui.error := None;
     Ui.blueprint := lit "six chapters"; Ui.currentChapter := 2 |}.

Definition sample_app : Ui.App :=
  {| Ui.state := sample_story; Ui.currentGuidance := lit "a twist";
     Ui.isAutoGenerating := true; Ui.isPlaying := true;
     Ui.playingChapterIndex := Some 1; Ui.isEditingBlueprint := false;
     Ui.editableBlueprint := lit "six chapters";
     Ui.audioContextRef := true;
     Ui.sourceRef := Some {| Ui.src_chapter := 0; Ui.src_audio := lit "UklG" |};
     Ui.stopSignal := false; Ui.isReadingRef := true |}.

Definition sample_world : Ui.World :=
  {| Ui.app := sample_app; Ui.chat := Ui.initialChat;
     Ui.pending :=
       [Ui.UploadAwaitFile; Ui.UploadAwaitPlan;
        Ui.GenerateAwaitChapter 3 (lit "Once");
        Ui.ReadAwaitSpeech [lit "Once"] 0];
     Ui.log := [] |}.

(** A session on the page: an image is picked and read, and the model
    answers with an analysis, a blueprint and a first chapter. *)
Definition first_response : jsstring := lit "分析：雾大纲：六章故事：起".

Definition reply (s : string) : Ui.Wake :=
  Ui.Response (Ui.Fulfilled (Some (lit s))).

Definition story_begun : list Ui.Event :=
  [Ui.PickFile true;
   Ui.Resume 0 (Ui.FileLoaded sample_image);
   Ui.Resume 0 (Ui.Response (Ui.Fulfilled (Some first_response)))].

(** The configuration a session on the page ends in. *)
Definition world_after (es : list Ui.Event) : Ui.World :=
  match Ui.run_page Ui.initialWorld es with
  | Some w => w
  | None => Ui.initialWorld
  end.

(** *** Failing calls and uploads *)

(** The frames that wait for a remote generation call of [App], with the
    message shown when that call fails. *)
Definition failure_message (f : Ui.Frame) : option jsstring :=
  match f with
  | Ui.UploadAwaitPlan => Some Ui.UPLOAD_ERROR
  | Ui.GenerateAwaitChapter _ _ => Some Ui.GENERATE_ERROR
  | Ui.ReadAwaitSpeech _ _ => Some Ui.READ_ERROR
  | _ => None
  end.

(** An effect that is not a call of the hosted model. *)
Definition local_effect (e : Ui.Effect) : Prop := Ui.request_of e = None.

(** What [stopAudio] asks of the current buffer source, if there is one. *)
Definition stop_current (a : Ui.App) : list Ui.Effect :=
  match Ui.sourceRef a with
  | Some s => [Ui.SourceStop s]
  | None => []
  end.

(** *** Chapter generation *)

(** The frames through which the story text can change. *)
Definition writes_story (f : Ui.Frame) : bool :=
  match f with
  | Ui.UploadAwaitFile | Ui.UploadAwaitPlan
  | Ui.GenerateAwaitChapter _ _ => true
  | _ => false
  end.

(** The next chapter is requested, the stop button is pressed while the
    request is in flight, and the chapter is requested again: two
    continuation requests are now pending, frame 0 the older one. *)
Definition two_generations_in_flight : list Ui.Event :=
  story_begun ++ [Ui.ClickGenerate; Ui.ClickStop; Ui.ClickGenerate].

(** The younger request is answered first. *)
Definition younger_answered : list Ui.Event :=
  two_generations_in_flight ++ [Ui.Resume 1 (reply "第 2 章：乙")].

(** A third chapter is then requested and written. *)
Definition third_chapter_written : list Ui.Event :=
  younger_answered ++ [Ui.ClickGenerate; Ui.Resume 1 (reply "第 3 章：丙")].

(** Finally the older request, still frame 0, is answered. *)
Definition older_answer : Ui.Event := Ui.Resume 0 (reply "第 2 章：甲").

(** Generations one at a time.  A frame is generating when it waits for a
    chapter, uploading when it belongs to an image upload.  The generation
    flag tells the truth when the chapter requests in flight are exactly
    the one the flag stands for, made from the present story.  An event is
    undisturbed when it is neither a press of the stop button nor the
    resumption of an upload. *)
Definition generating (f : Ui.Frame) : bool :=
  match f with
  | Ui.GenerateAwaitChapter _ _ => true
  | _ => false
  end.

Definition uploading (f : Ui.Frame) : bool :=
  match f with
  | Ui.UploadAwaitFile | Ui.UploadAwaitPlan => true
  | _ => false
  end.

Definition one_generation (w : Ui.World) : Prop :=
  filter generating (Ui.pending w)
  = if Ui.isAutoGenerating (Ui.app w)
    then [Ui.GenerateAwaitChapter
            (Ui.currentChapter (story_of w) + 1) (Ui.paragraph (story_of w))]
    else [].

Definition undisturbed (w : Ui.World) (e : Ui.Event) : bool :=
  match e with
  | Ui.ClickStop => false
  | Ui.Resume n _ =>
    match nth_error (Ui.pending w) n with
    | Some f => negb (uploading f)
    | None => true
    end
  | _ => true
  end.

Fixpoint run_undisturbed (w : Ui.World) (es : list Ui.Event)
  : option Ui.World :=
  match es with
  | [] => Some w
  | e :: es' =>
    if undisturbed w e then
      match Ui.step w e with
      | Some w' => run_undisturbed w' es'
      | None => None
      end
    else None
  end.

(** A handler outcome that neither touches the story nor the generation
    flag, and leaves no generating frame. *)
Definition keeps_generation (a : Ui.App) (o : Ui.Outcome Ui.App) : Prop :=
  Ui.paragraph (Ui.state (Ui.next o)) = Ui.paragraph (Ui.state a)
  /\ Ui.currentChapter (Ui.state (Ui.next o)) = Ui.currentChapter (Ui.state a)
  /\ Ui.isAutoGenerating (Ui.next o) = Ui.isAutoGenerating a
  /\ filter generating (Ui.frames_of (Ui.await o)) = [].

(** *** Narration *)

(** Putting chapters back together with the blank line between them, and
    what a chapter heading looks like: 第, then 章 before the line ends. *)
Fixpoint join_chapters (l : list jsstring) : jsstring :=
  match l with
  | [] => []
  | p :: rest =>
    match rest with
    | [] => p
    | _ :: _ => p ++ [LF; LF] ++ join_chapters rest
    end
  end.

Definition heading (p : jsstring) : bool :=
  match p with
  | c :: r => (c =? Ui.DI)%N && dots_then Ui.ZHANG r
  | [] => false
  end.

(** The number of places of a text where the separator pattern matches. *)
Fixpoint count_separators (s : jsstring) : nat :=
  match s with
  | [] => 0
  | _ :: s' =>
    (match Ui.separator_here s with Some _ => 1 | None => 0 end)
    + count_separators s'
  end.



(** A story of three chapters, and a synthesis service that answers every
    request with the same audio. *)
Definition three_chapters : jsstring :=
  lit "起" ++ [LF; LF] ++ lit "第 2 章：乙" ++ [LF; LF] ++ lit "第 3 章：丙".


(** A frame of the narration loop; and the configuration in which a
    handler of [App] with outcome [o] has just been suspended, for an
    outcome that leaves the blueprint alone. *)
Definition narrating (f : Ui.Frame) : bool :=
  match f with
  | Ui.ReadAwaitSpeech _ _ | Ui.ReadAwaitDecode _ _ _
  | Ui.ReadAwaitEnded _ _ | Ui.ReadAwaitPause _ _ => true
  | _ => false
  end.


(** A session in which three chapters have been written. *)
Definition three_chapters_written : list Ui.Event :=
  story_begun
  ++ [Ui.ClickGenerate; Ui.Resume 0 (reply "第 2 章：乙");
      Ui.ClickGenerate; Ui.Resume 0 (reply "第 3 章：丙")].

(** A speech-synthesis request whose text has at most 1500 code units. *)
Definition short_speech (e : Ui.Effect) : bool :=
  match e with
  | Ui.CallGenerateSpeech text _ => (length text <=? 1500)%nat
  | _ => true
  end.

(** *** Cancelling the narration *)

(** An effect is silent when it is
    neither a speech-synthesis request nor the start of a playback; a frame
    is decoding when its loop sits between the answer of the synthesis
    and the start of the playback; the narration button is the one control
    that can set the reading flag. *)
Definition silent (e : Ui.Effect) : bool :=
  match e with
  | Ui.CallGenerateSpeech _ _ | Ui.SourceStart _ => false
  | _ => true
  end.

Definition decoding (f : Ui.Frame) : bool :=
  match f with
  | Ui.ReadAwaitDecode _ _ _ => true
  | _ => false
  end.

Definition narration_button (e : Ui.Event) : bool :=
  match e with
  | Ui.ClickRead _ => true
  | _ => false
  end.

(** A configuration in which narration is off: the flag is cleared and no
    loop is decoding.  A handler outcome that keeps it so. *)
Definition not_decoding (f : Ui.Frame) : bool := negb (decoding f).

Definition quiet (w : Ui.World) : Prop :=
  Ui.isReadingRef (Ui.app w) = false
  /\ forallb not_decoding (Ui.pending w) = true.

Definition calm (o : Ui.Outcome Ui.App) : Prop :=
  Ui.isReadingRef (Ui.next o) = false
  /\ forallb silent (Ui.effects o) = true
  /\ forallb not_decoding (Ui.frames_of (Ui.await o)) = true.

(** A narration is started on the first chapter. *)
Definition narration_started : list Ui.Event :=
  story_begun ++ [Ui.ClickRead true].

(** Cancellation in the strong sense: once the narration button has
    stopped a narration, a loop that was waiting for speech synthesis at
    that moment ends when the synthesis returns, whatever happened in
    between. *)
Definition stop_is_final : Prop :=
  forall (es0 es : list Ui.Event) (w0 w w' : Ui.World) (ok : bool)
         (chs : list jsstring) (i : nat)
         (r : Ui.Settled (option jsstring)) (o : Ui.Outcome Ui.App),
    Ui.run_page Ui.initialWorld es0 = Some w0 ->
    Ui.isPlaying (Ui.app w0) = true ->
    Ui.step w0 (Ui.ClickRead ok) = Some w ->
    In (Ui.ReadAwaitSpeech chs i) (Ui.pending w) ->
    Ui.run_page w es = Some w' ->
    In (Ui.ReadAwaitSpeech chs i) (Ui.pending w') ->
    Ui.resume (Ui.ReadAwaitSpeech chs i) (Ui.Response r) (Ui.app w') = Some o ->
    Ui.await o = None /\ forallb silent (Ui.effects o) = true.

(** After the stop: the synthesis in flight answers, and the next chapter
    is requested. *)
Definition after_the_stop : list Ui.Event :=
  [Ui.Resume 0 (reply "UklG"); Ui.ClickGenerate].

(** A story of two chapters is narrated, stopped during the first
    synthesis, and narrated again; then the first synthesis, the one of
    the stopped loop, answers, and that loop is followed through decoding,
    playback and pause. *)
Definition two_chapters_stopped : list Ui.Event :=
  story_begun
  ++ [Ui.ClickGenerate; Ui.Resume 0 (reply "第 2 章：乙");
      Ui.ClickRead true; Ui.ClickRead true].

Definition stopped_loop_carries_on : list Ui.Event :=
  [Ui.ClickRead true;
   Ui.Resume 0 (reply "UklG");
   Ui.Resume 1 (Ui.Decoded (Ui.Fulfilled tt));
   Ui.Resume 1 Ui.Ended;
   Ui.Resume 1 Ui.TimerFired].

(** *** The assistant chat *)

(** The frame of a chat turn whose reply is pending. *)
Definition awaiting_reply (f : Ui.Frame) : bool :=
  match f with
  | Ui.SendAwaitReply => true
  | _ => false
  end.

Definition replies_pending (w : Ui.World) : nat :=
  length (filter awaiting_reply (Ui.pending w)).

(** A chat in which a question has been typed, and one still waiting for
    the reply to an earlier question. *)
Definition chat_with_question : Ui.Chat :=
  {| Ui.messages :=
       [{| Ui.role := GeminiService.assistant; Ui.content := lit "hello" |}];
     Ui.input := lit " a twist? "; Ui.isTyping := false |}.

Definition chat_waiting : Ui.Chat :=
  {| Ui.messages :=
       [{| Ui.role := GeminiService.user; Ui.content := lit "a twist?" |}];
     Ui.input := lit "and then?"; Ui.isTyping := true |}.

(** *** Data URLs and trimmed sections *)


Definition trimmed (s : jsstring) : bool :=
  match s with c :: _ => negb (is_white_space c) | [] => true end
  && match rev s with c :: _ => negb (is_white_space c) | [] => true end.

(** *** Turns of the event loop *)

(** The handler of [App] that a user event runs, applied to the component
    state; [None] for the events of the chat and for wake-ups. *)
Definition app_handler (e : Ui.Event) (a : Ui.App)
  : option (Ui.Outcome Ui.App) :=
  match e with
  | Ui.PickFile file => Some (Ui.handleImageUpload file a)
  | Ui.ClickGenerate => Some (Ui.generateNextPartOfStory a)
  | Ui.ClickStop => Some (Ui.done (Ui.handleStop a))
  | Ui.ClickRead ok => Some (Ui.handleReadFullStory ok a)
  | Ui.ClickBlueprintButton => Some (Ui.done (Ui.blueprint_button a))
  | Ui.EditBlueprint t => Some (Ui.done (Ui.setEditableBlueprint t a))
  | Ui.ClickCopy => Some (Ui.copyToClipboard a)
  | Ui.ClickDismissError => Some (Ui.done (Ui.dismiss_error a))
  | _ => None
  end.

(** The handler of [ChatInterface] that a user event runs. *)
Definition chat_handler (e : Ui.Event) (w : Ui.World)
  : option (Ui.Outcome Ui.Chat) :=
  match e with
  | Ui.TypeInput t => Some (Ui.done (Ui.setInput t (Ui.chat w)))
  | Ui.SubmitChat =>
      Some (Ui.handleSend (Ui.image (story_of w)) (Ui.chat w))
  | _ => None
  end.

(** The configuration after the reply of the assistant, settled as [r],
    has woken the chat turn suspended in frame [n]. *)
Definition replied (n : nat) (r : Ui.Settled (option jsstring)) (w : Ui.World)
  : Ui.World :=
  {| Ui.app :=
       match snd (Ui.handleSend_resume r (Ui.chat w)) with
       | Some response => Ui.setCurrentGuidance response (Ui.app w)
       | None => Ui.app w
       end;
     Ui.chat := fst (fst (Ui.handleSend_resume r (Ui.chat w)));
     Ui.pending := Ui.remove_nth n (Ui.pending w);
     Ui.log := Ui.log w ++ snd (fst (Ui.handleSend_resume r (Ui.chat w))) |}.

(** *** Busy indicators *)

(** The frame of an upload that waits for the first analysis. *)
Definition planning (f : Ui.Frame) : bool :=
  match f with
  | Ui.UploadAwaitPlan => true
  | _ => false
  end.

(** Sessions with work in flight: the image is being analysed; a chapter
    has been requested; a narration has been started. *)
Definition upload_in_flight : list Ui.Event :=
  [Ui.PickFile true; Ui.Resume 0 (Ui.FileLoaded sample_image)].

Definition generation_in_flight : list Ui.Event :=
  story_begun ++ [Ui.ClickGenerate].

(** *** What the page allows *)

(** A frame whose chapter number, if it carries one, lies between 1 and 6;
    a frame that is not waiting for a file to be read; a frame that can
    neither set the blueprint nor speak: a generation or a chat turn. *)
Definition chapter_in_range (f : Ui.Frame) : bool :=
  match f with
  | Ui.GenerateAwaitChapter ch _ => (1 <=? ch)%N && (ch <=? 6)%N
  | _ => true
  end.

Definition not_reading_file (f : Ui.Frame) : bool :=
  match f with
  | Ui.UploadAwaitFile => false
  | _ => true
  end.

Definition harmless (f : Ui.Frame) : bool :=
  generating f || awaiting_reply f.

(** An effect that neither reads a file nor asks the model for an
    analysis, a chapter or speech. *)
Definition no_story_request (e : Ui.Effect) : bool :=
  match e with
  | Ui.ReadAsDataURL | Ui.CallAnalyzeAndPlan _
  | Ui.CallWriteNextChapter _ _ _ _ _ | Ui.CallGenerateSpeech _ _ => false
  | _ => true
  end.

(** No restriction on effects. *)
Definition any_effect (e : Ui.Effect) : bool := true.

(** A session in which the first analysis fails. *)
Definition analysis_failed : list Ui.Event :=
  upload_in_flight ++ [Ui.Resume 0 (Ui.Response Ui.Rejected)].

(** The error is dismissed and the assistant is asked for help. *)
Definition asking_for_help : list Ui.Event :=
  [Ui.ClickDismissError; Ui.TypeInput (lit "help"); Ui.SubmitChat].

(** A story state that holds an image, so that the page shows it in place
    of the file input; an effect that is no part of an upload. *)
Definition has_image (s : Ui.StoryState) : bool :=
  match Ui.image s with
  | Some i => truthy i
  | None => false
  end.

Definition no_upload_effect (e : Ui.Effect) : bool :=
  match e with
  | Ui.ReadAsDataURL | Ui.CallAnalyzeAndPlan _ => false
  | _ => true
  end.

(** *** Editing the blueprint *)

(** The blueprint editor is opened, the text is replaced, and the editor is
    closed with the save button. *)
Definition blueprint_rewritten (t : jsstring) : list Ui.Event :=
  [Ui.ClickBlueprintButton; Ui.EditBlueprint t; Ui.ClickBlueprintButton].

(** A story state with another blueprint. *)
Definition with_blueprint (t : jsstring) (s : Ui.StoryState) : Ui.StoryState :=
  {| Ui.image := Ui.image s; Ui.analysis := Ui.analysis s;
     Ui.paragraph := Ui.paragraph s; Ui.isLoading := Ui.isLoading s;
     Ui.error := Ui.error s; Ui.blueprint := t;
     Ui.currentChapter := Ui.currentChapter s |}.

(** *** The conversation with the assistant *)






(** Messages that alternate between the two roles, starting with [expect]. *)
Definition other_role (r : GeminiService.Role) : GeminiService.Role :=
  match r with
  | GeminiService.assistant => GeminiService.user
  | GeminiService.user => GeminiService.assistant
  end.

Definition same_role (r s : GeminiService.Role) : bool :=
  match r, s with
  | GeminiService.assistant, GeminiService.assistant
  | GeminiService.user, GeminiService.user => true
  | _, _ => false
  end.

Fixpoint turns_alternate (expect : GeminiService.Role) (l : list Ui.Message)
  : bool :=
  match l with
  | [] => true
  | m :: l' =>
    same_role expect (Ui.role m) && turns_alternate (other_role expect) l'
  end.

(** Sessions with the assistant: a question is sent; it is answered; the
    call fails instead. *)
Definition question_sent : list Ui.Event :=
  story_begun ++ [Ui.TypeInput (lit "why?"); Ui.SubmitChat].

Definition question_answered : list Ui.Event :=
  question_sent ++ [Ui.Resume 0 (reply "add a storm")].

Definition question_failed : list Ui.Event :=
  question_sent ++ [Ui.Resume 0 (Ui.Response Ui.Rejected)].

(** *** Narration requests *)

(** One of the two voices of the narration; a speech-synthesis request
    within bounds: at most 1500 code units, in one of the two voices. *)
Definition known_voice (v : jsstring) : bool :=
  if list_eq_dec N.eq_dec v Ui.KORE then true
  else if list_eq_dec N.eq_dec v Ui.PUCK then true
  else false.

Definition speech_in_bounds (e : Ui.Effect) : bool :=
  match e with
  | Ui.CallGenerateSpeech text voice =>
      (length text <=? 1500)%nat && known_voice voice
  | _ => true
  end.

(** The narration of three chapters has reached the second one. *)
Definition second_chapter_requested : list Ui.Event :=
  three_chapters_written
  ++ [Ui.ClickRead true; Ui.Resume 0 (reply "UklG");
      Ui.Resume 0 (Ui.Decoded (Ui.Fulfilled tt)); Ui.Resume 0 Ui.Ended;
      Ui.Resume 0 Ui.TimerFired].

(** A component state that holds a story and has never narrated. *)
Definition app_with_story : Ui.App :=
  Ui.setState (fun _ => sample_story) Ui.initialApp.

(** *** The article *)

(** A text whose last code unit is a line feed. *)
Fixpoint ends_with_LF (s : jsstring) : bool :=
  match s with
  | [] => false
  | c :: s' =>
    match s' with
    | [] => (c =? LF)%N
    | _ :: _ => ends_with_LF s'
    end
  end.

(** *** The stop signal *)

(** A configuration with the stop signal put down. *)
Definition without_stop_signal (w : Ui.World) : Ui.World :=
  {| Ui.app := Ui.set_stopSignal false (Ui.app w);
     Ui.chat := Ui.chat w;
     Ui.pending := Ui.pending w;
     Ui.log := Ui.log w |}.

(** The label of the narration button names a chapter exactly while the
    narration is shown as playing. *)
Definition label_in_step (a : Ui.App) : Prop :=
  match Ui.playingChapterIndex a with
  | Some k => Ui.isPlaying a = true /\ 1 <= k
  | None => Ui.isPlaying a = false
  end.

(* ===================================================================== *)
(** * Verified properties *)
(* ===================================================================== *)

(** ** Literals and code units *)

Example lit_markers :
  GeminiService.MARK_ANALYSIS = [20998; 26512; 65306]%N
  /\ GeminiService.MARK_BLUEPRINT = [22823; 32434; 65306]%N
  /\ GeminiService.MARK_STORY = [25925; 20107; 65306]%N.
Proof. split; [| split]; vm_compute; reflexivity. Qed.

Example lit_heading : lit "第章" = [Ui.DI; Ui.ZHANG].
Proof. vm_compute. reflexivity. Qed.

Example lit_beyond_the_basic_plane : lit "😀" = [55357; 56832]%N.
Proof. vm_compute. reflexivity. Qed.

Example slice_examples :
  slice (lit "abcdef") (-2) None = lit "ef"
  /\ slice (lit "abcdef") (-9) None = lit "abcdef"
  /\ slice (lit "abcdef") 0 (Some 4%Z) = lit "abcd"
  /\ slice (lit "abcdef") 0 (Some 9%Z) = lit "abcdef".
Proof. split; [| split; [| split]]; vm_compute; reflexivity. Qed.

Example image_payload_examples :
  GeminiService.image_payload (lit "data:image/jpeg;base64,QUJD")
  = Some (lit "QUJD")
  /\ GeminiService.image_payload (lit "QUJD") = None.
Proof. split; vm_compute; reflexivity. Qed.

(** ** Facts about [slice] *)

Section SliceFacts.

Variable s : jsstring.

Lemma firstn_min_length (n : nat) :
  firstn (Nat.min n (length s)) s = firstn n s.
Proof.
  destruct (Nat.le_gt_cases n (length s)) as [Hle | Hgt].
  - now rewrite Nat.min_l.
  - rewrite Nat.min_r by lia.
    rewrite firstn_all. symmetry. apply firstn_all2. lia.
Qed.

(** [s.slice(0, n)] is the prefix of length [n]. *)
Lemma slice_prefix (n : nat) :
  slice s 0 (Some (Z.of_nat n)) = firstn n s.
Proof.
  unfold slice, clamp_index. cbn [Z.ltb Z.compare].
  destruct (Z.ltb_spec (Z.of_nat n) 0) as [Hneg | _]; [lia |].
  rewrite <- firstn_min_length.
  replace (Z.to_nat (Z.min 0 (Z.of_nat (length s)))) with 0 by lia.
  cbn [skipn]. f_equal. lia.
Qed.

(** [s.slice(-n)] is the suffix of length [n], for [n > 0]. *)
Lemma slice_suffix (n : nat) :
  0 < n -> slice s (- Z.of_nat n) None = last_chars n s.
Proof.
  intros Hn. unfold slice, clamp_index, last_chars.
  destruct (Z.ltb_spec (- Z.of_nat n) 0) as [_ | Hpos]; [| lia].
  replace (Z.to_nat (Z.max (Z.of_nat (length s) + - Z.of_nat n) 0))
    with (length s - n) by lia.
  apply firstn_all2. rewrite length_skipn. lia.
Qed.

Lemma last_chars_short (n : nat) : length s <= n -> last_chars n s = s.
Proof.
  intros Hle. unfold last_chars.
  replace (length s - n) with 0 by lia. reflexivity.
Qed.

Lemma last_chars_length (n : nat) :
  length (last_chars n s) = Nat.min n (length s).
Proof. unfold last_chars. rewrite length_skipn. lia. Qed.

End SliceFacts.

(** ** writeNextChapter: the story window of the prompt *)

Lemma writeNextChapter_story_window (currentStory : jsstring) :
  slice currentStory (-2000) None = last_chars 2000 currentStory.
Proof. apply (slice_suffix currentStory 2000). lia. Qed.



(** A short story enters the prompt whole. *)
Lemma writeNextChapter_short_story_whole (currentStory : jsstring) :
  length currentStory <= 2000 ->
  slice currentStory (-2000) None = currentStory.
Proof.
  intros Hle. rewrite writeNextChapter_story_window.
  now apply last_chars_short.
Qed.

(** The story enters the prompt at one place, as that window, between two
    texts that do not depend on it. *)
Lemma writeNextChapter_prompt_window
    (blueprint : jsstring) (chapterIndex : N) (chatContext : jsstring) :
  exists before after : jsstring,
    forall currentStory : jsstring,
      GeminiService.writeNextChapter_prompt
        currentStory blueprint chapterIndex chatContext
      = before ++ last_chars 2000 currentStory ++ after.
Proof.
  unfold GeminiService.writeNextChapter_prompt.
  eexists. eexists. intros currentStory.
  rewrite writeNextChapter_story_window.
  repeat match goal with
         | |- ?a ++ ?b ++ ?r = _ =>
             lazymatch b with
             | last_chars _ _ => fail
             | _ => rewrite (app_assoc a b r)
             end
         end.
  reflexivity.
Qed.

(** ** Narration: what is sent to speech synthesis *)

(** C9.  For the chapter at position [i] of the narration split, the loop
    hands speech synthesis the first 1500 code units of the chapter text:
    the whole chapter when it has at most 1500, and otherwise a proper
    prefix whose remainder is left out without any other effect. *)
Theorem narration_reads_first_1500
    (chapters : list jsstring) (i : nat) (chapterText : jsstring)
    (a : Ui.App) :
  nth_error chapters i = Some chapterText ->
  Ui.isReadingRef a = true ->
  Ui.effects (Ui.read_loop chapters i a)
  = [Ui.CallGenerateSpeech (firstn 1500 chapterText) (Ui.voice_for i)]
  /\ length (firstn 1500 chapterText) <= 1500
  /\ (length chapterText <= 1500 -> firstn 1500 chapterText = chapterText)
  /\ chapterText = firstn 1500 chapterText ++ skipn 1500 chapterText.
Proof.
  intros Hnth Hflag. split; [| split; [| split]].
  - unfold Ui.read_loop. rewrite Hnth, Hflag. cbn [negb Ui.effects].
    change 1500%Z with (Z.of_nat 1500). now rewrite slice_prefix.
  - rewrite length_firstn. lia.
  - intros Hle. now apply firstn_all2.
  - symmetry. apply firstn_skipn.
Qed.

Lemma narration_reads_first_1500_witness :
  Ui.effects
    (Ui.read_loop [lit "one"; repeat 120%N 1600] 1
       (Ui.set_isReadingRef true Ui.initialApp))
  = [Ui.CallGenerateSpeech (firstn 1500 (repeat 120%N 1600)) (Ui.voice_for 1)].
Proof.
  exact (proj1 (narration_reads_first_1500
                  [lit "one"; repeat 120%N 1600] 1 (repeat 120%N 1600)
                  (Ui.set_isReadingRef true Ui.initialApp)
                  eq_refl eq_refl)).
Defined.

(** ** Searching and the section patterns *)

Lemma skipn_length_app (x y : jsstring) : skipn (length x) (x ++ y) = y.
Proof. induction x as [| c x IH]; [reflexivity | exact IH]. Qed.

Lemma firstn_length_app (x y : jsstring) : firstn (length x) (x ++ y) = x.
Proof. induction x as [| c x IH]; [reflexivity | cbn; now rewrite IH]. Qed.

Lemma index_of_cons (p : jsstring) (c : code_unit) (s : jsstring) :
  index_of p (c :: s)
  = if starts_with p (c :: s) then Some 0 else option_map S (index_of p s).
Proof. reflexivity. Qed.

Lemma index_of_cons_Some (p : jsstring) (c : code_unit) (s : jsstring) n :
  index_of p (c :: s) = Some n ->
  (starts_with p (c :: s) = true /\ n = 0)
  \/ (starts_with p (c :: s) = false
      /\ exists k, n = S k /\ index_of p s = Some k).
Proof.
  rewrite index_of_cons. destruct (starts_with p (c :: s)).
  - intros [= <-]. now left.
  - destruct (index_of p s) as [k |]; [| discriminate].
    intros [= <-]. right. split; [reflexivity | now exists k].
Qed.

Lemma index_of_cons_None (p : jsstring) (c : code_unit) (s : jsstring) :
  index_of p (c :: s) = None ->
  starts_with p (c :: s) = false /\ index_of p s = None.
Proof.
  rewrite index_of_cons. destruct (starts_with p (c :: s)); [discriminate |].
  destruct (index_of p s); [discriminate | now split].
Qed.

Lemma index_of_nil_Some (p : jsstring) n :
  index_of p [] = Some n -> starts_with p [] = true /\ n = 0.
Proof.
  cbn. destruct (starts_with p []); [| discriminate].
  intros [= <-]. now split.
Qed.

(** An occurrence first found beyond a prefix is first in what follows. *)
Lemma index_of_beyond (p x y : jsstring) (m : nat) :
  index_of p (x ++ y) = Some (length x + m) -> index_of p y = Some m.
Proof.
  induction x as [| c x IH]; [trivial |].
  cbn [app length Nat.add]. intros H.
  apply index_of_cons_Some in H as [[_ H] | [_ (k & Hk & H)]];
    [discriminate |].
  injection Hk as <-. now apply IH.
Qed.

Lemma index_of_None_skipn (p s : jsstring) (k : nat) :
  index_of p s = None -> index_of p (skipn k s) = None.
Proof.
  revert s. induction k as [| k IH]; intros s H; [exact H |].
  destruct s as [| c s]; [exact H |].
  cbn [skipn]. apply IH. now apply index_of_cons_None in H.
Qed.

(** The lazy star stops at the first occurrence of what follows it. *)
Lemma lazy_until_Some (B s : jsstring) (n : nat) :
  index_of B s = Some n -> lazy_until B s = Some (firstn n s).
Proof.
  revert n. induction s as [| c s IH]; intros n H.
  - apply index_of_nil_Some in H as [H ->]. cbn. now rewrite H.
  - cbn [lazy_until].
    apply index_of_cons_Some in H as [[H ->] | [H (k & -> & Hk)]];
      rewrite H; [reflexivity |].
    now rewrite (IH _ Hk).
Qed.

Lemma lazy_until_None (B s : jsstring) :
  index_of B s = None -> lazy_until B s = None.
Proof.
  induction s as [| c s IH]; intros H.
  - cbn in *. now destruct (starts_with B []).
  - cbn [lazy_until]. apply index_of_cons_None in H as [H Hs].
    now rewrite H, (IH Hs).
Qed.

Lemma match_between_unfold (A B s : jsstring) :
  match_between A B s
  = match match_between_here A B s with
    | Some cap => Some cap
    | None => match s with
              | [] => None
              | _ :: s' => match_between A B s'
              end
    end.
Proof. destruct s; reflexivity. Qed.

(** The capture of [A(lazy star)B], when the first [A] is followed by [B]. *)
Lemma match_between_Some (A B s cap : jsstring) (n : nat) :
  index_of A s = Some n ->
  lazy_until B (skipn (n + length A) s) = Some cap ->
  match_between A B s = Some cap.
Proof.
  revert n. induction s as [| c s IH]; intros n HA HB.
  - apply index_of_nil_Some in HA as [HA ->]. cbn [Nat.add] in HB.
    rewrite match_between_unfold. unfold match_between_here.
    now rewrite HA, HB.
  - rewrite match_between_unfold. unfold match_between_here.
    apply index_of_cons_Some in HA as [[HA ->] | [HA (k & -> & Hk)]];
      rewrite HA; cbn [Nat.add] in HB.
    + now rewrite HB.
    + now apply (IH k).
Qed.

Lemma match_between_no_A (A B s : jsstring) :
  index_of A s = None -> match_between A B s = None.
Proof.
  induction s as [| c s IH]; intros H;
    rewrite match_between_unfold; unfold match_between_here.
  - cbn in H. now destruct (starts_with A []).
  - apply index_of_cons_None in H as [H Hs]. rewrite H. now apply IH.
Qed.

Lemma match_between_no_B (A B s : jsstring) :
  index_of B s = None -> match_between A B s = None.
Proof.
  induction s as [| c s IH]; intros H;
    rewrite match_between_unfold; unfold match_between_here.
  - rewrite (lazy_until_None B _ (index_of_None_skipn B [] _ H)).
    now destruct (starts_with A []).
  - rewrite (lazy_until_None B _ (index_of_None_skipn B (c :: s) _ H)).
    apply index_of_cons_None in H as [_ Hs]. rewrite (IH Hs).
    now destruct (starts_with A (c :: s)).
Qed.

Lemma match_after_Some (A s : jsstring) (n : nat) :
  index_of A s = Some n ->
  match_after A s = Some (skipn (n + length A) s).
Proof.
  revert n. induction s as [| c s IH]; intros n H.
  - apply index_of_nil_Some in H as [H ->]. cbn [match_after].
    now rewrite H.
  - cbn [match_after].
    apply index_of_cons_Some in H as [[H ->] | [H (k & -> & Hk)]];
      rewrite H; [reflexivity |].
    now rewrite (IH _ Hk).
Qed.

Lemma match_after_None (A s : jsstring) :
  index_of A s = None -> match_after A s = None.
Proof.
  induction s as [| c s IH]; intros H.
  - cbn in *. now destruct (starts_with A []).
  - cbn [match_after]. apply index_of_cons_None in H as [H Hs].
    now rewrite H, (IH Hs).
Qed.

Lemma match_between_decomposed (A B pre a rest : jsstring) :
  index_of A (pre ++ A ++ a ++ B ++ rest) = Some (length pre) ->
  index_of B (a ++ B ++ rest) = Some (length a) ->
  match_between A B (pre ++ A ++ a ++ B ++ rest) = Some a.
Proof.
  intros HA HB. apply (match_between_Some A B _ a (length pre) HA).
  rewrite <- length_app, app_assoc, skipn_length_app.
  rewrite (lazy_until_Some B _ _ HB). now rewrite firstn_length_app.
Qed.

Lemma match_after_decomposed (A pre c : jsstring) :
  index_of A (pre ++ A ++ c) = Some (length pre) ->
  match_after A (pre ++ A ++ c) = Some c.
Proof.
  intros HA. rewrite (match_after_Some A _ _ HA).
  now rewrite <- length_app, app_assoc, skipn_length_app.
Qed.

(** ** analyzeAndPlan: the three sections of the response *)

Section AnalyzeAndPlan.

Import GeminiService.

Lemma opt_or_else_Some_nil (t : jsstring) : opt_or_else (Some t) [] = t.
Proof. now destruct t. Qed.

Variable text : jsstring.

Lemma analysis_extracted (pre a rest : jsstring) :
  text = pre ++ MARK_ANALYSIS ++ a ++ MARK_BLUEPRINT ++ rest ->
  index_of MARK_ANALYSIS text = Some (length pre) ->
  index_of MARK_BLUEPRINT (a ++ MARK_BLUEPRINT ++ rest) = Some (length a) ->
  analysis (analyzeAndPlan_result (Some text)) = trim a.
Proof.
  intros -> HA HB. unfold analyzeAndPlan_result. cbn [analysis].
  rewrite opt_or_else_Some_nil.
  now rewrite (match_between_decomposed _ _ _ _ _ HA HB).
Qed.

Lemma blueprint_extracted (pre b rest : jsstring) :
  text = pre ++ MARK_BLUEPRINT ++ b ++ MARK_STORY ++ rest ->
  index_of MARK_BLUEPRINT text = Some (length pre) ->
  index_of MARK_STORY (b ++ MARK_STORY ++ rest) = Some (length b) ->
  blueprint (analyzeAndPlan_result (Some text)) = trim b.
Proof.
  intros -> HA HB. unfold analyzeAndPlan_result. cbn [blueprint].
  rewrite opt_or_else_Some_nil.
  now rewrite (match_between_decomposed _ _ _ _ _ HA HB).
Qed.

Lemma firstChapter_extracted (pre c : jsstring) :
  text = pre ++ MARK_STORY ++ c ->
  index_of MARK_STORY text = Some (length pre) ->
  firstChapter (analyzeAndPlan_result (Some text)) = trim c.
Proof.
  intros -> HA. unfold analyzeAndPlan_result. cbn [firstChapter].
  rewrite opt_or_else_Some_nil.
  now rewrite (match_after_decomposed _ _ _ HA).
Qed.

Lemma analysis_placeholder :
  index_of MARK_ANALYSIS text = None \/ index_of MARK_BLUEPRINT text = None ->
  analysis (analyzeAndPlan_result (Some text)) = ANALYSIS_PLACEHOLDER.
Proof.
  intros H. unfold analyzeAndPlan_result. cbn [analysis].
  rewrite opt_or_else_Some_nil.
  destruct H as [H | H];
    [rewrite (match_between_no_A _ _ _ H) | rewrite (match_between_no_B _ _ _ H)];
    reflexivity.
Qed.

Lemma blueprint_placeholder :
  index_of MARK_BLUEPRINT text = None \/ index_of MARK_STORY text = None ->
  blueprint (analyzeAndPlan_result (Some text)) = BLUEPRINT_PLACEHOLDER.
Proof.
  intros H. unfold analyzeAndPlan_result. cbn [blueprint].
  rewrite opt_or_else_Some_nil.
  destruct H as [H | H];
    [rewrite (match_between_no_A _ _ _ H) | rewrite (match_between_no_B _ _ _ H)];
    reflexivity.
Qed.

Lemma firstChapter_whole_text :
  index_of MARK_STORY text = None ->
  firstChapter (analyzeAndPlan_result (Some text)) = text.
Proof.
  intros H. unfold analyzeAndPlan_result. cbn [firstChapter].
  rewrite opt_or_else_Some_nil. now rewrite (match_after_None _ _ H).
Qed.

End AnalyzeAndPlan.

(** Without any response text, every field takes its fallback. *)
Lemma analyzeAndPlan_no_text :
  GeminiService.analyzeAndPlan_result None
  = {| GeminiService.analysis := GeminiService.ANALYSIS_PLACEHOLDER;
       GeminiService.blueprint := GeminiService.BLUEPRINT_PLACEHOLDER;
       GeminiService.firstChapter := [] |}.
Proof. reflexivity. Qed.

(** C7, as amended.  When the response holds the markers 分析：, 大纲： and
    故事： in that order (each at its first occurrence), [analyzeAndPlan]
    returns the trimmed text between 分析： and 大纲： as the analysis, the
    trimmed text between 大纲： and 故事： as the blueprint and the trimmed
    text after 故事： as the first chapter.  Each field falls back on its
    own: the analysis to its placeholder when 分析： or 大纲： is absent, the
    blueprint to its placeholder when 大纲： or 故事： is absent, the first
    chapter to the entire response when 故事： is absent; a field whose
    own markers are present in order is extracted whatever happens to the
    others. *)
Theorem analyzeAndPlan_sections (text : jsstring) :
  (forall pre a b c : jsstring,
      text = pre ++ GeminiService.MARK_ANALYSIS ++ a
             ++ GeminiService.MARK_BLUEPRINT ++ b
             ++ GeminiService.MARK_STORY ++ c ->
      index_of GeminiService.MARK_ANALYSIS text = Some (length pre) ->
      index_of GeminiService.MARK_BLUEPRINT text
      = Some (length (pre ++ GeminiService.MARK_ANALYSIS ++ a)) ->
      index_of GeminiService.MARK_STORY text
      = Some (length (pre ++ GeminiService.MARK_ANALYSIS ++ a
                      ++ GeminiService.MARK_BLUEPRINT ++ b)) ->
      GeminiService.analyzeAndPlan_result (Some text)
      = {| GeminiService.analysis := trim a;
           GeminiService.blueprint := trim b;
           GeminiService.firstChapter := trim c |})
  /\ (index_of GeminiService.MARK_ANALYSIS text = None
      \/ index_of GeminiService.MARK_BLUEPRINT text = None ->
      GeminiService.analysis (GeminiService.analyzeAndPlan_result (Some text))
      = GeminiService.ANALYSIS_PLACEHOLDER)
  /\ (index_of GeminiService.MARK_BLUEPRINT text = None
      \/ index_of GeminiService.MARK_STORY text = None ->
      GeminiService.blueprint (GeminiService.analyzeAndPlan_result (Some text))
      = GeminiService.BLUEPRINT_PLACEHOLDER)
  /\ (index_of GeminiService.MARK_STORY text = None ->
      GeminiService.firstChapter
        (GeminiService.analyzeAndPlan_result (Some text)) = text)
  /\ (forall pre a rest : jsstring,
      text = pre ++ GeminiService.MARK_ANALYSIS ++ a
             ++ GeminiService.MARK_BLUEPRINT ++ rest ->
      index_of GeminiService.MARK_ANALYSIS text = Some (length pre) ->
      index_of GeminiService.MARK_BLUEPRINT
        (a ++ GeminiService.MARK_BLUEPRINT ++ rest) = Some (length a) ->
      GeminiService.analysis (GeminiService.analyzeAndPlan_result (Some text))
      = trim a)
  /\ (forall pre b rest : jsstring,
      text = pre ++ GeminiService.MARK_BLUEPRINT ++ b
             ++ GeminiService.MARK_STORY ++ rest ->
      index_of GeminiService.MARK_BLUEPRINT text = Some (length pre) ->
      index_of GeminiService.MARK_STORY
        (b ++ GeminiService.MARK_STORY ++ rest) = Some (length b) ->
      GeminiService.blueprint (GeminiService.analyzeAndPlan_result (Some text))
      = trim b)
  /\ (forall pre c : jsstring,
      text = pre ++ GeminiService.MARK_STORY ++ c ->
      index_of GeminiService.MARK_STORY text = Some (length pre) ->
      GeminiService.firstChapter
        (GeminiService.analyzeAndPlan_result (Some text)) = trim c).
Proof.
  split; [| split; [| split; [| split; [| split; [| split]]]]].
  - intros pre a b c Htext H1 H2 H3.
    assert (Ha : GeminiService.analysis
                   (GeminiService.analyzeAndPlan_result (Some text))
                 = trim a).
    { apply (analysis_extracted text pre a _ Htext H1).
      apply (index_of_beyond _ (pre ++ GeminiService.MARK_ANALYSIS)).
      rewrite <- length_app, <- !app_assoc. now rewrite <- Htext. }
    assert (Hb : GeminiService.blueprint
                   (GeminiService.analyzeAndPlan_result (Some text))
                 = trim b).
    { apply (blueprint_extracted text
               (pre ++ GeminiService.MARK_ANALYSIS ++ a) b c).
      - now rewrite <- !app_assoc.
      - exact H2.
      - apply (index_of_beyond _
                 (pre ++ GeminiService.MARK_ANALYSIS ++ a
                  ++ GeminiService.MARK_BLUEPRINT)).
        rewrite <- length_app, <- !app_assoc. now rewrite <- Htext. }
    assert (Hc : GeminiService.firstChapter
                   (GeminiService.analyzeAndPlan_result (Some text))
                 = trim c).
    { apply (firstChapter_extracted text
               (pre ++ GeminiService.MARK_ANALYSIS ++ a
                ++ GeminiService.MARK_BLUEPRINT ++ b) c).
      - now rewrite <- !app_assoc.
      - exact H3. }
    destruct (GeminiService.analyzeAndPlan_result (Some text)).
    cbn in Ha, Hb, Hc. now subst.
  - apply analysis_placeholder.
  - apply blueprint_placeholder.
  - apply firstChapter_whole_text.
  - apply analysis_extracted.
  - apply blueprint_extracted.
  - apply firstChapter_extracted.
Qed.

Lemma analyzeAndPlan_sections_witness :
  GeminiService.analyzeAndPlan_result (Some sample_response)
  = {| GeminiService.analysis := trim (lit " 雾 ");
       GeminiService.blueprint := trim (lit " 六章 ");
       GeminiService.firstChapter := trim (lit " 起 ") |}
  /\ GeminiService.firstChapter
       (GeminiService.analyzeAndPlan_result (Some response_without_story))
     = response_without_story
  /\ GeminiService.analysis
       (GeminiService.analyzeAndPlan_result (Some response_without_story))
     = trim (lit "a").
Proof.
  split; [| split].
  - apply (proj1 (analyzeAndPlan_sections sample_response) (lit "前言 "));
      vm_compute; reflexivity.
  - apply (proj1 (proj2 (proj2 (proj2
             (analyzeAndPlan_sections response_without_story)))));
      vm_compute; reflexivity.
  - apply (proj1 (proj2 (proj2 (proj2 (proj2
             (analyzeAndPlan_sections response_without_story)))))
             [] (lit "a") (lit "b"));
      vm_compute; reflexivity.
Defined.

(** C7, the unamended reading fails twice.  A response may lack a marker
    and still have a field extracted: without 故事： the analysis is still
    read from the text (and without 分析： and 大纲： the first chapter is
    still the text after 故事：, not the entire response).  And when a
    marker occurs more than once, not every way of reading the response as
    analysis, blueprint and story is the one returned: the patterns stop at
    the first occurrences. *)
Lemma analyzeAndPlan_fallback_counterexample :
  ~ (forall text : jsstring,
       index_of GeminiService.MARK_ANALYSIS text = None
       \/ index_of GeminiService.MARK_BLUEPRINT text = None
       \/ index_of GeminiService.MARK_STORY text = None ->
       GeminiService.analysis (GeminiService.analyzeAndPlan_result (Some text))
       = GeminiService.ANALYSIS_PLACEHOLDER
       /\ GeminiService.blueprint
            (GeminiService.analyzeAndPlan_result (Some text))
          = GeminiService.BLUEPRINT_PLACEHOLDER
       /\ GeminiService.firstChapter
            (GeminiService.analyzeAndPlan_result (Some text)) = text)
  /\ ~ (forall text pre a b c : jsstring,
         text = pre ++ GeminiService.MARK_ANALYSIS ++ a
                ++ GeminiService.MARK_BLUEPRINT ++ b
                ++ GeminiService.MARK_STORY ++ c ->
         GeminiService.analyzeAndPlan_result (Some text)
         = {| GeminiService.analysis := trim a;
              GeminiService.blueprint := trim b;
              GeminiService.firstChapter := trim c |}).
Proof.
  split; intros H.
  - destruct (H response_without_story) as [Ha _].
    + right. right. vm_compute. reflexivity.
    + vm_compute in Ha. discriminate Ha.
  - specialize (H response_two_stories [] (lit "a") (lit "b故事：c") (lit "d")).
    assert (Htext : response_two_stories
                    = [] ++ GeminiService.MARK_ANALYSIS ++ lit "a"
                      ++ GeminiService.MARK_BLUEPRINT ++ lit "b故事：c"
                      ++ GeminiService.MARK_STORY ++ lit "d")
      by (vm_compute; reflexivity).
    specialize (H Htext). vm_compute in H. discriminate H.
Qed.

Example analyzeAndPlan_story_only :
  GeminiService.analyzeAndPlan_result (Some response_story_only)
  = {| GeminiService.analysis := GeminiService.ANALYSIS_PLACEHOLDER;
       GeminiService.blueprint := GeminiService.BLUEPRINT_PLACEHOLDER;
       GeminiService.firstChapter := lit "c" |}.
Proof. vm_compute. reflexivity. Qed.

(** ** Case analysis on handlers

    [handler_cases] splits on every test a handler makes: its guards, the
    optional values it looks at, and the way a promise settled. *)

Ltac handler_cases :=
  repeat match goal with
         | |- context [if ?b then _ else _] => destruct b
         | |- context [match ?x with Some _ => _ | None => _ end] =>
             destruct x
         | |- context [match ?x with
                       | Ui.Fulfilled _ => _
                       | Ui.Rejected => _
                       end] =>
             destruct x
         end.

Ltac story_untouched := handler_cases; split; reflexivity.

Ltac frame_cases := handler_cases; reflexivity.

Ltac keeps_cases :=
  unfold keeps_generation; handler_cases; repeat split; reflexivity.

(** ** The render after a handler *)

Lemma useEffect_blueprint_state (before after : Ui.App) :
  Ui.state (Ui.useEffect_blueprint before after) = Ui.state after.
Proof. unfold Ui.useEffect_blueprint. now destruct list_eq_dec. Qed.

Lemma useEffect_blueprint_cells (before after : Ui.App) :
  Ui.currentGuidance (Ui.useEffect_blueprint before after)
  = Ui.currentGuidance after
  /\ Ui.isAutoGenerating (Ui.useEffect_blueprint before after)
     = Ui.isAutoGenerating after
  /\ Ui.isPlaying (Ui.useEffect_blueprint before after) = Ui.isPlaying after
  /\ Ui.playingChapterIndex (Ui.useEffect_blueprint before after)
     = Ui.playingChapterIndex after
  /\ Ui.sourceRef (Ui.useEffect_blueprint before after) = Ui.sourceRef after
  /\ Ui.isReadingRef (Ui.useEffect_blueprint before after)
     = Ui.isReadingRef after.
Proof. unfold Ui.useEffect_blueprint. now destruct list_eq_dec. Qed.

Lemma useEffect_blueprint_same (before after : Ui.App) :
  Ui.blueprint (Ui.state before) = Ui.blueprint (Ui.state after) ->
  Ui.useEffect_blueprint before after = after.
Proof.
  intros H. unfold Ui.useEffect_blueprint.
  now destruct list_eq_dec.
Qed.

Lemma story_of_commit (w : Ui.World) (o : Ui.Outcome Ui.App) :
  story_of (Ui.commit w o) = Ui.state (Ui.next o).
Proof. unfold story_of, Ui.commit. cbn. apply useEffect_blueprint_state. Qed.

Lemma stopAudio_spec (a : Ui.App) :
  Ui.stopAudio a
  = (Ui.setPlayingChapterIndex None
       (Ui.setIsPlaying false
          (Ui.set_sourceRef None (Ui.set_isReadingRef false a))),
     stop_current a).
Proof.
  unfold Ui.stopAudio, stop_current. destruct a as [? ? ? ? ? ? ? ? [src |] ? ?];
    reflexivity.
Qed.

(** ** Image upload *)



(** ** Failing remote calls *)

(** C3.  When the remote call a suspended handler of [App] waits for fails
    (image analysis, chapter continuation or speech synthesis), the
    handler ends there: the error slot holds the fixed message of that
    handler, the story text, the blueprint and the chapter counter are as
    they were when the failure arrived, the handler leaves no frame behind
    and issues no further request. *)
Theorem remote_failure_only_sets_error
    (w : Ui.World) (n : nat) (f : Ui.Frame) (msg : jsstring) :
  nth_error (Ui.pending w) n = Some f ->
  failure_message f = Some msg ->
  exists w' fx,
    Ui.step w (Ui.Resume n (Ui.Response Ui.Rejected)) = Some w'
    /\ Ui.error (story_of w') = Some msg
    /\ Ui.paragraph (story_of w') = Ui.paragraph (story_of w)
    /\ Ui.blueprint (story_of w') = Ui.blueprint (story_of w)
    /\ Ui.currentChapter (story_of w') = Ui.currentChapter (story_of w)
    /\ Ui.pending w' = Ui.remove_nth n (Ui.pending w)
    /\ Ui.log w' = Ui.log w ++ fx
    /\ Forall local_effect fx.
Proof.
  intros Hn Hmsg. unfold Ui.step. rewrite Hn.
  destruct f; cbn [failure_message] in Hmsg; try discriminate Hmsg;
    assert (Hm : msg = match Some msg with Some m => m | None => msg end)
      by reflexivity;
    rewrite <- Hmsg in Hm; subst msg; clear Hmsg;
    cbn [Ui.resume]; eexists; eexists;
    (split; [reflexivity |]);
    unfold story_of, Ui.commit, Ui.unplug;
    cbn [Ui.app Ui.pending Ui.log Ui.next Ui.effects Ui.await
         Ui.reader_onload_resume Ui.generateNextPartOfStory_resume
         Ui.read_after_speech Ui.read_catch Ui.done Ui.frames_of];
    rewrite useEffect_blueprint_state, app_nil_r.
  - repeat split; try reflexivity. constructor.
  - repeat split; try reflexivity. constructor.
  - unfold Ui.read_finally.
    destruct (Ui.isReadingRef _); repeat split; try reflexivity;
      repeat constructor.
Qed.

Lemma remote_failure_only_sets_error_witness :
  (exists w' fx,
    Ui.step sample_world (Ui.Resume 1 (Ui.Response Ui.Rejected)) = Some w'
    /\ Ui.error (story_of w') = Some Ui.UPLOAD_ERROR
    /\ Ui.paragraph (story_of w') = Ui.paragraph (story_of sample_world)
    /\ Ui.blueprint (story_of w') = Ui.blueprint (story_of sample_world)
    /\ Ui.currentChapter (story_of w')
       = Ui.currentChapter (story_of sample_world)
    /\ Ui.pending w' = Ui.remove_nth 1 (Ui.pending sample_world)
    /\ Ui.log w' = Ui.log sample_world ++ fx
    /\ Forall local_effect fx)
  /\ (exists w' fx,
    Ui.step sample_world (Ui.Resume 2 (Ui.Response Ui.Rejected)) = Some w'
    /\ Ui.error (story_of w') = Some Ui.GENERATE_ERROR
    /\ Ui.paragraph (story_of w') = Ui.paragraph (story_of sample_world)
    /\ Ui.blueprint (story_of w') = Ui.blueprint (story_of sample_world)
    /\ Ui.currentChapter (story_of w')
       = Ui.currentChapter (story_of sample_world)
    /\ Ui.pending w' = Ui.remove_nth 2 (Ui.pending sample_world)
    /\ Ui.log w' = Ui.log sample_world ++ fx
    /\ Forall local_effect fx)
  /\ (exists w' fx,
    Ui.step sample_world (Ui.Resume 3 (Ui.Response Ui.Rejected)) = Some w'
    /\ Ui.error (story_of w') = Some Ui.READ_ERROR
    /\ Ui.paragraph (story_of w') = Ui.paragraph (story_of sample_world)
    /\ Ui.blueprint (story_of w') = Ui.blueprint (story_of sample_world)
    /\ Ui.currentChapter (story_of w')
       = Ui.currentChapter (story_of sample_world)
    /\ Ui.pending w' = Ui.remove_nth 3 (Ui.pending sample_world)
    /\ Ui.log w' = Ui.log sample_world ++ fx
    /\ Forall local_effect fx).
Proof.
  split; [| split].
  - apply (remote_failure_only_sets_error sample_world 1 Ui.UploadAwaitPlan);
      reflexivity.
  - apply (remote_failure_only_sets_error sample_world 2
             (Ui.GenerateAwaitChapter 3 (lit "Once")));
      reflexivity.
  - apply (remote_failure_only_sets_error sample_world 3
             (Ui.ReadAwaitSpeech [lit "Once"] 0));
      reflexivity.
Defined.

(** ** Lists of frames *)

Lemma forallb_remove_nth {A} (p : A -> bool) (n : nat) (l : list A) :
  forallb p l = true -> forallb p (Ui.remove_nth n l) = true.
Proof.
  revert n. induction l as [| x l IH]; intros n H; [now destruct n |].
  cbn in H. apply andb_true_iff in H as [Hx Hl].
  destruct n as [| n]; cbn; [exact Hl |].
  now rewrite Hx, (IH n Hl).
Qed.

Lemma forallb_nth_error {A} (p : A -> bool) (n : nat) (l : list A) (x : A) :
  forallb p l = true -> nth_error l n = Some x -> p x = true.
Proof.
  intros H Hn. apply (proj1 (forallb_forall p l) H).
  now apply nth_error_In with n.
Qed.

Lemma filter_remove_nth_other {A} (p : A -> bool) (n : nat) (l : list A)
    (x : A) :
  nth_error l n = Some x -> p x = false ->
  filter p (Ui.remove_nth n l) = filter p l.
Proof.
  revert n. induction l as [| y l IH]; intros n Hn Hx;
    [now destruct n |].
  destruct n as [| n]; cbn in Hn |- *.
  - injection Hn as ->. now rewrite Hx.
  - now rewrite (IH n Hn Hx).
Qed.

Lemma filter_remove_nth_hit {A} (p : A -> bool) (n : nat) (l : list A)
    (x : A) :
  nth_error l n = Some x -> p x = true ->
  S (length (filter p (Ui.remove_nth n l))) = length (filter p l).
Proof.
  revert n. induction l as [| y l IH]; intros n Hn Hx;
    [now destruct n |].
  destruct n as [| n]; cbn in Hn |- *.
  - injection Hn as ->. now rewrite Hx.
  - destruct (p y); cbn; now rewrite (IH n Hn Hx).
Qed.

(** ** Chapter generation *)

(** A call that passes the guard suspends with the next chapter number and
    the story text of the moment. *)
Lemma generateNextPartOfStory_starts (a : Ui.App) :
  Ui.isAutoGenerating a = false ->
  truthy (Ui.blueprint (Ui.state a)) = true ->
  Ui.await (Ui.generateNextPartOfStory a)
  = Some (Ui.GenerateAwaitChapter
            (Ui.currentChapter (Ui.state a) + 1)
            (Ui.paragraph (Ui.state a)))
  /\ Ui.isAutoGenerating (Ui.next (Ui.generateNextPartOfStory a)) = true
  /\ Ui.state (Ui.next (Ui.generateNextPartOfStory a)) = Ui.state a.
Proof.
  intros Hidle Hplan. unfold Ui.generateNextPartOfStory.
  rewrite Hidle, Hplan. cbn. repeat split.
Qed.

(** Whatever happened in between, the answer of the model is committed
    against the locals of the call: the counter becomes the counter at the
    time of the call plus one, the text becomes the text at the time of the
    call followed by a blank line and the chapter. *)
Lemma generateNextPartOfStory_commit
    (a : Ui.App) (t : option jsstring) (later : Ui.App) :
  Ui.state
    (Ui.next
       (Ui.generateNextPartOfStory_resume
          (Ui.currentChapter (Ui.state a) + 1) (Ui.paragraph (Ui.state a))
          (Ui.Fulfilled t) later))
  = {| Ui.image := Ui.image (Ui.state later);
       Ui.analysis := Ui.analysis (Ui.state later);
       Ui.paragraph :=
         Ui.paragraph (Ui.state a) ++ [LF; LF]
         ++ GeminiService.writeNextChapter_result t;
       Ui.isLoading := Ui.isLoading (Ui.state later);
       Ui.error := Ui.error (Ui.state later);
       Ui.blueprint := Ui.blueprint (Ui.state later);
       Ui.currentChapter := (Ui.currentChapter (Ui.state a) + 1)%N |}.
Proof. reflexivity. Qed.

(** A generation that runs from call to answer with nothing in between
    appends to the story and advances the counter by one. *)
Lemma generateNextPartOfStory_uninterrupted (a : Ui.App) (t : option jsstring) :
  Ui.isAutoGenerating a = false ->
  truthy (Ui.blueprint (Ui.state a)) = true ->
  exists ch cc,
    Ui.await (Ui.generateNextPartOfStory a)
    = Some (Ui.GenerateAwaitChapter ch cc)
    /\ Ui.paragraph
         (Ui.state
            (Ui.next
               (Ui.generateNextPartOfStory_resume ch cc (Ui.Fulfilled t)
                  (Ui.next (Ui.generateNextPartOfStory a)))))
       = Ui.paragraph (Ui.state a) ++ [LF; LF]
         ++ GeminiService.writeNextChapter_result t
    /\ Ui.currentChapter
         (Ui.state
            (Ui.next
               (Ui.generateNextPartOfStory_resume ch cc (Ui.Fulfilled t)
                  (Ui.next (Ui.generateNextPartOfStory a)))))
       = (Ui.currentChapter (Ui.state a) + 1)%N.
Proof.
  intros Hidle Hplan.
  destruct (generateNextPartOfStory_starts a Hidle Hplan) as (Hk & _ & _).
  eexists; eexists. split; [exact Hk |]. split; reflexivity.
Qed.

(** X23.  Story text and chapter counter change only when a frame of the
    upload or of a chapter generation is resumed: no click, no narration
    and no chat turn touches them. *)
Lemma story_changes_only_by_upload_or_generation
    (w w' : Ui.World) (e : Ui.Event) :
  Ui.step w e = Some w' ->
  (Ui.paragraph (story_of w') = Ui.paragraph (story_of w)
   /\ Ui.currentChapter (story_of w') = Ui.currentChapter (story_of w))
  \/ exists n k f,
       e = Ui.Resume n k /\ nth_error (Ui.pending w) n = Some f
       /\ writes_story f = true.
Proof.
  unfold Ui.step, story_of.
  destruct e as [file | | | ok | | t | | | t | | n k];
    try (intros [= <-]; left; unfold Ui.commit, Ui.commit_chat;
         cbn [Ui.app]; rewrite ?useEffect_blueprint_state).
  - unfold Ui.handleImageUpload. story_untouched.
  - unfold Ui.generateNextPartOfStory. story_untouched.
  - story_untouched.
  - unfold Ui.handleReadFullStory, Ui.read_loop, Ui.read_catch,
      Ui.read_finally.
    rewrite stopAudio_spec. story_untouched.
  - unfold Ui.blueprint_button. story_untouched.
  - story_untouched.
  - story_untouched.
  - story_untouched.
  - story_untouched.
  - story_untouched.
  - destruct (nth_error (Ui.pending w) n) as [f |] eqn:Hf; [| discriminate].
    destruct (writes_story f) eqn:Hw.
    { intros _. right. now exists n, k, f. }
    destruct f; try discriminate Hw; destruct k as [b | r | r | |];
      cbn [Ui.resume]; try discriminate.
    + destruct (Ui.handleSend_resume r (Ui.chat w)) as [[c fx] [resp |]];
        intros [= <-]; left; now split.
    + intros [= <-]. left. unfold Ui.commit. cbn [Ui.app].
      rewrite useEffect_blueprint_state.
      unfold Ui.read_after_speech, Ui.read_catch, Ui.read_finally.
      story_untouched.
    + intros [= <-]. left. unfold Ui.commit. cbn [Ui.app].
      rewrite useEffect_blueprint_state.
      unfold Ui.read_after_decode, Ui.read_catch, Ui.read_finally.
      story_untouched.
    + intros [= <-]. left. unfold Ui.commit. cbn [Ui.app].
      rewrite useEffect_blueprint_state.
      unfold Ui.read_after_ended, Ui.read_loop, Ui.read_finally.
      story_untouched.
    + intros [= <-]. left. unfold Ui.commit. cbn [Ui.app].
      rewrite useEffect_blueprint_state.
      unfold Ui.read_after_pause, Ui.read_loop, Ui.read_finally.
      story_untouched.
Qed.

(** *** Without the stop button

    As long as the stop button is not pressed, the generation flag tells
    the truth, and between uploads the story only grows and the counter
    only advances. *)

Lemma filter_generating_hit (n : nat) (l : list Ui.Frame) (f g : Ui.Frame) :
  nth_error l n = Some f -> generating f = true ->
  filter generating l = [g] ->
  f = g /\ filter generating (Ui.remove_nth n l) = [].
Proof.
  intros Hn Hf Hl.
  pose proof (filter_remove_nth_hit generating n l f Hn Hf) as Hcount.
  rewrite Hl in Hcount. cbn in Hcount.
  assert (Hin : In f (filter generating l))
    by (apply filter_In; split; [now apply nth_error_In with n | exact Hf]).
  rewrite Hl in Hin. destruct Hin as [<- | []].
  split; [reflexivity |].
  destruct (filter generating (Ui.remove_nth n l)); [reflexivity |].
  discriminate Hcount.
Qed.

Lemma filter_generating_miss (n : nat) (l : list Ui.Frame) (f : Ui.Frame) :
  nth_error l n = Some f -> filter generating l = [] ->
  generating f = false.
Proof.
  intros Hn Hl. destruct (generating f) eqn:Hf; [| reflexivity].
  assert (Hin : In f (filter generating l))
    by (apply filter_In; split; [now apply nth_error_In with n | exact Hf]).
  now rewrite Hl in Hin.
Qed.

Lemma commit_keeps (w0 w : Ui.World) (o : Ui.Outcome Ui.App) :
  one_generation w0 ->
  Ui.app w = Ui.app w0 ->
  filter generating (Ui.pending w) = filter generating (Ui.pending w0) ->
  keeps_generation (Ui.app w0) o ->
  one_generation (Ui.commit w o)
  /\ Ui.paragraph (story_of (Ui.commit w o)) = Ui.paragraph (story_of w0)
  /\ Ui.currentChapter (story_of (Ui.commit w o))
     = Ui.currentChapter (story_of w0).
Proof.
  intros Hinv Happ Hpend (Hp & Hc & Hg & Hf).
  unfold one_generation, story_of, Ui.commit in *.
  cbn [Ui.app Ui.pending].
  rewrite useEffect_blueprint_state.
  destruct (useEffect_blueprint_cells (Ui.app w) (Ui.next o))
    as (_ & -> & _).
  rewrite filter_app, Hf, app_nil_r, Hpend, Hinv, Hp, Hc, Hg.
  repeat split.
Qed.

Lemma resume_keeps (f : Ui.Frame) (k : Ui.Wake) (a : Ui.App)
    (o : Ui.Outcome Ui.App) :
  generating f = false -> uploading f = false ->
  Ui.resume f k a = Some o -> keeps_generation a o.
Proof.
  intros Hg Hu.
  destruct f; try discriminate Hg; try discriminate Hu; destruct k;
    cbn [Ui.resume]; try discriminate; intros [= <-];
    unfold Ui.read_after_speech, Ui.read_after_decode, Ui.read_after_ended,
      Ui.read_after_pause, Ui.read_loop, Ui.read_catch, Ui.read_finally;
    keeps_cases.
Qed.

Lemma undisturbed_step (w w' : Ui.World) (e : Ui.Event) :
  one_generation w ->
  undisturbed w e = true ->
  Ui.step w e = Some w' ->
  one_generation w'
  /\ ((Ui.paragraph (story_of w') = Ui.paragraph (story_of w)
       /\ Ui.currentChapter (story_of w') = Ui.currentChapter (story_of w))
      \/ exists part,
           Ui.paragraph (story_of w')
           = Ui.paragraph (story_of w) ++ [LF; LF] ++ part
           /\ Ui.currentChapter (story_of w')
              = (Ui.currentChapter (story_of w) + 1)%N).
Proof.
  intros Hinv Hund.
  assert (Hkeep : forall o,
             keeps_generation (Ui.app w) o ->
             Some (Ui.commit w o) = Some w' ->
             one_generation w'
             /\ ((Ui.paragraph (story_of w') = Ui.paragraph (story_of w)
                  /\ Ui.currentChapter (story_of w')
                     = Ui.currentChapter (story_of w))
                 \/ exists part,
                      Ui.paragraph (story_of w')
                      = Ui.paragraph (story_of w) ++ [LF; LF] ++ part
                      /\ Ui.currentChapter (story_of w')
                         = (Ui.currentChapter (story_of w) + 1)%N)).
  { intros o Ho [= <-].
    destruct (commit_keeps w w o Hinv eq_refl eq_refl Ho) as (H1 & H2 & H3).
    split; [exact H1 | left; now split]. }
  destruct e as [file | | | ok | | t | | | t | | n k];
    try discriminate Hund; cbn [Ui.step].
  - apply Hkeep. unfold Ui.handleImageUpload. keeps_cases.
  - (* the chapter button *)
    unfold Ui.generateNextPartOfStory.
    destruct (Ui.isAutoGenerating (Ui.app w)) eqn:Hbusy; cbn [orb].
    + apply Hkeep. now repeat split.
    + destruct (truthy _); cbn [negb]; [| apply Hkeep; now repeat split].
      intros [= <-]. clear Hkeep.
      split; [| left; rewrite story_of_commit; split; reflexivity].
      unfold one_generation, story_of, Ui.commit in *.
      cbn [Ui.app Ui.pending Ui.next Ui.await Ui.frames_of].
      rewrite useEffect_blueprint_state.
      destruct (useEffect_blueprint_cells (Ui.app w)
                  (Ui.set_stopSignal false
                     (Ui.setIsAutoGenerating true (Ui.app w))))
        as (_ & -> & _).
      rewrite Hbusy in Hinv. rewrite filter_app, Hinv. reflexivity.
  - apply Hkeep. unfold Ui.handleReadFullStory, Ui.read_loop, Ui.read_catch,
      Ui.read_finally. rewrite stopAudio_spec. keeps_cases.
  - apply Hkeep. unfold Ui.blueprint_button. keeps_cases.
  - apply Hkeep. now repeat split.
  - apply Hkeep. now repeat split.
  - apply Hkeep. now repeat split.
  - intros [= <-]. clear Hkeep. split; [| left; split; reflexivity].
    unfold one_generation, story_of, Ui.commit_chat in *.
    cbn [Ui.app Ui.pending Ui.done Ui.await Ui.frames_of].
    now rewrite app_nil_r.
  - intros [= <-]. clear Hkeep. split; [| left; split; reflexivity].
    unfold one_generation, story_of, Ui.commit_chat, Ui.handleSend in *.
    cbn [Ui.app Ui.pending].
    destruct (_ || _); cbn [Ui.done Ui.await Ui.frames_of];
      rewrite filter_app, Hinv; cbn; now rewrite app_nil_r.
  - clear Hkeep. cbn [undisturbed] in Hund.
    destruct (nth_error (Ui.pending w) n) as [f |] eqn:Hf; [| discriminate].
    apply negb_true_iff in Hund.
    destruct (generating f) eqn:Hgen.
    + (* the answer to the chapter request *)
      destruct f; try discriminate Hgen.
      destruct k as [b | r | r | |]; cbn [Ui.resume]; try discriminate.
      intros [= <-].
      unfold one_generation in Hinv.
      destruct (Ui.isAutoGenerating (Ui.app w)) eqn:Hbusy.
      * destruct (filter_generating_hit n _ _ _ Hf Hgen Hinv)
          as [[= -> ->] Hrest].
        unfold one_generation, story_of, Ui.commit, Ui.unplug in *.
        cbn [Ui.app Ui.pending].
        rewrite useEffect_blueprint_state.
        destruct (useEffect_blueprint_cells (Ui.app w)
                    (Ui.next
                       (Ui.generateNextPartOfStory_resume
                          (Ui.currentChapter (Ui.state (Ui.app w)) + 1)
                          (Ui.paragraph (Ui.state (Ui.app w))) r (Ui.app w))))
          as (_ & -> & _).
        rewrite filter_app, Hrest.
        destruct r as [t |]; cbn.
        -- split; [reflexivity |]. right. now eexists.
        -- split; [reflexivity |]. left. now split.
      * now rewrite (filter_generating_miss n _ _ Hf Hinv) in Hgen.
    + destruct f; try discriminate Hgen; try discriminate Hund;
        try (destruct (Ui.resume _ k (Ui.app w)) as [o |] eqn:Hr;
             [| discriminate]; intros [= <-];
             destruct (commit_keeps w (Ui.unplug n w) o Hinv eq_refl
                         (filter_remove_nth_other generating n _ _ Hf Hgen)
                         (resume_keeps _ k _ o Hgen Hund Hr))
               as (H1 & H2 & H3);
             split; [exact H1 | left; now split]).
      destruct k as [b | r | r | |]; try discriminate.
      destruct (Ui.handleSend_resume r (Ui.chat w)) as [[c fx] reply].
      intros [= <-]. split; [| left; destruct reply; split; reflexivity].
      unfold one_generation, story_of in *. cbn [Ui.app Ui.pending].
      rewrite (filter_remove_nth_other generating n _ _ Hf Hgen), Hinv.
      now destruct reply.
Qed.

(** X22.  Between uploads, and as long as the stop button is not pressed,
    the generation flag stands for exactly the one request in flight, the
    story text only grows at its end and the chapter counter never goes
    down. *)
Lemma undisturbed_story_grows (es : list Ui.Event) (w w' : Ui.World) :
  one_generation w ->
  run_undisturbed w es = Some w' ->
  one_generation w'
  /\ (exists more,
        Ui.paragraph (story_of w') = Ui.paragraph (story_of w) ++ more)
  /\ (Ui.currentChapter (story_of w) <= Ui.currentChapter (story_of w'))%N.
Proof.
  revert w. induction es as [| e es IH]; intros w Hinv Hrun.
  - injection Hrun as <-. split; [exact Hinv |]. split; [| lia].
    exists []. now rewrite app_nil_r.
  - cbn [run_undisturbed] in Hrun.
    destruct (undisturbed w e) eqn:Hund; [| discriminate].
    destruct (Ui.step w e) as [w1 |] eqn:Hstep; [| discriminate].
    destruct (undisturbed_step w w1 e Hinv Hund Hstep) as [Hinv1 Hstory].
    destruct (IH w1 Hinv1 Hrun) as (Hinv' & [more Hmore] & Hle).
    split; [exact Hinv' |].
    destruct Hstory as [[Hp Hc] | (part & Hp & Hc)].
    + rewrite Hp in Hmore. rewrite Hc in Hle.
      split; [now exists more | exact Hle].
    + rewrite Hp in Hmore. rewrite Hc in Hle. split; [| lia].
      exists ([LF; LF] ++ part ++ more).
      rewrite Hmore. now rewrite <- !app_assoc.
Qed.

(** C2, at a failing input.  The stop button clears the generation flag
    without cancelling the request in flight, so a second request can start
    from the same story text.  When the younger request is answered first
    and the older one afterwards, the older answer is committed against the
    text it started from: the chapter committed in between is replaced, and
    the text before is no prefix of the text after, with no image upload
    in between.  Every user event of the run goes through a control the
    page offers at that moment. *)
Theorem stale_generation_rewrites_story :
  exists w1 w2,
    Ui.run_page Ui.initialWorld younger_answered = Some w1
    /\ Ui.step w1 older_answer = Some w2
    /\ Ui.paragraph (story_of w1) = lit "起" ++ [LF; LF] ++ lit "第 2 章：乙"
    /\ Ui.paragraph (story_of w2) = lit "起" ++ [LF; LF] ++ lit "第 2 章：甲"
    /\ Ui.image (story_of w2) = Ui.image (story_of w1)
    /\ ~ (exists more,
            Ui.paragraph (story_of w2) = Ui.paragraph (story_of w1) ++ more).
Proof.
  eexists. eexists.
  split; [vm_compute; reflexivity |].
  split; [vm_compute; reflexivity |].
  split; [vm_compute; reflexivity |].
  split; [vm_compute; reflexivity |].
  split; [vm_compute; reflexivity |].
  intros [more H]. vm_compute in H. discriminate H.
Qed.

(** C1, at a failing input.  In the same session a third chapter is
    written after the younger answer, which brings the counter to 3; the
    answer to the older request then sets the counter to the value computed
    when that request was made, 2, with no image upload in between. *)
Theorem stale_generation_lowers_counter :
  exists w1 w2,
    Ui.run_page Ui.initialWorld third_chapter_written = Some w1
    /\ Ui.step w1 older_answer = Some w2
    /\ Ui.currentChapter (story_of w1) = 3%N
    /\ Ui.currentChapter (story_of w2) = 2%N
    /\ Ui.image (story_of w2) = Ui.image (story_of w1).
Proof.
  eexists. eexists.
  split; [vm_compute; reflexivity |].
  split; [vm_compute; reflexivity |].
  split; [vm_compute; reflexivity |].
  split; vm_compute; reflexivity.
Qed.

(** ** Narration: the split into chapters *)

Lemma separator_here_spec (s t : jsstring) :
  Ui.separator_here s = Some t <-> s = LF :: LF :: t /\ heading t = true.
Proof.
  unfold Ui.separator_here, heading.
  destruct s as [| a [| b rest]]; try (split; [discriminate | now intros [? _]]).
  destruct (N.eqb_spec a LF) as [-> | Ha]; cbn [andb].
  - destruct (N.eqb_spec b LF) as [-> | Hb]; cbn [andb].
    + destruct rest as [| c r]; [split; [discriminate | now intros [[= <-] ?]] |].
      destruct ((c =? Ui.DI)%N && dots_then Ui.ZHANG r) eqn:Hh; split.
      * intros [= <-]. now split.
      * now intros [[= <-] _].
      * discriminate.
      * intros [[= <-] H]. now rewrite Hh in H.
    + split; [discriminate | intros [[= ->] _]; now elim Hb].
  - split; [discriminate | intros [[= ->] _]; now elim Ha].
Qed.

Lemma split_chapters_cons (a : code_unit) (s1 : jsstring) :
  Ui.split_chapters (a :: s1)
  = match Ui.separator_here (a :: s1) with
    | Some t => [] :: Ui.split_chapters t
    | None =>
      match Ui.split_chapters s1 with
      | piece :: rest => (a :: piece) :: rest
      | [] => [[a]]
      end
    end.
Proof.
  destruct s1 as [| b s2]; [reflexivity |].
  cbn [Ui.split_chapters].
  destruct (Ui.separator_here (a :: b :: s2)) as [t |] eqn:Hsep;
    [| reflexivity].
  apply separator_here_spec in Hsep as [[= _ _ <-] _]. reflexivity.
Qed.

Lemma split_chapters_not_nil (s : jsstring) : Ui.split_chapters s <> [].
Proof.
  destruct s as [| a s1]; [discriminate |].
  rewrite split_chapters_cons.
  destruct (Ui.separator_here _); [discriminate |].
  destruct (Ui.split_chapters s1); discriminate.
Qed.

Lemma join_chapters_extend (a : code_unit) (p : jsstring)
    (rest : list jsstring) :
  join_chapters ((a :: p) :: rest) = a :: join_chapters (p :: rest).
Proof. now destruct rest. Qed.




(** Every match of the separator pattern is a cut. *)
Lemma split_chapters_count (s : jsstring) :
  length (Ui.split_chapters s) = S (count_separators s).
Proof.
  assert (H : forall n s, length s <= n ->
                length (Ui.split_chapters s) = S (count_separators s)).
  { clear s. induction n as [| n IH]; intros s Hlen.
    - destruct s; [reflexivity | cbn in Hlen; lia].
    - destruct s as [| a s1]; [reflexivity |].
      cbn [length] in Hlen. rewrite split_chapters_cons.
      cbn [count_separators].
      destruct (Ui.separator_here (a :: s1)) as [t |] eqn:Hsep.
      + apply separator_here_spec in Hsep as [[= -> ->] Hhead].
        destruct t as [| c r]; [discriminate Hhead |].
        cbn [heading] in Hhead. apply andb_true_iff in Hhead as [Hc _].
        apply N.eqb_eq in Hc. subst c.
        cbn [length count_separators].
        rewrite (IH (Ui.DI :: r)) by (cbn in Hlen |- *; lia).
        reflexivity.
      + pose proof (split_chapters_not_nil s1) as Hne.
        cbn [Nat.add]. rewrite <- (IH s1) by lia.
        destruct (Ui.split_chapters s1); [now elim Hne | reflexivity]. }
  exact (H (length s) s (le_n _)).
Qed.

Example three_chapters_split :
  Ui.split_chapters three_chapters
  = [lit "起"; lit "第 2 章：乙"; lit "第 3 章：丙"]
  /\ Ui.paragraph (story_of (world_after three_chapters_written))
     = three_chapters.
Proof. split; vm_compute; reflexivity. Qed.

(** A blank line that no heading follows on the same line is no cut. *)
Example blank_line_without_heading :
  Ui.split_chapters (lit "起" ++ [LF; LF] ++ lit "第" ++ [LF] ++ lit "章")
  = [lit "起" ++ [LF; LF] ++ lit "第" ++ [LF] ++ lit "章"].
Proof. vm_compute. reflexivity. Qed.

(** ** Narration: order and voices *)



Section NarrationLoop.

Variable audio : nat -> option jsstring.
Variable chapters : list jsstring.







End NarrationLoop.



(** *** The narration inside the event loop *)









(** ** Narration: every request is short

    Whatever the session, no speech-synthesis request ever carries more
    than 1500 code units. *)

Lemma read_loop_short (chs : list jsstring) (i : nat) (a : Ui.App) :
  forallb short_speech (Ui.effects (Ui.read_loop chs i a)) = true.
Proof.
  unfold Ui.read_loop.
  destruct (nth_error chs i) as [ch |]; [| reflexivity].
  destruct (negb (Ui.isReadingRef a)); [reflexivity |].
  cbn [Ui.effects forallb short_speech].
  change 1500%Z with (Z.of_nat 1500). rewrite slice_prefix, length_firstn.
  rewrite andb_true_r. apply Nat.leb_le. lia.
Qed.

Lemma resume_short (f : Ui.Frame) (k : Ui.Wake) (a : Ui.App)
    (o : Ui.Outcome Ui.App) :
  Ui.resume f k a = Some o ->
  forallb short_speech (Ui.effects o) = true.
Proof.
  destruct f, k; cbn [Ui.resume]; try discriminate; intros [= <-].
  - unfold Ui.reader_onload. rewrite stopAudio_spec. unfold stop_current.
    cbn [Ui.sourceRef Ui.setCurrentGuidance Ui.setState Ui.effects].
    now destruct (Ui.sourceRef a).
  - unfold Ui.reader_onload_resume. now destruct r.
  - reflexivity.
  - unfold Ui.read_after_speech, Ui.read_catch. destruct r; [| reflexivity].
    now destruct (negb _).
  - unfold Ui.read_after_decode, Ui.read_catch. now destruct r.
  - unfold Ui.read_after_ended. destruct (_ && _); [reflexivity |].
    apply read_loop_short.
  - apply read_loop_short.
Qed.

Lemma step_short (w w' : Ui.World) (e : Ui.Event) :
  Ui.step w e = Some w' ->
  exists fx, Ui.log w' = Ui.log w ++ fx /\ forallb short_speech fx = true.
Proof.
  destruct e as [file | | | ok | | t | | | t | | n k]; cbn [Ui.step];
    try (intros [= <-]; unfold Ui.commit, Ui.commit_chat; cbn [Ui.log];
         eexists; split; [reflexivity |]).
  - unfold Ui.handleImageUpload. now destruct file.
  - unfold Ui.generateNextPartOfStory. now destruct (_ || _).
  - reflexivity.
  - unfold Ui.handleReadFullStory. rewrite stopAudio_spec.
    unfold stop_current.
    destruct (Ui.isPlaying _);
      [cbn [Ui.effects]; now destruct (Ui.sourceRef _) |].
    destruct (negb _); [reflexivity |].
    destruct (Ui.audioContextRef _); [apply read_loop_short |].
    destruct ok; [apply read_loop_short | reflexivity].
  - reflexivity.
  - reflexivity.
  - reflexivity.
  - reflexivity.
  - reflexivity.
  - unfold Ui.handleSend. now destruct (_ || _).
  - destruct (nth_error (Ui.pending w) n) as [f |]; [| discriminate].
    destruct f;
      try (destruct (Ui.resume _ k (Ui.app w)) as [o |] eqn:Hr;
           [| discriminate]; intros [= <-]; exists (Ui.effects o);
           split; [reflexivity | exact (resume_short _ _ _ _ Hr)]).
    destruct k as [b | r | r | |]; try discriminate.
    destruct r; cbn; intros [= <-]; eexists; split; reflexivity.
Qed.

(** In every session, all speech-synthesis requests issued so far are
    short. *)
Lemma every_speech_request_short (es : list Ui.Event) (w : Ui.World) :
  Ui.run Ui.initialWorld es = Some w ->
  forallb short_speech (Ui.log w) = true.
Proof.
  assert (H : forall es w0 w,
             forallb short_speech (Ui.log w0) = true ->
             Ui.run w0 es = Some w ->
             forallb short_speech (Ui.log w) = true).
  { clear es w. induction es as [| e es IH]; intros w0 w Hlog Hrun.
    - now injection Hrun as <-.
    - cbn [Ui.run] in Hrun.
      destruct (Ui.step w0 e) as [w1 |] eqn:Hstep; [| discriminate].
      destruct (step_short w0 w1 e Hstep) as (fx & Hfx & Hshort).
      apply (IH w1 w); [| exact Hrun].
      now rewrite Hfx, forallb_app, Hlog, Hshort. }
  intros Hrun. exact (H es Ui.initialWorld w eq_refl Hrun).
Qed.

(** ** Narration: cancellation *)

(** C6, the unamended reading fails.  The reading flag is shared by all
    narration loops.  A narration is started and stopped while its first
    synthesis request is in flight; the narration button is pressed again,
    which sets the flag for the new loop; when the synthesis of the stopped
    loop returns, that loop finds the flag set and goes on to decode and
    play. *)
Lemma restarted_narration_counterexample : ~ stop_is_final.
Proof.
  intros H.
  destruct (H narration_started [Ui.ClickRead true]
              (world_after narration_started)
              (world_after (narration_started ++ [Ui.ClickRead true]))
              (world_after (narration_started
                            ++ [Ui.ClickRead true; Ui.ClickRead true]))
              true [lit "起"] 0 (Ui.Fulfilled (Some (lit "UklG")))
              {| Ui.next :=
                   Ui.app (world_after
                             (narration_started
                              ++ [Ui.ClickRead true; Ui.ClickRead true]));
                 Ui.effects := [];
                 Ui.await :=
                   Some (Ui.ReadAwaitDecode [lit "起"] 0 (lit "UklG")) |})
    as [Hend _].
  - vm_compute. reflexivity.
  - vm_compute. reflexivity.
  - vm_compute. reflexivity.
  - vm_compute. left. reflexivity.
  - vm_compute. reflexivity.
  - vm_compute. left. reflexivity.
  - vm_compute. reflexivity.
  - discriminate Hend.
Qed.

Lemma stopAudio_calm (a : Ui.App) :
  Ui.isReadingRef (fst (Ui.stopAudio a)) = false
  /\ forallb silent (snd (Ui.stopAudio a)) = true.
Proof.
  rewrite stopAudio_spec. unfold stop_current.
  destruct (Ui.sourceRef a); now split.
Qed.

(** With the flag cleared, resuming any frame but a decoding one keeps the
    narration off. *)
Lemma resume_calm (f : Ui.Frame) (k : Ui.Wake) (a : Ui.App)
    (o : Ui.Outcome Ui.App) :
  Ui.isReadingRef a = false ->
  decoding f = false ->
  Ui.resume f k a = Some o ->
  calm o.
Proof.
  intros Hflag Hdec.
  destruct f; try discriminate Hdec; destruct k; cbn [Ui.resume];
    try discriminate; intros [= <-]; unfold calm.
  - unfold Ui.reader_onload. rewrite stopAudio_spec. unfold stop_current.
    cbn [Ui.sourceRef Ui.setCurrentGuidance Ui.setState].
    destruct (Ui.sourceRef a); repeat split.
  - unfold Ui.reader_onload_resume. destruct r; now repeat split.
  - unfold Ui.generateNextPartOfStory_resume. destruct r; now repeat split.
  - unfold Ui.read_after_speech, Ui.read_catch, Ui.read_finally.
    destruct r; cbn [Ui.isReadingRef Ui.setState]; rewrite Hflag;
      now repeat split.
  - unfold Ui.read_after_ended, Ui.read_loop, Ui.read_finally.
    rewrite Hflag, andb_false_r. cbn [negb].
    destruct (nth_error chapters (S i)); cbn; rewrite Hflag; now repeat split.
  - unfold Ui.read_after_pause, Ui.read_loop, Ui.read_finally.
    rewrite Hflag. cbn [negb].
    destruct (nth_error chapters (S i)); cbn; rewrite Hflag; now repeat split.
Qed.

Lemma commit_quiet (w : Ui.World) (o : Ui.Outcome Ui.App) :
  forallb not_decoding (Ui.pending w) = true ->
  calm o ->
  quiet (Ui.commit w o)
  /\ exists fx,
       Ui.log (Ui.commit w o) = Ui.log w ++ fx /\ forallb silent fx = true.
Proof.
  intros Hp (Hflag & Hfx & Hfr). unfold quiet, Ui.commit.
  cbn [Ui.app Ui.pending Ui.log].
  destruct (useEffect_blueprint_cells (Ui.app w) (Ui.next o))
    as (_ & _ & _ & _ & _ & ->).
  rewrite forallb_app, Hp, Hfr. repeat split; [exact Hflag |].
  now exists (Ui.effects o).
Qed.

(** With narration off, any event but a press of the narration button
    leaves it off, and adds only silent effects. *)
Lemma quiet_step (w w' : Ui.World) (e : Ui.Event) :
  quiet w ->
  narration_button e = false ->
  Ui.step w e = Some w' ->
  quiet w'
  /\ exists fx, Ui.log w' = Ui.log w ++ fx /\ forallb silent fx = true.
Proof.
  intros [Hflag Hp] He.
  destruct e as [file | | | ok | | t | | | t | | n k];
    try discriminate He; cbn [Ui.step].
  - intros [= <-]. apply commit_quiet; [exact Hp |].
    unfold calm, Ui.handleImageUpload. destruct file; now repeat split.
  - intros [= <-]. apply commit_quiet; [exact Hp |].
    unfold calm, Ui.generateNextPartOfStory.
    destruct (_ || _); now repeat split.
  - intros [= <-]. apply commit_quiet; [exact Hp |]. now repeat split.
  - intros [= <-]. apply commit_quiet; [exact Hp |].
    unfold calm, Ui.blueprint_button.
    destruct (Ui.isEditingBlueprint _); now repeat split.
  - intros [= <-]. apply commit_quiet; [exact Hp |]. now repeat split.
  - intros [= <-]. apply commit_quiet; [exact Hp |]. now repeat split.
  - intros [= <-]. apply commit_quiet; [exact Hp |]. now repeat split.
  - intros [= <-]. unfold quiet, Ui.commit_chat.
    cbn [Ui.app Ui.pending Ui.log Ui.done Ui.await Ui.effects Ui.frames_of].
    rewrite !app_nil_r. repeat split; try assumption.
    exists []. now rewrite app_nil_r.
  - intros [= <-]. unfold quiet, Ui.commit_chat, Ui.handleSend.
    cbn [Ui.app Ui.pending Ui.log].
    destruct (_ || _);
      cbn [Ui.done Ui.await Ui.effects Ui.frames_of];
      rewrite forallb_app, Hp; repeat split; try assumption;
      eexists; split; reflexivity.
  - destruct (nth_error (Ui.pending w) n) as [f |] eqn:Hf; [| discriminate].
    pose proof (forallb_nth_error _ _ _ _ Hp Hf) as Hdec.
    apply negb_true_iff in Hdec.
    assert (Hrest : forallb not_decoding (Ui.remove_nth n (Ui.pending w))
                    = true) by now apply forallb_remove_nth.
    destruct f; try discriminate Hdec;
      try (destruct (Ui.resume _ k (Ui.app w)) as [o |] eqn:Hr;
           [| discriminate]; intros [= <-];
           exact (commit_quiet (Ui.unplug n w) o Hrest
                    (resume_calm _ k (Ui.app w) o Hflag Hdec Hr))).
    destruct k as [b | r | r | |]; try discriminate.
    destruct (Ui.handleSend_resume r (Ui.chat w)) as [[c fx] reply] eqn:Hs.
    intros [= <-]. unfold quiet. cbn [Ui.app Ui.pending Ui.log].
    split.
    + split; [| exact Hrest]. now destruct reply.
    + exists fx. split; [reflexivity |].
      unfold Ui.handleSend_resume in Hs.
      destruct r; injection Hs as <- <- <-; reflexivity.
Qed.

(** The same on a story of two chapters, with the effects written out:
    after the restart the stopped loop plays the chapter it had asked for
    and requests the next one, next to the request of the new loop. *)
Example restarted_narration_trace :
  Ui.isReadingRef (Ui.app (world_after two_chapters_stopped)) = false
  /\ Ui.pending (world_after two_chapters_stopped)
     = [Ui.ReadAwaitSpeech [lit "起"; lit "第 2 章：乙"] 0]
  /\ Ui.log (world_after (two_chapters_stopped ++ stopped_loop_carries_on))
     = Ui.log (world_after two_chapters_stopped)
       ++ [Ui.CallGenerateSpeech (lit "起") (lit "Kore");
           Ui.SourceStart
             {| Ui.src_chapter := 0; Ui.src_audio := lit "UklG" |};
           Ui.SetTimeout 800;
           Ui.CallGenerateSpeech (lit "第 2 章：乙") (lit "Puck")]
  /\ Ui.pending (world_after (two_chapters_stopped ++ stopped_loop_carries_on))
     = [Ui.ReadAwaitSpeech [lit "起"; lit "第 2 章：乙"] 0;
        Ui.ReadAwaitSpeech [lit "起"; lit "第 2 章：乙"] 1].
Proof. split; [| split; [| split]]; vm_compute; reflexivity. Qed.

(** Between the answer of the synthesis and the start of the playback the
    flag is not looked at: a loop resumed after decoding starts its
    playback whatever the flag says. *)
Example decode_window (chs : list jsstring) (i : nat) (audio : jsstring)
    (a : Ui.App) :
  Ui.effects (Ui.read_after_decode chs i audio (Ui.Fulfilled tt) a)
  = [Ui.SourceStart {| Ui.src_chapter := i; Ui.src_audio := audio |}].
Proof. reflexivity. Qed.

Lemma quiet_run (es : list Ui.Event) (w w' : Ui.World) :
  quiet w ->
  forallb (fun e => negb (narration_button e)) es = true ->
  Ui.run w es = Some w' ->
  quiet w'
  /\ exists fx, Ui.log w' = Ui.log w ++ fx /\ forallb silent fx = true.
Proof.
  revert w. induction es as [| e es IH]; intros w Hq Hes Hrun.
  - injection Hrun as <-. split; [exact Hq |].
    exists []. now rewrite app_nil_r.
  - cbn in Hes. apply andb_true_iff in Hes as [He Hes].
    apply negb_true_iff in He.
    cbn [Ui.run] in Hrun.
    destruct (Ui.step w e) as [w1 |] eqn:Hstep; [| discriminate].
    destruct (quiet_step w w1 e Hq He Hstep) as (Hq1 & fx1 & Hlog1 & Hfx1).
    destruct (IH w1 Hq1 Hes Hrun) as (Hq' & fx & Hlog & Hfx).
    split; [exact Hq' |].
    exists (fx1 ++ fx). rewrite Hlog, Hlog1, <- app_assoc.
    split; [reflexivity |]. now rewrite forallb_app, Hfx1, Hfx.
Qed.

(** The two tests of the flag inside the loop. *)
Lemma read_loop_cancelled (chs : list jsstring) (i : nat) (a : Ui.App) :
  Ui.isReadingRef a = false -> Ui.read_loop chs i a = Ui.done a.
Proof.
  intros Hflag. unfold Ui.read_loop, Ui.read_finally. rewrite Hflag.
  now destruct (nth_error chs i).
Qed.

Lemma read_after_speech_cancelled
    (chs : list jsstring) (i : nat) (data : option jsstring) (a : Ui.App) :
  Ui.isReadingRef a = false ->
  Ui.read_after_speech chs i (Ui.Fulfilled data) a = Ui.done a.
Proof.
  intros Hflag. unfold Ui.read_after_speech, Ui.read_finally.
  now rewrite Hflag.
Qed.

(** C6, as amended.  Cancellation of narration is one boolean flag.  When
    the narration button stops a narration while no loop sits between a
    synthesis answer and the start of its playback, the flag is cleared,
    and for as long as the narration button is not pressed again the flag
    stays cleared, no speech-synthesis request is issued and no playback
    is started, whatever other events and answers arrive: the flag is
    tested at the head of each iteration and again when a synthesis call
    returns, and in both places a cleared flag ends the loop. *)
Theorem stopped_narration_stays_silent
    (w0 w w' : Ui.World) (ok : bool) (es : list Ui.Event) :
  Ui.isPlaying (Ui.app w0) = true ->
  forallb not_decoding (Ui.pending w0) = true ->
  Ui.step w0 (Ui.ClickRead ok) = Some w ->
  forallb (fun e => negb (narration_button e)) es = true ->
  Ui.run w es = Some w' ->
  Ui.isReadingRef (Ui.app w) = false
  /\ Ui.isReadingRef (Ui.app w') = false
  /\ (exists fx, Ui.log w' = Ui.log w0 ++ fx /\ forallb silent fx = true)
  /\ (forall chs i a,
         Ui.isReadingRef a = false -> Ui.read_loop chs i a = Ui.done a)
  /\ (forall chs i data a,
         Ui.isReadingRef a = false ->
         Ui.read_after_speech chs i (Ui.Fulfilled data) a = Ui.done a).
Proof.
  intros Hplay Hp Hstop Hes Hrun.
  cbn [Ui.step] in Hstop. injection Hstop as <-.
  assert (Hcalm : calm (Ui.handleReadFullStory ok (Ui.app w0))).
  { unfold calm, Ui.handleReadFullStory. rewrite Hplay.
    destruct (stopAudio_calm (Ui.app w0)) as [Hflag Hfx].
    destruct (Ui.stopAudio (Ui.app w0)) as [a1 fx]. now repeat split. }
  destruct (commit_quiet w0 _ Hp Hcalm) as (Hq & fx0 & Hlog0 & Hfx0).
  destruct (quiet_run es _ w' Hq Hes Hrun) as ([Hflag' _] & fx & Hlog & Hfx).
  split; [exact (proj1 Hq) |]. split; [exact Hflag' |].
  split; [| split; [exact read_loop_cancelled
                   | exact read_after_speech_cancelled]].
  exists (fx0 ++ fx). rewrite Hlog, Hlog0, <- app_assoc.
  split; [reflexivity |]. now rewrite forallb_app, Hfx0, Hfx.
Qed.

Lemma stopped_narration_stays_silent_witness :
  Ui.isReadingRef
    (Ui.app (world_after (narration_started ++ Ui.ClickRead true
                          :: after_the_stop))) = false
  /\ exists fx,
       Ui.log (world_after (narration_started ++ Ui.ClickRead true
                            :: after_the_stop))
       = Ui.log (world_after narration_started) ++ fx
       /\ forallb silent fx = true.
Proof.
  assert (H1 : Ui.isPlaying (Ui.app (world_after narration_started)) = true)
    by (vm_compute; reflexivity).
  assert (H2 : forallb not_decoding
                 (Ui.pending (world_after narration_started)) = true)
    by (vm_compute; reflexivity).
  assert (H3 : Ui.step (world_after narration_started) (Ui.ClickRead true)
               = Some (world_after (narration_started ++ [Ui.ClickRead true])))
    by (vm_compute; reflexivity).
  assert (H4 : forallb (fun e => negb (narration_button e)) after_the_stop
               = true)
    by (vm_compute; reflexivity).
  assert (H5 : Ui.run (world_after (narration_started ++ [Ui.ClickRead true]))
                 after_the_stop
               = Some (world_after (narration_started ++ Ui.ClickRead true
                                    :: after_the_stop)))
    by (vm_compute; reflexivity).
  destruct (stopped_narration_stays_silent _ _ _ true _ H1 H2 H3 H4 H5)
    as (_ & Hflag & Hlog & _).
  split; [exact Hflag | exact Hlog].
Defined.

(** ** The assistant chat *)

Lemma trimStart_all_white (s : jsstring) :
  forallb is_white_space s = true -> trimStart s = [].
Proof.
  induction s as [| c s IH]; [reflexivity |].
  cbn [forallb trimStart]. intros H.
  apply andb_true_iff in H as [Hc Hs]. rewrite Hc. now apply IH.
Qed.

Lemma trim_all_white (s : jsstring) :
  forallb is_white_space s = true -> trim s = [].
Proof.
  intros H. unfold trim. now rewrite (trimStart_all_white s H).
Qed.

Lemma handleSend_blocked (imageBase64 : option jsstring) (c : Ui.Chat) :
  forallb is_white_space (Ui.input c) = true \/ Ui.isTyping c = true ->
  Ui.handleSend imageBase64 c = Ui.done c.
Proof.
  intros [Hws | Hbusy]; unfold Ui.handleSend.
  - now rewrite (trim_all_white _ Hws).
  - rewrite Hbusy. now rewrite orb_true_r.
Qed.

Lemma handleSend_appends (imageBase64 : option jsstring) (c : Ui.Chat) :
  truthy (trim (Ui.input c)) = true ->
  Ui.isTyping c = false ->
  Ui.messages (Ui.next (Ui.handleSend imageBase64 c))
  = Ui.messages c ++ [{| Ui.role := GeminiService.user; Ui.content := Ui.input c |}]
  /\ Ui.isTyping (Ui.next (Ui.handleSend imageBase64 c)) = true
  /\ Ui.await (Ui.handleSend imageBase64 c) = Some Ui.SendAwaitReply.
Proof.
  intros Htext Hidle. unfold Ui.handleSend. rewrite Htext, Hidle.
  repeat split.
Qed.

(** Every turn of the event loop leaves the messages it found in place and
    appends at most one. *)
Lemma step_messages (w w' : Ui.World) (e : Ui.Event) :
  Ui.step w e = Some w' ->
  exists more,
    Ui.messages (Ui.chat w') = Ui.messages (Ui.chat w) ++ more
    /\ length more <= 1.
Proof.
  destruct e as [file | | | ok | | t | | | t | | n k]; cbn [Ui.step];
    try (intros [= <-]; exists []; cbn; rewrite app_nil_r; split;
         [reflexivity | lia]).
  - intros [= <-]. unfold Ui.commit_chat, Ui.handleSend. cbn [Ui.chat].
    destruct (_ || _); cbn [Ui.next Ui.done].
    + exists []. rewrite app_nil_r. split; [reflexivity | cbn; lia].
    + eexists. split; [reflexivity | cbn; lia].
  - destruct (nth_error (Ui.pending w) n) as [f |]; [| discriminate].
    destruct f;
      try (destruct (Ui.resume _ k (Ui.app w)); [| discriminate];
           intros [= <-]; exists []; cbn; rewrite app_nil_r; split;
           [reflexivity | lia]).
    destruct k as [b | r | r | |]; try discriminate.
    destruct r; cbn; intros [= <-]; cbn; eexists;
      (split; [reflexivity | cbn; lia]).
Qed.

(** No handler of [App] suspends on a chat reply. *)
Lemma resume_no_reply (f : Ui.Frame) (k : Ui.Wake) (a : Ui.App)
    (o : Ui.Outcome Ui.App) :
  Ui.resume f k a = Some o ->
  filter awaiting_reply (Ui.frames_of (Ui.await o)) = [].
Proof.
  destruct f, k; cbn [Ui.resume]; try discriminate; intros [= <-];
    unfold Ui.reader_onload, Ui.reader_onload_resume,
      Ui.generateNextPartOfStory_resume, Ui.read_after_speech,
      Ui.read_after_decode, Ui.read_after_ended, Ui.read_after_pause,
      Ui.read_loop, Ui.read_catch;
    rewrite ?stopAudio_spec; frame_cases.
Qed.

Lemma commit_replies (w : Ui.World) (o : Ui.Outcome Ui.App) :
  filter awaiting_reply (Ui.frames_of (Ui.await o)) = [] ->
  replies_pending (Ui.commit w o) = replies_pending w.
Proof.
  intros H. unfold replies_pending, Ui.commit. cbn [Ui.pending].
  now rewrite filter_app, H, app_nil_r.
Qed.

(** While the chat shows its typing indicator exactly one reply is
    pending, and none otherwise. *)
Lemma one_reply_step (w w' : Ui.World) (e : Ui.Event) :
  Ui.step w e = Some w' ->
  replies_pending w = (if Ui.isTyping (Ui.chat w) then 1 else 0) ->
  replies_pending w' = (if Ui.isTyping (Ui.chat w') then 1 else 0).
Proof.
  intros Hstep Hinv.
  destruct e as [file | | | ok | | t | | | t | | n k]; cbn [Ui.step] in Hstep;
    try (injection Hstep as <-; rewrite commit_replies;
         [exact Hinv
         | unfold Ui.handleImageUpload, Ui.generateNextPartOfStory,
             Ui.handleReadFullStory, Ui.read_loop, Ui.read_catch,
             Ui.copyToClipboard;
           rewrite ?stopAudio_spec; frame_cases]).
  - injection Hstep as <-. unfold replies_pending, Ui.commit_chat.
    cbn. now rewrite app_nil_r.
  - injection Hstep as <-. unfold replies_pending, Ui.commit_chat,
      Ui.handleSend in *. cbn [Ui.pending Ui.chat].
    destruct (Ui.isTyping (Ui.chat w)) eqn:Hbusy.
    + rewrite orb_true_r. cbn. now rewrite app_nil_r, Hbusy.
    + rewrite orb_false_r. destruct (truthy _); cbn.
      * rewrite filter_app, length_app, Hinv. reflexivity.
      * now rewrite app_nil_r, Hbusy.
  - destruct (nth_error (Ui.pending w) n) as [f |] eqn:Hf; [| discriminate].
    destruct (awaiting_reply f) eqn:Hkind.
    + destruct f; try discriminate Hkind.
      destruct k as [b | r | r | |]; try discriminate.
      pose proof (filter_remove_nth_hit awaiting_reply n _ _ Hf Hkind) as Hcount.
      fold (replies_pending w) in Hcount.
      destruct (Ui.handleSend_resume r (Ui.chat w)) as [[c fx] reply] eqn:Hs.
      injection Hstep as <-. unfold replies_pending. cbn [Ui.pending Ui.chat].
      assert (Hc : Ui.isTyping c = false).
      { unfold Ui.handleSend_resume in Hs.
        destruct r; injection Hs as <- _ _; reflexivity. }
      rewrite Hc. destruct (Ui.isTyping (Ui.chat w)); lia.
    + assert (Hsame : replies_pending (Ui.unplug n w) = replies_pending w).
      { unfold replies_pending. cbn [Ui.unplug Ui.pending].
        now rewrite (filter_remove_nth_other awaiting_reply n _ f Hf Hkind). }
      destruct f; try discriminate Hkind;
        (destruct (Ui.resume _ k (Ui.app w)) as [o |] eqn:Hr;
         [| discriminate]; injection Hstep as <-;
         rewrite commit_replies by exact (resume_no_reply _ _ _ _ Hr);
         rewrite Hsame; exact Hinv).
Qed.

Lemma one_reply_at_a_time (es : list Ui.Event) (w w' : Ui.World) :
  Ui.run w es = Some w' ->
  replies_pending w = (if Ui.isTyping (Ui.chat w) then 1 else 0) ->
  replies_pending w' = (if Ui.isTyping (Ui.chat w') then 1 else 0).
Proof.
  revert w. induction es as [| e es IH]; intros w Hrun Hinv.
  - now injection Hrun as <-.
  - cbn [Ui.run] in Hrun.
    destruct (Ui.step w e) as [w1 |] eqn:Hstep; [| discriminate].
    exact (IH w1 Hrun (one_reply_step w w1 e Hstep Hinv)).
Qed.

(** While a reply is pending, only the arrival of that reply adds a
    message. *)
Lemma typing_blocks (w w' : Ui.World) (e : Ui.Event) :
  Ui.isTyping (Ui.chat w) = true ->
  Ui.step w e = Some w' ->
  Ui.messages (Ui.chat w') = Ui.messages (Ui.chat w)
  \/ exists n r,
       e = Ui.Resume n (Ui.Response r)
       /\ nth_error (Ui.pending w) n = Some Ui.SendAwaitReply.
Proof.
  intros Hbusy.
  destruct e as [file | | | ok | | t | | | t | | n k]; cbn [Ui.step];
    try (intros [= <-]; left; reflexivity).
  - intros [= <-]. left.
    now rewrite (handleSend_blocked _ (Ui.chat w) (or_intror Hbusy)).
  - destruct (nth_error (Ui.pending w) n) as [f |] eqn:Hf; [| discriminate].
    destruct f;
      try (destruct (Ui.resume _ k (Ui.app w)); [| discriminate];
           intros [= <-]; left; reflexivity).
    destruct k as [b | r | r | |]; try discriminate.
    intros _. right. now exists n, r.
Qed.

(** C8.  The chat message list is append-only and ordered.  A submission
    of whitespace-only input, or while a reply is pending, changes nothing
    and asks nothing.  Any other submission appends the user message and
    marks the reply as pending; the reply appends one assistant message,
    a failure appends the fixed fallback assistant message instead.  Every
    turn of the event loop keeps the earlier messages in place and appends
    at most one; while a reply is pending only its arrival appends; and a
    reply is pending exactly while the typing indicator is on. *)
Theorem chat_history_append_only :
  (forall imageBase64 c,
      forallb is_white_space (Ui.input c) = true \/ Ui.isTyping c = true ->
      Ui.handleSend imageBase64 c = Ui.done c)
  /\ (forall imageBase64 c,
      truthy (trim (Ui.input c)) = true ->
      Ui.isTyping c = false ->
      Ui.messages (Ui.next (Ui.handleSend imageBase64 c))
      = Ui.messages c
        ++ [{| Ui.role := GeminiService.user; Ui.content := Ui.input c |}]
      /\ Ui.isTyping (Ui.next (Ui.handleSend imageBase64 c)) = true
      /\ Ui.await (Ui.handleSend imageBase64 c) = Some Ui.SendAwaitReply)
  /\ (forall t c,
      Ui.messages (fst (fst (Ui.handleSend_resume (Ui.Fulfilled t) c)))
      = Ui.messages c
        ++ [{| Ui.role := GeminiService.assistant;
               Ui.content := GeminiService.chatWithStory_result t |}])
  /\ (forall c,
      Ui.messages (fst (fst (Ui.handleSend_resume Ui.Rejected c)))
      = Ui.messages c
        ++ [{| Ui.role := GeminiService.assistant;
               Ui.content := Ui.CHAT_FALLBACK |}])
  /\ (forall w e w',
      Ui.step w e = Some w' ->
      exists more,
        Ui.messages (Ui.chat w') = Ui.messages (Ui.chat w) ++ more
        /\ length more <= 1)
  /\ (forall w e w',
      Ui.isTyping (Ui.chat w) = true ->
      Ui.step w e = Some w' ->
      Ui.messages (Ui.chat w') = Ui.messages (Ui.chat w)
      \/ exists n r,
           e = Ui.Resume n (Ui.Response r)
           /\ nth_error (Ui.pending w) n = Some Ui.SendAwaitReply)
  /\ (forall es w,
      Ui.run Ui.initialWorld es = Some w ->
      replies_pending w = (if Ui.isTyping (Ui.chat w) then 1 else 0)).
Proof.
  split; [exact handleSend_blocked |].
  split; [exact handleSend_appends |].
  split; [reflexivity |].
  split; [reflexivity |].
  split; [exact (fun w e w' => step_messages w w' e) |].
  split; [exact (fun w e w' => typing_blocks w w' e) |].
  intros es w Hrun. exact (one_reply_at_a_time es _ w Hrun eq_refl).
Qed.

Lemma chat_history_append_only_witness :
  Ui.messages (Ui.next (Ui.handleSend (Some sample_image) chat_with_question))
  = Ui.messages chat_with_question
    ++ [{| Ui.role := GeminiService.user; Ui.content := lit " a twist? " |}]
  /\ Ui.handleSend (Some sample_image) chat_waiting = Ui.done chat_waiting
  /\ Ui.handleSend (Some sample_image)
       (Ui.setInput (lit "   ") chat_with_question)
     = Ui.done (Ui.setInput (lit "   ") chat_with_question)
  /\ replies_pending
       (world_after (story_begun ++ [Ui.TypeInput (lit "why?"); Ui.SubmitChat]))
     = 1.
Proof.
  split; [| split; [| split]].
  - apply (proj1 (proj2 chat_history_append_only)); reflexivity.
  - apply (proj1 chat_history_append_only). right. reflexivity.
  - apply (proj1 chat_history_append_only). left. reflexivity.
  - rewrite (proj2 (proj2 (proj2 (proj2 (proj2 (proj2
               chat_history_append_only)))))
               (story_begun ++ [Ui.TypeInput (lit "why?"); Ui.SubmitChat]));
      vm_compute; reflexivity.
Defined.

(** ** Data URLs: the payload handed to the model *)





(** ** analyzeAndPlan: what the sections never hold *)

Lemma starts_with_app (p x y : jsstring) :
  starts_with p x = true -> starts_with p (x ++ y) = true.
Proof.
  revert x. induction p as [| a p IH]; intros x H; [reflexivity |].
  destruct x as [| b x]; [discriminate |].
  cbn [starts_with app] in *. apply andb_true_iff in H as [Hab Hp].
  now rewrite Hab, (IH x Hp).
Qed.

Lemma index_of_None_prefix (p x y : jsstring) :
  index_of p (x ++ y) = None -> index_of p x = None.
Proof.
  induction x as [| c x IH]; intros H.
  - cbn [index_of]. destruct (starts_with p []) eqn:Hp; [| reflexivity].
    pose proof (starts_with_app p [] y Hp) as Hy. cbn [app] in H, Hy.
    destruct y as [| d y]; cbn [index_of] in H; rewrite Hy in H;
      discriminate.
  - cbn [app] in H. apply index_of_cons_None in H as [Hs Hx].
    rewrite index_of_cons, (IH Hx).
    destruct (starts_with p (c :: x)) eqn:Hp; [| reflexivity].
    pose proof (starts_with_app p (c :: x) y Hp) as Hy. cbn [app] in Hy.
    now rewrite Hy in Hs.
Qed.

Lemma trimStart_suffix (s : jsstring) :
  exists k, trimStart s = skipn k s.
Proof.
  induction s as [| c s [k IH]]; [now exists 0 |].
  cbn [trimStart]. destruct (is_white_space c).
  - now exists (S k).
  - now exists 0.
Qed.

Lemma trimStart_prefix_of (s : jsstring) :
  exists ws, s = ws ++ trimStart s.
Proof.
  induction s as [| c s [ws IH]]; [now exists [] |].
  cbn [trimStart]. destruct (is_white_space c).
  - exists (c :: ws). cbn [app]. now rewrite <- IH.
  - now exists [].
Qed.

Lemma trimEnd_prefix (s : jsstring) :
  exists post, s = trimEnd s ++ post.
Proof.
  unfold trimEnd. destruct (trimStart_prefix_of (rev s)) as [ws H].
  exists (rev ws). rewrite <- rev_app_distr, <- H. now rewrite rev_involutive.
Qed.

Lemma index_of_None_trim (p s : jsstring) :
  index_of p s = None -> index_of p (trim s) = None.
Proof.
  intros H. unfold trim.
  destruct (trimEnd_prefix (trimStart s)) as [post Hpost].
  apply (index_of_None_prefix p _ post). rewrite <- Hpost.
  destruct (trimStart_suffix s) as [k ->]. now apply index_of_None_skipn.
Qed.

Lemma lazy_until_prefix (B s cap : jsstring) :
  lazy_until B s = Some cap -> exists rest, s = cap ++ rest.
Proof.
  revert cap. induction s as [| c s IH]; intros cap; cbn [lazy_until].
  - destruct (starts_with B []); [| discriminate].
    intros [= <-]. now exists [].
  - destruct (starts_with B (c :: s)).
    + intros [= <-]. now exists (c :: s).
    + destruct (lazy_until B s) as [cap' |]; [| discriminate].
      intros [= <-]. destruct (IH cap' eq_refl) as [rest ->].
      now exists rest.
Qed.

(** What the lazy star took holds no occurrence of what follows it. *)
Lemma lazy_until_free (B s cap : jsstring) :
  B <> [] -> lazy_until B s = Some cap -> index_of B cap = None.
Proof.
  intros HB. revert cap. induction s as [| c s IH]; intros cap;
    cbn [lazy_until].
  - destruct B as [| b B]; [now elim HB | discriminate].
  - destruct (starts_with B (c :: s)) eqn:Hs.
    + intros [= <-]. destruct B as [| b B]; [now elim HB | reflexivity].
    + destruct (lazy_until B s) as [cap' |] eqn:Hl; [| discriminate].
      intros [= <-]. rewrite index_of_cons, (IH cap' eq_refl).
      destruct (starts_with B (c :: cap')) eqn:Hc; [| reflexivity].
      destruct (lazy_until_prefix B s cap' Hl) as [rest ->].
      pose proof (starts_with_app B (c :: cap') rest Hc) as Hy.
      cbn [app] in Hy. now rewrite Hy in Hs.
Qed.

Lemma match_between_free (A B s cap : jsstring) :
  B <> [] -> match_between A B s = Some cap -> index_of B cap = None.
Proof.
  intros HB. induction s as [| c s IH]; rewrite match_between_unfold;
    unfold match_between_here.
  - destruct (starts_with A []);
      [destruct (lazy_until B (skipn (length A) [])) eqn:Hl |];
      try discriminate.
    intros [= <-]. exact (lazy_until_free B _ _ HB Hl).
  - destruct (starts_with A (c :: s));
      [destruct (lazy_until B (skipn (length A) (c :: s))) eqn:Hl |];
      try exact IH.
    intros [= <-]. exact (lazy_until_free B _ _ HB Hl).
Qed.

Lemma markers_not_empty :
  GeminiService.MARK_BLUEPRINT <> [] /\ GeminiService.MARK_STORY <> [].
Proof. split; intros H; vm_compute in H; discriminate H. Qed.

(** X2.  Whatever the model answers, the analysis returned holds no
    occurrence of the blueprint marker and the blueprint returned holds no
    occurrence of the story marker: a section ends before the first marker
    that closes it. *)
Theorem analyzeAndPlan_sections_end_at_marker (response_text : option jsstring) :
  index_of GeminiService.MARK_BLUEPRINT
    (GeminiService.analysis (GeminiService.analyzeAndPlan_result response_text))
  = None
  /\ index_of GeminiService.MARK_STORY
       (GeminiService.blueprint
          (GeminiService.analyzeAndPlan_result response_text))
     = None.
Proof.
  unfold GeminiService.analyzeAndPlan_result.
  cbn [GeminiService.analysis GeminiService.blueprint]. split.
  - destruct (match_between _ _ _) as [cap |] eqn:Hm;
      [| vm_compute; reflexivity].
    apply index_of_None_trim.
    exact (match_between_free _ _ _ _ (proj1 markers_not_empty) Hm).
  - destruct (match_between GeminiService.MARK_BLUEPRINT _ _) as [cap |] eqn:Hm;
      [| vm_compute; reflexivity].
    apply index_of_None_trim.
    exact (match_between_free _ _ _ _ (proj2 markers_not_empty) Hm).
Qed.

Lemma trimStart_head (s : jsstring) :
  match trimStart s with
  | c :: _ => negb (is_white_space c)
  | [] => true
  end = true.
Proof.
  induction s as [| c s IH]; [reflexivity |].
  cbn [trimStart]. destruct (is_white_space c) eqn:Hc; [exact IH |].
  now rewrite Hc.
Qed.

Lemma trim_trimmed (s : jsstring) : trimmed (trim s) = true.
Proof.
  unfold trimmed, trim. apply andb_true_iff. split.
  - pose proof (trimStart_head s) as Hhead.
    destruct (trimEnd_prefix (trimStart s)) as [post Hpost].
    destruct (trimEnd (trimStart s)) as [| c r]; [reflexivity |].
    rewrite Hpost in Hhead. exact Hhead.
  - unfold trimEnd. rewrite rev_involutive. apply trimStart_head.
Qed.

(** X3.  Whatever the model answers, the analysis and the blueprint
    returned neither begin nor end with a white-space code unit. *)
Theorem analyzeAndPlan_sections_trimmed (response_text : option jsstring) :
  trimmed
    (GeminiService.analysis (GeminiService.analyzeAndPlan_result response_text))
  = true
  /\ trimmed
       (GeminiService.blueprint
          (GeminiService.analyzeAndPlan_result response_text))
     = true.
Proof.
  unfold GeminiService.analyzeAndPlan_result.
  cbn [GeminiService.analysis GeminiService.blueprint]. split.
  - destruct (match_between _ _ _); [apply trim_trimmed | vm_compute; reflexivity].
  - destruct (match_between GeminiService.MARK_BLUEPRINT _ _);
      [apply trim_trimmed | vm_compute; reflexivity].
Qed.

(** ** Turns of the event loop, by kind *)

(** A turn is a handler of [App] run on a user event, the continuation of
    a suspended handler of [App], a handler of the chat, or the arrival of
    a chat reply. *)
Lemma step_cases (w w' : Ui.World) (e : Ui.Event) :
  Ui.step w e = Some w' ->
  (exists o, app_handler e (Ui.app w) = Some o /\ w' = Ui.commit w o)
  \/ (exists n k f o,
         e = Ui.Resume n k /\ nth_error (Ui.pending w) n = Some f
         /\ awaiting_reply f = false
         /\ Ui.resume f k (Ui.app w) = Some o
         /\ w' = Ui.commit (Ui.unplug n w) o)
  \/ (exists o, chat_handler e w = Some o /\ w' = Ui.commit_chat w o)
  \/ (exists n r,
         e = Ui.Resume n (Ui.Response r)
         /\ nth_error (Ui.pending w) n = Some Ui.SendAwaitReply
         /\ w' = replied n r w).
Proof.
  destruct e as [file | | | ok | | t | | | t | | n k]; cbn [Ui.step];
    try (intros [= <-]; left; eexists; split; reflexivity);
    try (intros [= <-]; right; right; left; eexists; split; reflexivity).
  destruct (nth_error (Ui.pending w) n) as [f |] eqn:Hf; [| discriminate].
  destruct f;
    try (destruct (Ui.resume _ k (Ui.app w)) as [o |] eqn:Hr;
         [| discriminate]; intros [= <-]; right; left;
         eexists n, k, _, o; split; [reflexivity |];
         split; [exact Hf |]; split; [reflexivity |];
         split; [exact Hr | reflexivity]).
  destruct k as [b | r | r | |]; cbv iota; try discriminate.
  intros H. right; right; right. exists n, r.
  split; [reflexivity |]. split; [exact Hf |].
  unfold replied.
  destruct (Ui.handleSend_resume r (Ui.chat w)) as [[c fx] reply].
  now injection H as <-.
Qed.

Lemma run_invariant (P : Ui.World -> Prop) :
  (forall w e w', P w -> Ui.step w e = Some w' -> P w') ->
  forall es w w', P w -> Ui.run w es = Some w' -> P w'.
Proof.
  intros Hstep. induction es as [| e es IH]; intros w w' Hw Hrun.
  - now injection Hrun as <-.
  - cbn [Ui.run] in Hrun.
    destruct (Ui.step w e) as [w1 |] eqn:H1; [| discriminate].
    exact (IH w1 w' (Hstep w e w1 Hw H1) Hrun).
Qed.

Lemma run_page_invariant (P : Ui.World -> Prop) :
  (forall w e w',
      P w -> Ui.offered w e = true -> Ui.step w e = Some w' -> P w') ->
  forall es w w', P w -> Ui.run_page w es = Some w' -> P w'.
Proof.
  intros Hstep. induction es as [| e es IH]; intros w w' Hw Hrun.
  - now injection Hrun as <-.
  - cbn [Ui.run_page] in Hrun.
    destruct (Ui.offered w e) eqn:Hoff; [| discriminate].
    destruct (Ui.step w e) as [w1 |] eqn:H1; [| discriminate].
    exact (IH w1 w' (Hstep w e w1 Hw Hoff H1) Hrun).
Qed.

(** A run through the controls of the page is a run. *)
Lemma run_page_run (es : list Ui.Event) (w w' : Ui.World) :
  Ui.run_page w es = Some w' -> Ui.run w es = Some w'.
Proof.
  revert w. induction es as [| e es IH]; intros w; [trivial |].
  cbn [Ui.run_page Ui.run]. destruct (Ui.offered w e); [| discriminate].
  destruct (Ui.step w e) as [w1 |]; [apply IH | discriminate].
Qed.

(** ** Busy indicators stand for pending work *)

Ltac unfold_handlers :=
  unfold Ui.handleImageUpload, Ui.generateNextPartOfStory, Ui.handleStop,
    Ui.handleReadFullStory, Ui.blueprint_button, Ui.handleSaveBlueprint,
    Ui.copyToClipboard, Ui.dismiss_error, Ui.reader_onload,
    Ui.reader_onload_resume, Ui.generateNextPartOfStory_resume,
    Ui.read_after_speech, Ui.read_after_decode, Ui.read_after_ended,
    Ui.read_after_pause, Ui.read_loop, Ui.read_catch, Ui.read_finally;
  rewrite ?stopAudio_spec; unfold stop_current.

Lemma existsb_remove_nth_other {A} (p : A -> bool) (n : nat) (l : list A)
    (x : A) :
  nth_error l n = Some x -> p x = false ->
  existsb p (Ui.remove_nth n l) = existsb p l.
Proof.
  revert n. induction l as [| y l IH]; intros n Hn Hx;
    [now destruct n |].
  destruct n as [| n]; cbn in Hn |- *.
  - injection Hn as ->. now rewrite Hx.
  - now rewrite (IH n Hn Hx).
Qed.

Section BusyFlag.

Variable flag : Ui.App -> bool.
Variable works : Ui.Frame -> bool.
Variable sound : Ui.App -> Prop.

Hypothesis flag_render :
  forall b a, flag (Ui.useEffect_blueprint b a) = flag a.
Hypothesis sound_render :
  forall b a, sound a -> sound (Ui.useEffect_blueprint b a).
Hypothesis flag_guidance :
  forall g a, flag (Ui.setCurrentGuidance g a) = flag a.
Hypothesis sound_guidance :
  forall g a, sound a -> sound (Ui.setCurrentGuidance g a).
Hypothesis works_not_reply :
  forall f, awaiting_reply f = true -> works f = false.

Hypothesis handler_flag :
  forall e a o,
    app_handler e a = Some o -> sound a ->
    sound (Ui.next o)
    /\ (flag (Ui.next o) = true ->
        flag a = true \/ existsb works (Ui.frames_of (Ui.await o)) = true).

Hypothesis resume_flag :
  forall f k a o,
    Ui.resume f k a = Some o -> sound a ->
    sound (Ui.next o)
    /\ (flag (Ui.next o) = true ->
        (works f = false /\ flag a = true)
        \/ existsb works (Ui.frames_of (Ui.await o)) = true).

Lemma busy_step (w w' : Ui.World) (e : Ui.Event) :
  sound (Ui.app w)
  /\ (flag (Ui.app w) = true -> existsb works (Ui.pending w) = true) ->
  Ui.step w e = Some w' ->
  sound (Ui.app w')
  /\ (flag (Ui.app w') = true -> existsb works (Ui.pending w') = true).
Proof.
  intros [Hs Hw] Hstep.
  destruct (step_cases w w' e Hstep)
    as [(o & Ho & ->) | [(n & k & f & o & -> & Hf & _ & Ho & ->)
       | [(o & _ & ->) | (n & r & -> & Hf & ->)]]].
  - destruct (handler_flag e _ o Ho Hs) as [Hs' Hflag].
    unfold Ui.commit. cbn [Ui.app Ui.pending].
    split; [now apply sound_render |].
    rewrite flag_render, existsb_app. intros H.
    destruct (Hflag H) as [Hold | Hnew];
      [rewrite (Hw Hold) | rewrite Hnew, orb_true_r]; reflexivity.
  - destruct (resume_flag f k _ o Ho Hs) as [Hs' Hflag].
    unfold Ui.commit, Ui.unplug. cbn [Ui.app Ui.pending].
    split; [now apply sound_render |].
    rewrite flag_render, existsb_app. intros H.
    destruct (Hflag H) as [[Hf' Hold] | Hnew].
    + now rewrite (existsb_remove_nth_other works n _ f Hf Hf'), (Hw Hold).
    + now rewrite Hnew, orb_true_r.
  - unfold Ui.commit_chat. cbn [Ui.app Ui.pending]. split; [exact Hs |].
    intros H. now rewrite existsb_app, (Hw H).
  - unfold replied. cbn [Ui.app Ui.pending].
    assert (Hkeep : existsb works (Ui.remove_nth n (Ui.pending w))
                    = existsb works (Ui.pending w))
      by (apply (existsb_remove_nth_other works n _ _ Hf);
          now apply works_not_reply).
    rewrite Hkeep.
    destruct (snd (Ui.handleSend_resume r (Ui.chat w))) as [resp |].
    + split; [now apply sound_guidance |]. now rewrite flag_guidance.
    + now split.
Qed.

Lemma busy_run (es : list Ui.Event) (w w' : Ui.World) :
  sound (Ui.app w)
  /\ (flag (Ui.app w) = true -> existsb works (Ui.pending w) = true) ->
  Ui.run w es = Some w' ->
  sound (Ui.app w')
  /\ (flag (Ui.app w') = true -> existsb works (Ui.pending w') = true).
Proof.
  intros Hw Hrun.
  exact (run_invariant _ (fun w e w' H => busy_step w w' e H) es w w' Hw Hrun).
Qed.

End BusyFlag.

(** Case analysis with the component state opened into its cells, so that
    every test of a handler is a test on a variable. *)
Ltac open_app a := destruct a as [[? ? ? ? ? ? ?] ? ? ? ? ? ? ? ? ? ?].

Ltac handler_case :=
  match goal with
  | |- context [match ?x with
                | Ui.Fulfilled _ => _
                | Ui.Rejected => _
                end] =>
      destruct x
  | |- context [if ?b then _ else _] => is_var b; destruct b
  | |- context [match ?x with Some _ => _ | None => _ end] =>
      is_var x; destruct x
  | |- context [if ?b then _ else _] => destruct b
  | |- context [match ?x with Some _ => _ | None => _ end] => destruct x
  end.

Ltac handler_facts :=
  unfold_handlers; repeat (cbn; handler_case); cbn;
  auto using orb_true_r.

(** X4.  Whenever the page shows the loading spinner of the first
    analysis, an analysis request is still in flight: in every session,
    [isLoading] implies a suspended upload waiting for its plan. *)
Theorem spinner_has_pending_analysis (es : list Ui.Event) (w : Ui.World) :
  Ui.run Ui.initialWorld es = Some w ->
  Ui.isLoading (story_of w) = true ->
  existsb planning (Ui.pending w) = true.
Proof.
  intros Hrun.
  apply (busy_run (fun a => Ui.isLoading (Ui.state a)) planning
           (fun _ => True)) with (es := es) (w := Ui.initialWorld) (w' := w);
    try exact Hrun; auto.
  - intros b a. now rewrite useEffect_blueprint_state.
  - intros f. now destruct f.
  - intros e a o Ho _. split; [exact I |].
    destruct e; try discriminate Ho; injection Ho as <-; handler_facts.
  - intros f k a o Ho _. split; [exact I |].
    destruct f, k; try discriminate Ho; injection Ho as <-; handler_facts.
Qed.

Lemma spinner_has_pending_analysis_witness :
  Ui.isLoading (story_of (world_after upload_in_flight)) = true
  /\ existsb planning (Ui.pending (world_after upload_in_flight)) = true.
Proof.
  split; [vm_compute; reflexivity |].
  apply (spinner_has_pending_analysis upload_in_flight);
    vm_compute; reflexivity.
Defined.

(** X5.  Whenever the page shows a chapter as being written, a chapter
    request is still in flight: in every session, [isAutoGenerating]
    implies a suspended generation. *)
Theorem generating_has_pending_request (es : list Ui.Event) (w : Ui.World) :
  Ui.run Ui.initialWorld es = Some w ->
  Ui.isAutoGenerating (Ui.app w) = true ->
  existsb generating (Ui.pending w) = true.
Proof.
  intros Hrun.
  apply (busy_run Ui.isAutoGenerating generating (fun _ => True))
    with (es := es) (w := Ui.initialWorld) (w' := w);
    try exact Hrun; auto.
  - intros b a. apply useEffect_blueprint_cells.
  - intros f. now destruct f.
  - intros e a o Ho _. split; [exact I |].
    destruct e; try discriminate Ho; injection Ho as <-; handler_facts.
  - intros f k a o Ho _. split; [exact I |].
    destruct f, k; try discriminate Ho; injection Ho as <-; handler_facts.
Qed.

Lemma generating_has_pending_request_witness :
  Ui.isAutoGenerating (Ui.app (world_after generation_in_flight)) = true
  /\ existsb generating (Ui.pending (world_after generation_in_flight)) = true.
Proof.
  split; [vm_compute; reflexivity |].
  apply (generating_has_pending_request generation_in_flight);
    vm_compute; reflexivity.
Defined.

(** X6.  Between handlers the [isPlaying] state and the reading flag
    agree, and whenever the page shows the narration as playing, a
    narration loop is suspended somewhere: on a synthesis request, a
    decoding, a playback or a pause. *)
Theorem playing_has_pending_loop (es : list Ui.Event) (w : Ui.World) :
  Ui.run Ui.initialWorld es = Some w ->
  Ui.isPlaying (Ui.app w) = Ui.isReadingRef (Ui.app w)
  /\ (Ui.isPlaying (Ui.app w) = true ->
      existsb narrating (Ui.pending w) = true).
Proof.
  intros Hrun.
  apply (busy_run Ui.isPlaying narrating
           (fun a => Ui.isPlaying a = Ui.isReadingRef a))
    with (es := es) (w := Ui.initialWorld) (w' := w);
    try exact Hrun; auto.
  - intros b a. apply useEffect_blueprint_cells.
  - intros b a H.
    destruct (useEffect_blueprint_cells b a) as (_ & _ & -> & _ & _ & ->).
    exact H.
  - intros f. now destruct f.
  - intros e a o Ho Hs.
    destruct e; try discriminate Ho; injection Ho as <-;
      revert Hs; open_app a; handler_facts;
      intros; subst; (split; [| intros]); try discriminate; auto.
  - intros f k a o Ho Hs.
    destruct f, k; try discriminate Ho; injection Ho as <-;
      revert Hs; open_app a; handler_facts;
      intros; subst; (split; [| intros]); try discriminate; auto.
Qed.

Lemma playing_has_pending_loop_witness :
  Ui.isPlaying (Ui.app (world_after narration_started)) = true
  /\ existsb narrating (Ui.pending (world_after narration_started)) = true.
Proof.
  split; [vm_compute; reflexivity |].
  apply (playing_has_pending_loop narration_started);
    vm_compute; reflexivity.
Defined.

(** ** What a session on the page cannot do *)

Section PageInvariant.

Variable good : Ui.App -> Prop.
Variable fine : Ui.Frame -> bool.
Variable allowed : Ui.Effect -> bool.

Hypothesis good_render :
  forall b a, good a -> good (Ui.useEffect_blueprint b a).
Hypothesis good_guidance :
  forall g a, good a -> good (Ui.setCurrentGuidance g a).
Hypothesis fine_reply : fine Ui.SendAwaitReply = true.
Hypothesis allowed_chat :
  forall h m i, allowed (Ui.CallChatWithStory h m i) = true.
Hypothesis allowed_console : allowed Ui.ConsoleError = true.

Hypothesis handler_good :
  forall w e o,
    app_handler e (Ui.app w) = Some o -> Ui.offered w e = true ->
    good (Ui.app w) ->
    good (Ui.next o)
    /\ forallb fine (Ui.frames_of (Ui.await o)) = true
    /\ forallb allowed (Ui.effects o) = true.

Hypothesis resume_good :
  forall f k a o,
    Ui.resume f k a = Some o -> fine f = true -> good a ->
    good (Ui.next o)
    /\ forallb fine (Ui.frames_of (Ui.await o)) = true
    /\ forallb allowed (Ui.effects o) = true.

Lemma page_step (w w' : Ui.World) (e : Ui.Event) :
  good (Ui.app w) /\ forallb fine (Ui.pending w) = true ->
  Ui.offered w e = true ->
  Ui.step w e = Some w' ->
  (good (Ui.app w') /\ forallb fine (Ui.pending w') = true)
  /\ exists fx, Ui.log w' = Ui.log w ++ fx /\ forallb allowed fx = true.
Proof.
  intros [Hg Hp] Hoff Hstep.
  destruct (step_cases w w' e Hstep)
    as [(o & Ho & ->) | [(n & k & f & o & -> & Hf & _ & Ho & ->)
       | [(o & Ho & ->) | (n & r & -> & Hf & ->)]]].
  - destruct (handler_good w e o Ho Hoff Hg) as (Hg' & Hfr & Hfx).
    unfold Ui.commit. cbn [Ui.app Ui.pending Ui.log].
    rewrite forallb_app, Hp, Hfr.
    split; [split; [now apply good_render | reflexivity] |].
    now exists (Ui.effects o).
  - pose proof (forallb_nth_error fine n _ f Hp Hf) as Hfine.
    destruct (resume_good f k _ o Ho Hfine Hg) as (Hg' & Hfr & Hfx).
    unfold Ui.commit, Ui.unplug. cbn [Ui.app Ui.pending Ui.log].
    rewrite forallb_app, (forallb_remove_nth fine n _ Hp), Hfr.
    split; [split; [now apply good_render | reflexivity] |].
    now exists (Ui.effects o).
  - unfold Ui.commit_chat. cbn [Ui.app Ui.pending Ui.log].
    rewrite forallb_app, Hp.
    destruct e; try discriminate Ho; injection Ho as <-.
    + split; [split; [exact Hg | reflexivity] |]. now exists [].
    + unfold Ui.handleSend. destruct (_ || _); cbn.
      * split; [split; [exact Hg | reflexivity] |]. now exists [].
      * rewrite fine_reply.
        split; [split; [exact Hg | reflexivity] |].
        eexists. split; [reflexivity |]. cbn. now rewrite allowed_chat.
  - unfold replied. cbn [Ui.app Ui.pending Ui.log].
    rewrite (forallb_remove_nth fine n _ Hp).
    destruct r; cbn.
    + split; [split; [now apply good_guidance | reflexivity] |].
      now exists [].
    + split; [split; [exact Hg | reflexivity] |].
      exists [Ui.ConsoleError]. cbn. now rewrite allowed_console.
Qed.

Lemma page_run (es : list Ui.Event) (w w' : Ui.World) :
  good (Ui.app w) /\ forallb fine (Ui.pending w) = true ->
  Ui.run_page w es = Some w' ->
  (good (Ui.app w') /\ forallb fine (Ui.pending w') = true)
  /\ exists fx, Ui.log w' = Ui.log w ++ fx /\ forallb allowed fx = true.
Proof.
  revert w. induction es as [| e es IH]; intros w Hw Hrun.
  - injection Hrun as <-. split; [exact Hw |]. exists [].
    now rewrite app_nil_r.
  - cbn [Ui.run_page] in Hrun.
    destruct (Ui.offered w e) eqn:Hoff; [| discriminate].
    destruct (Ui.step w e) as [w1 |] eqn:H1; [| discriminate].
    destruct (page_step w w1 e Hw Hoff H1) as (Hw1 & fx1 & Hlog1 & Hfx1).
    destruct (IH w1 Hw1 Hrun) as (Hw' & fx & Hlog & Hfx).
    split; [exact Hw' |]. exists (fx1 ++ fx).
    rewrite Hlog, Hlog1, app_assoc. split; [reflexivity |].
    now rewrite forallb_app, Hfx1, Hfx.
Qed.

End PageInvariant.

Lemma forallb_any_effect (fx : list Ui.Effect) : forallb any_effect fx = true.
Proof. induction fx as [| e fx IH]; [reflexivity | exact IH]. Qed.

(** X7.  In every session through the controls of the page the chapter
    counter stays between 1 and 6, whatever the order in which requests
    are answered: the generation panel is offered only below 6, and a
    late answer commits a number computed while it was. *)
Theorem chapter_counter_between_1_and_6 (es : list Ui.Event) (w : Ui.World) :
  Ui.run_page Ui.initialWorld es = Some w ->
  (1 <= Ui.currentChapter (story_of w) <= 6)%N.
Proof.
  intros Hrun.
  apply (page_run
           (fun a => (1 <= Ui.currentChapter (Ui.state a) <= 6)%N)
           chapter_in_range any_effect)
    with (es := es) (w := Ui.initialWorld) (w' := w);
    try exact Hrun; try reflexivity.
  - intros b a. now rewrite useEffect_blueprint_state.
  - trivial.
  - intros w0 e o Ho Hoff Hg.
    rewrite forallb_any_effect.
    destruct e; try discriminate Ho; injection Ho as <-;
      try (revert Hg; open_app (Ui.app w0); handler_facts; fail).
    unfold Ui.offered, Ui.generation_panel in Hoff.
    apply andb_true_iff in Hoff as [Hpanel _].
    apply andb_true_iff in Hpanel as [_ Hsix]. apply N.ltb_lt in Hsix.
    unfold Ui.generateNextPartOfStory.
    destruct (_ || _); cbn; [auto |].
    split; [exact Hg |]. split; [| reflexivity].
    rewrite andb_true_r. apply andb_true_iff.
    split; [apply N.leb_le | apply N.leb_le]; lia.
  - intros f k a o Ho Hfine Hg. rewrite forallb_any_effect.
    destruct f, k; try discriminate Ho; injection Ho as <-;
      try (revert Hg; open_app a; handler_facts; intros; split; auto; lia).
    cbn [chapter_in_range] in Hfine.
    apply andb_true_iff in Hfine as [H1 H6].
    apply N.leb_le in H1, H6.
    destruct r; cbn; auto.
  - split; [cbn; lia | reflexivity].
Qed.

Lemma chapter_counter_between_1_and_6_witness :
  (1 <= Ui.currentChapter
          (story_of (world_after (third_chapter_written ++ [older_answer])))
   <= 6)%N.
Proof.
  apply (chapter_counter_between_1_and_6
           (third_chapter_written ++ [older_answer])).
  vm_compute. reflexivity.
Defined.

(** X8.  Once an image is set and no file is still being read, the page
    never replaces it: the file input is no longer rendered, so in every
    session through the controls of the page the image stays the same, no
    file is read and no analysis is requested. *)
Theorem image_is_never_replaced
    (w w' : Ui.World) (img : jsstring) (es : list Ui.Event) :
  Ui.image (story_of w) = Some img ->
  truthy img = true ->
  forallb not_reading_file (Ui.pending w) = true ->
  Ui.run_page w es = Some w' ->
  Ui.image (story_of w') = Some img
  /\ exists fx,
       Ui.log w' = Ui.log w ++ fx /\ forallb no_upload_effect fx = true.
Proof.
  intros Himg Htruthy Hpending Hrun.
  destruct (page_run (fun a => Ui.image (Ui.state a) = Some img)
              not_reading_file no_upload_effect) with (es := es) (w := w)
              (w' := w') as [[Hgood _] Hlog];
    try exact Hrun; try reflexivity; try (split; assumption).
  - intros b a. now rewrite useEffect_blueprint_state.
  - trivial.
  - intros w0 e o Ho Hoff Hg.
    destruct e; try discriminate Ho; injection Ho as <-;
      try (revert Hg; open_app (Ui.app w0); handler_facts; fail).
    unfold Ui.offered in Hoff. rewrite Hg, Htruthy in Hoff. discriminate Hoff.
  - intros f k a o Ho Hfine Hg.
    destruct f, k; try discriminate Ho; try discriminate Hfine;
      injection Ho as <-; revert Hg; open_app a; handler_facts.
Qed.

Lemma image_is_never_replaced_witness :
  Ui.image (story_of (world_after (story_begun ++ [Ui.ClickGenerate])))
  = Some sample_image.
Proof.
  apply (image_is_never_replaced (world_after story_begun)
           (world_after (story_begun ++ [Ui.ClickGenerate]))
           sample_image [Ui.ClickGenerate]);
    vm_compute; reflexivity.
Defined.

(** X9.  With an image set, an empty blueprint and nothing but chapter
    requests and chat turns in flight, the page is stranded: the file
    input, the blueprint card and the narration button are not rendered
    and the generation button does nothing, so in every session through
    the controls of the page the blueprint stays empty, and no file is
    read and no analysis, chapter or speech is requested ever again.  This
    is where a failed first analysis leaves the page. *)
Theorem empty_blueprint_strands_page
    (w w' : Ui.World) (es : list Ui.Event) :
  has_image (story_of w) = true ->
  Ui.blueprint (story_of w) = [] ->
  forallb harmless (Ui.pending w) = true ->
  Ui.run_page w es = Some w' ->
  Ui.blueprint (story_of w') = []
  /\ exists fx,
       Ui.log w' = Ui.log w ++ fx /\ forallb no_story_request fx = true.
Proof.
  intros Himg Hplan Hpending Hrun.
  destruct (page_run
              (fun a => has_image (Ui.state a) = true
                        /\ Ui.blueprint (Ui.state a) = [])
              harmless no_story_request) with (es := es) (w := w)
              (w' := w') as [[[_ Hgood] _] Hlog];
    try exact Hrun; try reflexivity; try (split; [split |]; assumption).
  - intros b a. now rewrite useEffect_blueprint_state.
  - trivial.
  - intros w0 e o Ho Hoff [Hi Hb]. unfold Ui.offered in Hoff.
    unfold has_image in *.
    destruct e; try discriminate Ho; injection Ho as <-;
      try (rewrite Hb in Hoff; discriminate Hoff);
      try (revert Hi Hb; open_app (Ui.app w0); handler_facts;
           intros; subst; auto; fail).
    + destruct (Ui.image (Ui.state (Ui.app w0))) as [i |];
        [| discriminate Hi].
      rewrite Hi in Hoff. discriminate Hoff.
    + unfold Ui.generateNextPartOfStory. rewrite Hb, orb_true_r. cbn. auto.
  - intros f k a o Ho Hfine. unfold has_image.
    destruct f, k; try discriminate Ho; try discriminate Hfine;
      injection Ho as <-; open_app a; handler_facts.
  - split; assumption.
Qed.

Lemma empty_blueprint_strands_page_witness :
  Ui.blueprint (story_of (world_after (analysis_failed ++ asking_for_help)))
  = []
  /\ exists fx,
       Ui.log (world_after (analysis_failed ++ asking_for_help))
       = Ui.log (world_after analysis_failed) ++ fx
       /\ forallb no_story_request fx = true.
Proof.
  apply (empty_blueprint_strands_page (world_after analysis_failed)
           (world_after (analysis_failed ++ asking_for_help))
           asking_for_help);
    vm_compute; reflexivity.
Defined.

(** ** Editing the blueprint *)

Lemma useEffect_blueprint_editing (before after : Ui.App) :
  Ui.isEditingBlueprint (Ui.useEffect_blueprint before after)
  = Ui.isEditingBlueprint after.
Proof. unfold Ui.useEffect_blueprint. now destruct list_eq_dec. Qed.

(** A handler that leaves the editor alone keeps the edit buffer in step
    with the blueprint. *)
Lemma commit_editor (w : Ui.World) (o : Ui.Outcome Ui.App) :
  (Ui.isEditingBlueprint (Ui.app w) = false ->
   Ui.editableBlueprint (Ui.app w) = Ui.blueprint (story_of w)) ->
  Ui.isEditingBlueprint (Ui.next o) = Ui.isEditingBlueprint (Ui.app w) ->
  Ui.editableBlueprint (Ui.next o) = Ui.editableBlueprint (Ui.app w) ->
  Ui.isEditingBlueprint (Ui.app (Ui.commit w o)) = false ->
  Ui.editableBlueprint (Ui.app (Ui.commit w o))
  = Ui.blueprint (story_of (Ui.commit w o)).
Proof.
  unfold story_of, Ui.commit. cbn [Ui.app].
  rewrite useEffect_blueprint_editing, useEffect_blueprint_state.
  unfold Ui.useEffect_blueprint.
  destruct list_eq_dec as [Hsame | Hdiff]; [| reflexivity].
  intros Hw He Hb Hoff. rewrite Hb, <- Hsame. apply Hw. now rewrite <- He.
Qed.

Lemma resume_keeps_editor (f : Ui.Frame) (k : Ui.Wake) (a : Ui.App)
    (o : Ui.Outcome Ui.App) :
  Ui.resume f k a = Some o ->
  Ui.isEditingBlueprint (Ui.next o) = Ui.isEditingBlueprint a
  /\ Ui.editableBlueprint (Ui.next o) = Ui.editableBlueprint a.
Proof.
  destruct f, k; try discriminate; intros [= <-]; open_app a; handler_facts.
Qed.

Lemma handler_keeps_editor (e : Ui.Event) (a : Ui.App)
    (o : Ui.Outcome Ui.App) :
  app_handler e a = Some o ->
  match e with
  | Ui.ClickBlueprintButton | Ui.EditBlueprint _ => True
  | _ =>
    Ui.isEditingBlueprint (Ui.next o) = Ui.isEditingBlueprint a
    /\ Ui.editableBlueprint (Ui.next o) = Ui.editableBlueprint a
  end.
Proof.
  destruct e; try discriminate; intros [= <-]; try exact I;
    open_app a; handler_facts.
Qed.

(** X10.  In every session through the controls of the page, while the
    blueprint editor is closed the edit buffer equals the stored
    blueprint: the editor always opens on the current blueprint, also
    after an upload or a saved edit. *)
Theorem editor_opens_on_current_blueprint
    (es : list Ui.Event) (w : Ui.World) :
  Ui.run_page Ui.initialWorld es = Some w ->
  Ui.isEditingBlueprint (Ui.app w) = false ->
  Ui.editableBlueprint (Ui.app w) = Ui.blueprint (story_of w).
Proof.
  intros Hrun.
  apply (run_page_invariant
           (fun w => Ui.isEditingBlueprint (Ui.app w) = false ->
                     Ui.editableBlueprint (Ui.app w) = Ui.blueprint (story_of w)))
    with (es := es) (w := Ui.initialWorld); [| reflexivity | exact Hrun].
  clear es w Hrun. intros w e w' Hw Hoff Hstep.
  destruct (step_cases w w' e Hstep)
    as [(o & Ho & ->) | [(n & k & f & o & -> & Hf & _ & Ho & ->)
       | [(o & _ & ->) | (n & r & -> & Hf & ->)]]].
  - pose proof (handler_keeps_editor e _ o Ho) as Hkeep.
    destruct e; try discriminate Ho;
      try (now apply (commit_editor w o Hw)); injection Ho as <-.
    + unfold story_of, Ui.commit. cbn [Ui.app].
      rewrite useEffect_blueprint_editing, useEffect_blueprint_state.
      unfold Ui.useEffect_blueprint, Ui.blueprint_button,
        Ui.handleSaveBlueprint.
      destruct (Ui.isEditingBlueprint (Ui.app w)); cbn; [| discriminate].
      now destruct list_eq_dec.
    + unfold Ui.offered in Hoff. apply andb_true_iff in Hoff as [_ Hed].
      unfold Ui.commit. cbn [Ui.app]. rewrite useEffect_blueprint_editing.
      cbn. rewrite Hed. discriminate.
  - now apply (commit_editor (Ui.unplug n w) o Hw);
      apply (resume_keeps_editor f k _ o Ho).
  - exact Hw.
  - unfold replied, story_of. cbn [Ui.app].
    destruct (snd _); [| exact Hw]. exact Hw.
Qed.

Lemma editor_opens_on_current_blueprint_witness :
  Ui.isEditingBlueprint (Ui.app (world_after story_begun)) = false
  /\ Ui.editableBlueprint (Ui.app (world_after story_begun))
     = Ui.blueprint (story_of (world_after story_begun)).
Proof.
  split; [vm_compute; reflexivity |].
  apply (editor_opens_on_current_blueprint story_begun);
    vm_compute; reflexivity.
Defined.

Lemma commit_done_same (w : Ui.World) (a' : Ui.App) :
  Ui.blueprint (Ui.state (Ui.app w)) = Ui.blueprint (Ui.state a') ->
  Ui.commit w (Ui.done a')
  = {| Ui.app := a'; Ui.chat := Ui.chat w; Ui.pending := Ui.pending w;
       Ui.log := Ui.log w |}.
Proof.
  intros H. unfold Ui.commit, Ui.done. cbn [Ui.next Ui.await Ui.effects].
  rewrite (useEffect_blueprint_same _ _ H). cbn [Ui.frames_of].
  now rewrite !app_nil_r.
Qed.

Lemma useEffect_blueprint_synced (before after : Ui.App) :
  Ui.editableBlueprint after = Ui.blueprint (Ui.state after) ->
  Ui.useEffect_blueprint before after = after.
Proof.
  intros H. unfold Ui.useEffect_blueprint.
  destruct list_eq_dec; [reflexivity |]. rewrite <- H. now destruct after.
Qed.

(** X11.  Opening the editor, replacing the text and saving stores exactly
    the text typed as the blueprint and closes the editor with the buffer
    in step; every other field of the story, the suspended handlers and the
    effects issued are as before; and the next chapter request made from
    there carries the saved text as its blueprint. *)
Theorem saved_blueprint_is_used (w : Ui.World) (t : jsstring) :
  Ui.isEditingBlueprint (Ui.app w) = false ->
  truthy (Ui.blueprint (story_of w)) = true ->
  exists w',
    Ui.run_page w (blueprint_rewritten t) = Some w'
    /\ story_of w' = with_blueprint t (story_of w)
    /\ Ui.editableBlueprint (Ui.app w') = t
    /\ Ui.isEditingBlueprint (Ui.app w') = false
    /\ Ui.pending w' = Ui.pending w
    /\ Ui.log w' = Ui.log w
    /\ (Ui.isAutoGenerating (Ui.app w) = false ->
        truthy t = true ->
        Ui.effects (Ui.generateNextPartOfStory (Ui.app w'))
        = [Ui.CallWriteNextChapter
             (Ui.paragraph (story_of w)) t
             (Ui.currentChapter (story_of w) + 1)
             (Ui.image (story_of w))
             (or_else (Ui.currentGuidance (Ui.app w)) Ui.DEFAULT_GUIDANCE)]).
Proof.
  unfold story_of. intros Hed Hplan.
  pose (a1 := Ui.setIsEditingBlueprint true (Ui.app w)).
  pose (w1 := {| Ui.app := a1; Ui.chat := Ui.chat w;
                 Ui.pending := Ui.pending w; Ui.log := Ui.log w |}).
  pose (a2 := Ui.setEditableBlueprint t a1).
  pose (w2 := {| Ui.app := a2; Ui.chat := Ui.chat w;
                 Ui.pending := Ui.pending w; Ui.log := Ui.log w |}).
  pose (a3 := Ui.handleSaveBlueprint a2).
  pose (w3 := {| Ui.app := a3; Ui.chat := Ui.chat w;
                 Ui.pending := Ui.pending w; Ui.log := Ui.log w |}).
  assert (S1 : Ui.step w Ui.ClickBlueprintButton = Some w1).
  { cbn [Ui.step]. unfold Ui.blueprint_button. rewrite Hed.
    now rewrite commit_done_same by reflexivity. }
  assert (S2 : Ui.step w1 (Ui.EditBlueprint t) = Some w2).
  { cbn [Ui.step]. now rewrite commit_done_same by reflexivity. }
  assert (S3 : Ui.step w2 Ui.ClickBlueprintButton = Some w3).
  { cbn [Ui.step]. unfold Ui.blueprint_button, Ui.commit, Ui.done.
    cbn [Ui.app Ui.isEditingBlueprint w2 a2 a1 Ui.setEditableBlueprint
         Ui.setIsEditingBlueprint Ui.next Ui.await Ui.effects Ui.frames_of
         Ui.pending Ui.log Ui.chat].
    rewrite useEffect_blueprint_synced by reflexivity.
    now rewrite !app_nil_r. }
  exists w3. split.
  { unfold blueprint_rewritten. cbn [Ui.run_page].
    assert (O1 : Ui.offered w Ui.ClickBlueprintButton = true) by exact Hplan.
    assert (O2 : Ui.offered w1 (Ui.EditBlueprint t) = true)
      by (unfold Ui.offered; cbn; now rewrite Hplan).
    assert (O3 : Ui.offered w2 Ui.ClickBlueprintButton = true) by exact Hplan.
    now rewrite O1, S1, O2, S2, O3, S3. }
  repeat (split; [reflexivity |]).
  intros Hidle Ht. unfold Ui.generateNextPartOfStory.
  cbn [w3 a3 a2 a1 Ui.app Ui.handleSaveBlueprint Ui.setEditableBlueprint
       Ui.setIsEditingBlueprint Ui.setState Ui.state Ui.isAutoGenerating
       Ui.blueprint Ui.editableBlueprint Ui.paragraph Ui.currentChapter
       Ui.image Ui.currentGuidance].
  now rewrite Hidle, Ht.
Qed.

Lemma saved_blueprint_is_used_witness :
  exists w',
    Ui.run_page (world_after story_begun) (blueprint_rewritten (lit "三章"))
    = Some w'
    /\ Ui.blueprint (story_of w') = lit "三章"
    /\ Ui.effects (Ui.generateNextPartOfStory (Ui.app w'))
       = [Ui.CallWriteNextChapter (lit "起") (lit "三章") 2
            (Some sample_image) Ui.DEFAULT_GUIDANCE].
Proof.
  destruct (saved_blueprint_is_used (world_after story_begun) (lit "三章"))
    as (w' & Hrun & Hstory & _ & _ & _ & _ & Hnext);
    [vm_compute; reflexivity | vm_compute; reflexivity |].
  exists w'. split; [exact Hrun |]. split.
  - now rewrite Hstory.
  - rewrite Hnext; [| vm_compute; reflexivity | vm_compute; reflexivity].
    vm_compute. reflexivity.
Defined.

(** ** The assistant and the guidance of the next chapter *)

(** X12.  When the reply of the assistant arrives, its text (the fixed
    no-answer text when the model returned none) becomes the guidance and
    is never empty, the story is left alone, and the next chapter request
    made from there carries it word for word in place of the default
    guidance.  When the call fails instead, the component state of the
    application, guidance included, is as before. *)
Theorem reply_becomes_guidance
    (w : Ui.World) (n : nat) (t : option jsstring) :
  nth_error (Ui.pending w) n = Some Ui.SendAwaitReply ->
  (exists w',
      Ui.step w (Ui.Resume n (Ui.Response (Ui.Fulfilled t))) = Some w'
      /\ Ui.currentGuidance (Ui.app w') = GeminiService.chatWithStory_result t
      /\ truthy (Ui.currentGuidance (Ui.app w')) = true
      /\ story_of w' = story_of w
      /\ (Ui.isAutoGenerating (Ui.app w) = false ->
          truthy (Ui.blueprint (story_of w)) = true ->
          Ui.effects (Ui.generateNextPartOfStory (Ui.app w'))
          = [Ui.CallWriteNextChapter
               (Ui.paragraph (story_of w)) (Ui.blueprint (story_of w))
               (Ui.currentChapter (story_of w) + 1) (Ui.image (story_of w))
               (GeminiService.chatWithStory_result t)]))
  /\ (exists w',
         Ui.step w (Ui.Resume n (Ui.Response Ui.Rejected)) = Some w'
         /\ Ui.app w' = Ui.app w).
Proof.
  intros Hf. cbn [Ui.step]. rewrite Hf. cbn [Ui.handleSend_resume].
  assert (Hres : truthy (GeminiService.chatWithStory_result t) = true).
  { unfold GeminiService.chatWithStory_result, opt_or_else, or_else.
    destruct t as [[| c s] |]; reflexivity. }
  split; eexists; (split; [reflexivity |]); [| reflexivity].
  unfold story_of.
  cbn [Ui.app Ui.setCurrentGuidance Ui.currentGuidance Ui.state].
  split; [reflexivity |]. split; [exact Hres |]. split; [reflexivity |].
  intros Hidle Hplan. unfold Ui.generateNextPartOfStory.
  cbn [Ui.app Ui.setCurrentGuidance Ui.isAutoGenerating Ui.state
       Ui.currentGuidance].
  rewrite Hidle, Hplan. cbn [orb negb Ui.effects]. unfold or_else.
  now rewrite Hres.
Qed.

Lemma reply_becomes_guidance_witness :
  (exists w',
      Ui.step (world_after question_sent)
        (Ui.Resume 0 (Ui.Response (Ui.Fulfilled (Some (lit "add a storm")))))
      = Some w'
      /\ Ui.currentGuidance (Ui.app w') = lit "add a storm"
      /\ Ui.effects (Ui.generateNextPartOfStory (Ui.app w'))
         = [Ui.CallWriteNextChapter (lit "起") (lit "六章") 2
              (Some sample_image) (lit "add a storm")])
  /\ (exists w',
         Ui.step (world_after question_sent)
           (Ui.Resume 0 (Ui.Response Ui.Rejected))
         = Some w'
         /\ Ui.currentGuidance (Ui.app w') = []).
Proof.
  destruct (reply_becomes_guidance (world_after question_sent) 0
              (Some (lit "add a storm")))
    as [(w1 & H1 & Hg & _ & _ & Hnext) (w2 & H2 & Happ)];
    [vm_compute; reflexivity |].
  split.
  - exists w1. split; [exact H1 |]. split; [rewrite Hg; reflexivity |].
    rewrite Hnext; vm_compute; reflexivity.
  - exists w2. split; [exact H2 |]. rewrite Happ. vm_compute. reflexivity.
Defined.

Lemma handler_keeps_guidance (e : Ui.Event) (a : Ui.App)
    (o : Ui.Outcome Ui.App) :
  app_handler e a = Some o ->
  Ui.currentGuidance (Ui.next o) = Ui.currentGuidance a.
Proof.
  destruct e; try discriminate; intros [= <-]; open_app a; handler_facts.
Qed.

Lemma resume_guidance (f : Ui.Frame) (k : Ui.Wake) (a : Ui.App)
    (o : Ui.Outcome Ui.App) :
  Ui.resume f k a = Some o ->
  Ui.currentGuidance (Ui.next o) = Ui.currentGuidance a
  \/ (Ui.currentGuidance (Ui.next o) = [] /\ f = Ui.UploadAwaitFile).
Proof.
  destruct f, k; try discriminate; intros [= <-]; open_app a; handler_facts.
Qed.

(** X13.  In every session the guidance that steers the next chapter is
    either empty (the default guidance is then used) or the text of an
    assistant message that stands in the chat. *)
Theorem guidance_comes_from_chat (es : list Ui.Event) (w : Ui.World) :
  Ui.run Ui.initialWorld es = Some w ->
  Ui.currentGuidance (Ui.app w) = []
  \/ In {| Ui.role := GeminiService.assistant;
           Ui.content := Ui.currentGuidance (Ui.app w) |}
        (Ui.messages (Ui.chat w)).
Proof.
  intros Hrun.
  apply (run_invariant
           (fun w =>
              Ui.currentGuidance (Ui.app w) = []
              \/ In {| Ui.role := GeminiService.assistant;
                       Ui.content := Ui.currentGuidance (Ui.app w) |}
                    (Ui.messages (Ui.chat w))))
    with (es := es) (w := Ui.initialWorld); [| now left | exact Hrun].
  clear es w Hrun. intros w e w' Hw Hstep.
  destruct (step_messages w w' e Hstep) as (more & Hmore & _).
  assert (Hkept : Ui.currentGuidance (Ui.app w') = Ui.currentGuidance (Ui.app w)
                  -> Ui.currentGuidance (Ui.app w') = []
                     \/ In {| Ui.role := GeminiService.assistant;
                              Ui.content := Ui.currentGuidance (Ui.app w') |}
                           (Ui.messages (Ui.chat w'))).
  { intros ->. destruct Hw as [Hw | Hw]; [now left | right].
    rewrite Hmore. apply in_or_app. now left. }
  destruct (step_cases w w' e Hstep)
    as [(o & Ho & ->) | [(n & k & f & o & -> & Hf & _ & Ho & ->)
       | [(o & _ & ->) | (n & r & -> & Hf & ->)]]].
  - apply Hkept. unfold Ui.commit. cbn [Ui.app].
    rewrite (proj1 (useEffect_blueprint_cells _ _)).
    exact (handler_keeps_guidance e _ o Ho).
  - destruct (resume_guidance f k _ o Ho) as [Hsame | [Hnil _]].
    + apply Hkept. unfold Ui.commit. cbn [Ui.app].
      now rewrite (proj1 (useEffect_blueprint_cells _ _)).
    + left. unfold Ui.commit. cbn [Ui.app].
      now rewrite (proj1 (useEffect_blueprint_cells _ _)).
  - now apply Hkept.
  - destruct r; [| now apply Hkept].
    right. unfold replied. cbn. apply in_or_app. right. now left.
Qed.

Lemma guidance_comes_from_chat_witness :
  In {| Ui.role := GeminiService.assistant; Ui.content := lit "add a storm" |}
     (Ui.messages (Ui.chat (world_after question_answered))).
Proof.
  destruct (guidance_comes_from_chat question_answered
              (world_after question_answered)) as [Hnil | Hin];
    [vm_compute; reflexivity | discriminate Hnil | exact Hin].
Defined.

(** ** The conversation sent to the model *)





(** ** The chat alternates *)

Lemma turns_alternate_snoc (r : GeminiService.Role) (l : list Ui.Message)
    (m : Ui.Message) :
  turns_alternate r (l ++ [m])
  = turns_alternate r l
    && same_role (if Nat.even (length l) then r else other_role r) (Ui.role m).
Proof.
  revert r. induction l as [| x l IH]; intros r.
  - cbn. now rewrite andb_true_r.
  - cbn [app turns_alternate length]. rewrite IH, andb_assoc.
    rewrite Nat.even_succ, <- Nat.negb_even.
    destruct (Nat.even (length l)), r; reflexivity.
Qed.

Lemma reply_pending_means_typing (w : Ui.World) (n : nat) :
  replies_pending w = (if Ui.isTyping (Ui.chat w) then 1 else 0) ->
  nth_error (Ui.pending w) n = Some Ui.SendAwaitReply ->
  Ui.isTyping (Ui.chat w) = true.
Proof.
  intros Hinv Hf.
  pose proof (filter_remove_nth_hit awaiting_reply n _ _ Hf eq_refl) as Hhit.
  fold (replies_pending w) in Hhit. rewrite Hinv in Hhit.
  destruct (Ui.isTyping (Ui.chat w)); [reflexivity | discriminate Hhit].
Qed.

(** X15.  In every session the chat alternates strictly between user and
    assistant, starting with the user; it holds an even number of messages
    exactly while no reply is awaited, so that it then ends with an
    assistant message, and while a reply is awaited it ends with the
    question. *)
Theorem chat_turns_alternate (es : list Ui.Event) (w : Ui.World) :
  Ui.run Ui.initialWorld es = Some w ->
  turns_alternate GeminiService.user (Ui.messages (Ui.chat w)) = true
  /\ Nat.even (length (Ui.messages (Ui.chat w)))
     = negb (Ui.isTyping (Ui.chat w)).
Proof.
  intros Hrun.
  pose (inv := fun w =>
    replies_pending w = (if Ui.isTyping (Ui.chat w) then 1 else 0)
    /\ turns_alternate GeminiService.user (Ui.messages (Ui.chat w)) = true
    /\ Nat.even (length (Ui.messages (Ui.chat w)))
       = negb (Ui.isTyping (Ui.chat w))).
  assert (H : inv w); [| exact (proj2 H)].
  apply (run_invariant inv) with (es := es) (w := Ui.initialWorld);
    [| repeat split | exact Hrun].
  clear es w Hrun. intros w e w' (Hone & Halt & Hpar) Hstep.
  split; [exact (one_reply_step w w' e Hstep Hone) |].
  destruct (step_cases w w' e Hstep)
    as [(o & Ho & ->) | [(n & k & f & o & -> & Hf & _ & Ho & ->)
       | [(o & Ho & ->) | (n & r & -> & Hf & ->)]]].
  - now split.
  - now split.
  - destruct e; try discriminate Ho; injection Ho as <-; [now split |].
    unfold Ui.commit_chat, Ui.handleSend. cbn [Ui.chat].
    destruct (Ui.isTyping (Ui.chat w)) eqn:Hbusy;
      [rewrite orb_true_r; cbn; rewrite Hbusy; now split |].
    rewrite orb_false_r.
    destruct (truthy _); cbn [negb Ui.next Ui.done];
      [| rewrite Hbusy; now split].
    cbn [Ui.messages Ui.isTyping Ui.setIsTyping Ui.setInput Ui.setMessages].
    rewrite turns_alternate_snoc, Halt, length_app, Nat.add_1_r,
      Nat.even_succ, <- Nat.negb_even, Hpar.
    now split.
  - pose proof (reply_pending_means_typing w n Hone Hf) as Hbusy.
    rewrite Hbusy in Hpar. unfold replied.
    destruct r;
      cbn [Ui.handleSend_resume fst snd Ui.chat Ui.messages Ui.isTyping
           Ui.setIsTyping Ui.setMessages];
      rewrite turns_alternate_snoc, Halt, length_app, Nat.add_1_r,
        Nat.even_succ, <- Nat.negb_even, Hpar;
      now split.
Qed.

Lemma chat_turns_alternate_witness :
  turns_alternate GeminiService.user
    (Ui.messages (Ui.chat (world_after question_failed)))
  = true
  /\ Nat.even (length (Ui.messages (Ui.chat (world_after question_failed))))
     = negb (Ui.isTyping (Ui.chat (world_after question_failed))).
Proof.
  apply (chat_turns_alternate question_failed).
  vm_compute. reflexivity.
Defined.

(** ** Generated chapters and the chapters of the narration *)

Lemma dots_then_line (r x : jsstring) :
  dots_then Ui.ZHANG (r ++ LF :: x) = dots_then Ui.ZHANG r.
Proof.
  induction r as [| c r IH]; [reflexivity |].
  cbn [app dots_then]. now rewrite IH.
Qed.

(** Whether the separator pattern matches at the start of a non-empty text
    does not depend on a blank line appended to it. *)
Lemma separator_here_append (a : code_unit) (s x : jsstring) :
  Ui.separator_here ((a :: s) ++ LF :: LF :: x)
  = option_map (fun t => t ++ LF :: LF :: x) (Ui.separator_here (a :: s)).
Proof.
  unfold Ui.separator_here.
  destruct s as [| b [| c r]]; cbn [app option_map].
  - destruct (a =? LF)%N; reflexivity.
  - destruct ((a =? LF)%N && (b =? LF)%N); reflexivity.
  - rewrite dots_then_line.
    destruct ((a =? LF)%N && (b =? LF)%N && ((c =? Ui.DI)%N && _));
      reflexivity.
Qed.

Lemma split_chapters_append (n : nat) (cc np : jsstring) :
  length cc <= n ->
  heading np = true ->
  Ui.split_chapters (cc ++ LF :: LF :: np)
  = Ui.split_chapters cc ++ Ui.split_chapters np.
Proof.
  intros Hlen Hhead. revert cc Hlen.
  induction n as [| n IH]; intros cc Hlen.
  - destruct cc; [| cbn in Hlen; lia].
    cbn [app]. rewrite split_chapters_cons.
    assert (Hsep : Ui.separator_here (LF :: LF :: np) = Some np)
      by now apply separator_here_spec.
    now rewrite Hsep.
  - destruct cc as [| a s1].
    + cbn [app]. rewrite split_chapters_cons.
      assert (Hsep : Ui.separator_here (LF :: LF :: np) = Some np)
        by now apply separator_here_spec.
      now rewrite Hsep.
    + cbn [length] in Hlen.
      change ((a :: s1) ++ LF :: LF :: np) with (a :: s1 ++ LF :: LF :: np).
      rewrite !split_chapters_cons.
      change (a :: s1 ++ LF :: LF :: np) with ((a :: s1) ++ LF :: LF :: np).
      rewrite separator_here_append.
      destruct (Ui.separator_here (a :: s1)) as [t |] eqn:Hsep;
        cbn [option_map].
      * apply separator_here_spec in Hsep as [[= -> ->] _].
        rewrite IH by (cbn in Hlen; lia). reflexivity.
      * rewrite IH by lia.
        pose proof (split_chapters_not_nil s1) as Hne.
        destruct (Ui.split_chapters s1); [now elim Hne | reflexivity].
Qed.

(** X16.  A chapter that the model begins with its heading, as the prompt
    asks, is a chapter of its own for the narration: once the answer is
    committed, the story splits into the chapters of the text the request
    started from, followed by the chapters of the answer. *)
Theorem generated_chapter_is_narrated_separately
    (chapter : N) (currentContent nextPart : jsstring) (a : Ui.App) :
  heading nextPart = true ->
  Ui.split_chapters
    (Ui.paragraph
       (Ui.state
          (Ui.next
             (Ui.generateNextPartOfStory_resume chapter currentContent
                (Ui.Fulfilled (Some nextPart)) a))))
  = Ui.split_chapters currentContent ++ Ui.split_chapters nextPart.
Proof.
  intros Hhead.
  unfold Ui.generateNextPartOfStory_resume, Ui.done, Ui.setIsAutoGenerating,
    Ui.setState.
  cbn [Ui.next Ui.state Ui.paragraph].
  assert (Hres : GeminiService.writeNextChapter_result (Some nextPart)
                 = nextPart)
    by (destruct nextPart; [discriminate Hhead | reflexivity]).
  rewrite Hres.
  exact (split_chapters_append (length currentContent) currentContent
           nextPart (le_n _) Hhead).
Qed.

Lemma generated_chapter_is_narrated_separately_witness :
  Ui.split_chapters
    (Ui.paragraph
       (Ui.state
          (Ui.next
             (Ui.generateNextPartOfStory_resume 2 (lit "起")
                (Ui.Fulfilled (Some (lit "第 2 章：乙"))) Ui.initialApp))))
  = Ui.split_chapters (lit "起") ++ Ui.split_chapters (lit "第 2 章：乙").
Proof.
  apply (generated_chapter_is_narrated_separately 2 (lit "起")
           (lit "第 2 章：乙") Ui.initialApp).
  vm_compute. reflexivity.
Defined.

Lemma count_separators_blank_line (s : jsstring) :
  count_separators (s ++ [LF; LF]) = count_separators s.
Proof.
  induction s as [| a s IH]; [reflexivity |].
  change ((a :: s) ++ [LF; LF]) with (a :: s ++ [LF; LF]).
  cbn [count_separators]. rewrite IH.
  change (a :: s ++ [LF; LF]) with ((a :: s) ++ LF :: LF :: []).
  rewrite separator_here_append.
  now destruct (Ui.separator_here (a :: s)).
Qed.

(** X17.  An answer without text, undefined or empty, is committed like a
    chapter: the counter takes the number asked for, the story gains a
    blank line and nothing else, no error is set and the generation flag
    is cleared; yet the narration finds no chapter more than before. *)
Theorem empty_answer_counts_as_chapter
    (chapter : N) (currentContent : jsstring) (t : option jsstring)
    (a : Ui.App) :
  GeminiService.writeNextChapter_result t = [] ->
  Ui.currentChapter
    (Ui.state
       (Ui.next
          (Ui.generateNextPartOfStory_resume chapter currentContent
             (Ui.Fulfilled t) a)))
  = chapter
  /\ Ui.paragraph
       (Ui.state
          (Ui.next
             (Ui.generateNextPartOfStory_resume chapter currentContent
                (Ui.Fulfilled t) a)))
     = currentContent ++ [LF; LF]
  /\ Ui.error
       (Ui.state
          (Ui.next
             (Ui.generateNextPartOfStory_resume chapter currentContent
                (Ui.Fulfilled t) a)))
     = Ui.error (Ui.state a)
  /\ Ui.isAutoGenerating
       (Ui.next
          (Ui.generateNextPartOfStory_resume chapter currentContent
             (Ui.Fulfilled t) a))
     = false
  /\ length (Ui.split_chapters (currentContent ++ [LF; LF]))
     = length (Ui.split_chapters currentContent).
Proof.
  intros Hempty.
  unfold Ui.generateNextPartOfStory_resume, Ui.done, Ui.setIsAutoGenerating,
    Ui.setState.
  cbn [Ui.next Ui.state Ui.paragraph Ui.currentChapter Ui.error
       Ui.isAutoGenerating].
  rewrite Hempty.
  repeat (split; [reflexivity |]).
  now rewrite !split_chapters_count, count_separators_blank_line.
Qed.

Lemma empty_answer_counts_as_chapter_witness :
  Ui.currentChapter
    (Ui.state
       (Ui.next
          (Ui.generateNextPartOfStory_resume 2 (lit "起") (Ui.Fulfilled None)
             Ui.initialApp)))
  = 2%N
  /\ length (Ui.split_chapters (lit "起" ++ [LF; LF]))
     = length (Ui.split_chapters (lit "起")).
Proof.
  destruct (empty_answer_counts_as_chapter 2 (lit "起") None Ui.initialApp)
    as (Hch & _ & _ & _ & Hlen); [reflexivity |].
  split; [exact Hch | exact Hlen].
Defined.

(** ** Narration: failures on the way to a playback *)

(** X18.  A narration that cannot get its audio context, or whose audio
    cannot be decoded, ends there: the fixed narration error is shown, the
    failure is logged, and no request, playback or suspended loop is left
    behind.  Without an audio context the playing state is reset at once;
    after a failed decoding it is reset if the narration is still the
    current one, and left as the stop control set it otherwise. *)
Theorem narration_local_failures :
  (forall a,
      Ui.isPlaying a = false ->
      truthy (Ui.paragraph (Ui.state a)) = true ->
      Ui.audioContextRef a = false ->
      Ui.error (Ui.state (Ui.next (Ui.handleReadFullStory false a)))
      = Some Ui.READ_ERROR
      /\ Ui.isPlaying (Ui.next (Ui.handleReadFullStory false a)) = false
      /\ Ui.isReadingRef (Ui.next (Ui.handleReadFullStory false a)) = false
      /\ Ui.playingChapterIndex (Ui.next (Ui.handleReadFullStory false a))
         = None
      /\ Ui.effects (Ui.handleReadFullStory false a) = [Ui.ConsoleError]
      /\ Ui.await (Ui.handleReadFullStory false a) = None)
  /\ (forall chs i audio a,
         Ui.error
           (Ui.state (Ui.next (Ui.read_after_decode chs i audio Ui.Rejected a)))
         = Some Ui.READ_ERROR
         /\ Ui.effects (Ui.read_after_decode chs i audio Ui.Rejected a)
            = [Ui.ConsoleError]
         /\ Ui.await (Ui.read_after_decode chs i audio Ui.Rejected a) = None
         /\ Ui.isReadingRef
              (Ui.next (Ui.read_after_decode chs i audio Ui.Rejected a))
            = false
         /\ Ui.isPlaying
              (Ui.next (Ui.read_after_decode chs i audio Ui.Rejected a))
            = (if Ui.isReadingRef a then false else Ui.isPlaying a)
         /\ Ui.playingChapterIndex
              (Ui.next (Ui.read_after_decode chs i audio Ui.Rejected a))
            = (if Ui.isReadingRef a then None else Ui.playingChapterIndex a)).
Proof.
  split.
  - intros a Hidle Hstory Hctx. unfold Ui.handleReadFullStory.
    rewrite Hidle, Hstory. cbn [negb].
    cbn [Ui.audioContextRef Ui.set_isReadingRef Ui.setIsPlaying].
    rewrite Hctx. repeat split.
  - intros chs i audio a. unfold Ui.read_after_decode, Ui.read_catch,
      Ui.read_finally.
    cbn [Ui.next Ui.effects Ui.await Ui.isReadingRef Ui.setState].
    destruct (Ui.isReadingRef a) eqn:Hr; repeat split; exact Hr.
Qed.

Lemma narration_local_failures_witness :
  Ui.error (Ui.state (Ui.next (Ui.handleReadFullStory false app_with_story)))
  = Some Ui.READ_ERROR
  /\ Ui.isPlaying (Ui.next (Ui.handleReadFullStory false app_with_story))
     = false.
Proof.
  destruct (proj1 narration_local_failures app_with_story)
    as (Herr & Hplay & _); try reflexivity.
  split; [exact Herr | exact Hplay].
Defined.

(** ** The error message *)

Lemma handler_keeps_error (e : Ui.Event) (a : Ui.App)
    (o : Ui.Outcome Ui.App) :
  app_handler e a = Some o ->
  Ui.error (Ui.state (Ui.next o)) = None ->
  Ui.error (Ui.state a) = None \/ e = Ui.ClickDismissError.
Proof.
  destruct e; try discriminate; intros [= <-]; open_app a; handler_facts;
    try discriminate.
Qed.

Lemma resume_keeps_error (f : Ui.Frame) (k : Ui.Wake) (a : Ui.App)
    (o : Ui.Outcome Ui.App) :
  Ui.resume f k a = Some o ->
  Ui.error (Ui.state (Ui.next o)) = None ->
  Ui.error (Ui.state a) = None \/ f = Ui.UploadAwaitFile.
Proof.
  destruct f, k; try discriminate; intros [= <-]; open_app a; handler_facts;
    try discriminate.
Qed.

(** X19.  An error message, once shown, stays until its button is pressed
    or a new image arrives: no other turn of the event loop clears it; in
    particular a later success of the operation that failed does not. *)
Theorem error_stays_until_dismissed (w w' : Ui.World) (e : Ui.Event) :
  Ui.step w e = Some w' ->
  Ui.error (story_of w) <> None ->
  Ui.error (story_of w') = None ->
  e = Ui.ClickDismissError
  \/ exists n b,
       e = Ui.Resume n (Ui.FileLoaded b)
       /\ nth_error (Ui.pending w) n = Some Ui.UploadAwaitFile.
Proof.
  intros Hstep Hshown Hgone. unfold story_of in *.
  destruct (step_cases w w' e Hstep)
    as [(o & Ho & ->) | [(n & k & f & o & -> & Hf & _ & Ho & ->)
       | [(o & _ & ->) | (n & r & -> & Hf & ->)]]].
  - unfold Ui.commit in Hgone. cbn [Ui.app] in Hgone.
    rewrite useEffect_blueprint_state in Hgone.
    destruct (handler_keeps_error e _ o Ho Hgone) as [H | H];
      [now elim Hshown | now left].
  - unfold Ui.commit in Hgone. cbn [Ui.app] in Hgone.
    rewrite useEffect_blueprint_state in Hgone.
    destruct (resume_keeps_error f k _ o Ho Hgone) as [H | ->];
      [now elim Hshown |].
    right. destruct k; try discriminate Ho. now exists n, base64.
  - now elim Hshown.
  - unfold replied in Hgone. cbn [Ui.app] in Hgone.
    destruct (snd _); now elim Hshown.
Qed.

Lemma error_stays_until_dismissed_witness :
  Ui.ClickDismissError = Ui.ClickDismissError
  \/ exists n b,
       Ui.ClickDismissError = Ui.Resume n (Ui.FileLoaded b)
       /\ nth_error (Ui.pending (world_after analysis_failed)) n
          = Some Ui.UploadAwaitFile.
Proof.
  apply (error_stays_until_dismissed (world_after analysis_failed)
           (world_after (analysis_failed ++ [Ui.ClickDismissError]))).
  - vm_compute. reflexivity.
  - vm_compute. discriminate.
  - vm_compute. reflexivity.
Defined.

(** ** Narration: every request within bounds *)

Section LogInvariant.

Variable allowed : Ui.Effect -> bool.

Hypothesis allowed_chat :
  forall h m i, allowed (Ui.CallChatWithStory h m i) = true.
Hypothesis allowed_console : allowed Ui.ConsoleError = true.
Hypothesis handler_allowed :
  forall e a o,
    app_handler e a = Some o -> forallb allowed (Ui.effects o) = true.
Hypothesis resume_allowed :
  forall f k a o,
    Ui.resume f k a = Some o -> forallb allowed (Ui.effects o) = true.

Lemma log_step (w w' : Ui.World) (e : Ui.Event) :
  forallb allowed (Ui.log w) = true ->
  Ui.step w e = Some w' ->
  forallb allowed (Ui.log w') = true.
Proof.
  intros Hlog Hstep.
  destruct (step_cases w w' e Hstep)
    as [(o & Ho & ->) | [(n & k & f & o & -> & Hf & _ & Ho & ->)
       | [(o & Ho & ->) | (n & r & -> & Hf & ->)]]].
  - unfold Ui.commit. cbn [Ui.log].
    now rewrite forallb_app, Hlog, (handler_allowed e _ o Ho).
  - unfold Ui.commit, Ui.unplug. cbn [Ui.log].
    now rewrite forallb_app, Hlog, (resume_allowed f k _ o Ho).
  - unfold Ui.commit_chat. cbn [Ui.log]. rewrite forallb_app, Hlog.
    destruct e; try discriminate Ho; injection Ho as <-; [reflexivity |].
    unfold Ui.handleSend. destruct (_ || _); [reflexivity |].
    cbn. now rewrite allowed_chat.
  - unfold replied. cbn [Ui.log]. rewrite forallb_app, Hlog.
    destruct r; [reflexivity |]. cbn. now rewrite allowed_console.
Qed.

Lemma log_run (es : list Ui.Event) (w w' : Ui.World) :
  forallb allowed (Ui.log w) = true ->
  Ui.run w es = Some w' ->
  forallb allowed (Ui.log w') = true.
Proof.
  intros Hlog Hrun.
  exact (run_invariant (fun w => forallb allowed (Ui.log w) = true)
           (fun w e w' H => log_step w w' e H) es w w' Hlog Hrun).
Qed.

End LogInvariant.

Lemma read_loop_in_bounds (chs : list jsstring) (i : nat) (a : Ui.App) :
  forallb speech_in_bounds (Ui.effects (Ui.read_loop chs i a)) = true.
Proof.
  unfold Ui.read_loop.
  destruct (nth_error chs i) as [ch |]; [| reflexivity].
  destruct (negb (Ui.isReadingRef a)); [reflexivity |].
  cbn [Ui.effects forallb speech_in_bounds].
  change 1500%Z with (Z.of_nat 1500). rewrite slice_prefix, length_firstn.
  rewrite andb_true_r. apply andb_true_iff. split.
  - apply Nat.leb_le. lia.
  - unfold Ui.voice_for, known_voice.
    destruct (Nat.even i); repeat destruct list_eq_dec; congruence.
Qed.

(** X20.  In every session, whatever is started, stopped or restarted,
    each speech-synthesis request asks for one of the two voices Kore and
    Puck and carries at most 1500 code units of text. *)
Theorem speech_requests_within_bounds
    (es : list Ui.Event) (w : Ui.World) (text voice : jsstring) :
  Ui.run Ui.initialWorld es = Some w ->
  In (Ui.CallGenerateSpeech text voice) (Ui.log w) ->
  (voice = Ui.KORE \/ voice = Ui.PUCK) /\ length text <= 1500.
Proof.
  intros Hrun Hin.
  assert (Hall : forallb speech_in_bounds (Ui.log w) = true).
  { apply (log_run speech_in_bounds) with (es := es) (w := Ui.initialWorld);
      try exact Hrun; try reflexivity.
    - intros e a o Ho.
      destruct e; try discriminate Ho; injection Ho as <-;
        try reflexivity.
      + unfold Ui.handleImageUpload. now destruct file.
      + unfold Ui.generateNextPartOfStory. now destruct (_ || _).
      + unfold Ui.handleReadFullStory. rewrite stopAudio_spec.
        unfold stop_current.
        destruct (Ui.isPlaying a);
          [cbn [Ui.effects]; now destruct (Ui.sourceRef a) |].
        destruct (negb _); [reflexivity |].
        destruct (Ui.audioContextRef _); [apply read_loop_in_bounds |].
        destruct contextAvailable; [apply read_loop_in_bounds | reflexivity].
    - intros f k a o Ho.
      destruct f, k; try discriminate Ho; injection Ho as <-.
      + unfold Ui.reader_onload. rewrite stopAudio_spec. unfold stop_current.
        cbn [Ui.sourceRef Ui.setCurrentGuidance Ui.setState Ui.effects].
        now destruct (Ui.sourceRef a).
      + unfold Ui.reader_onload_resume. now destruct r.
      + reflexivity.
      + unfold Ui.read_after_speech, Ui.read_catch. destruct r; [| reflexivity].
        now destruct (negb _).
      + unfold Ui.read_after_decode, Ui.read_catch. now destruct r.
      + unfold Ui.read_after_ended. destruct (_ && _); [reflexivity |].
        apply read_loop_in_bounds.
      + apply read_loop_in_bounds. }
  pose proof (proj1 (forallb_forall _ _) Hall _ Hin) as Hok.
  cbn [speech_in_bounds] in Hok. apply andb_true_iff in Hok as [Hlen Hvoice].
  split; [| now apply Nat.leb_le].
  unfold known_voice in Hvoice.
  destruct (list_eq_dec N.eq_dec voice Ui.KORE); [now left |].
  destruct (list_eq_dec N.eq_dec voice Ui.PUCK); [now right | discriminate].
Qed.

Lemma speech_requests_within_bounds_witness :
  (lit "Puck" = Ui.KORE \/ lit "Puck" = Ui.PUCK)
  /\ length (lit "第 2 章：乙") <= 1500.
Proof.
  apply (speech_requests_within_bounds second_chapter_requested
           (world_after second_chapter_requested)).
  - vm_compute. reflexivity.
  - vm_compute. repeat (first [left; reflexivity | right]).
Defined.

(** ** The blueprint between upload and save *)

Lemma handler_keeps_blueprint (e : Ui.Event) (a : Ui.App)
    (o : Ui.Outcome Ui.App) :
  app_handler e a = Some o ->
  Ui.blueprint (Ui.state (Ui.next o)) = Ui.blueprint (Ui.state a)
  \/ (e = Ui.ClickBlueprintButton /\ Ui.isEditingBlueprint a = true
      /\ Ui.blueprint (Ui.state (Ui.next o)) = Ui.editableBlueprint a).
Proof.
  destruct e; try discriminate; intros [= <-]; open_app a; handler_facts.
Qed.

Lemma resume_keeps_blueprint (f : Ui.Frame) (k : Ui.Wake) (a : Ui.App)
    (o : Ui.Outcome Ui.App) :
  Ui.resume f k a = Some o ->
  Ui.blueprint (Ui.state (Ui.next o)) = Ui.blueprint (Ui.state a)
  \/ uploading f = true.
Proof.
  destruct f, k; try discriminate; intros [= <-]; open_app a; handler_facts.
Qed.

(** X21.  The stored blueprint changes only when an upload frame is
    resumed (the reset on a new image, the plan of the first analysis) or
    when the save button closes the editor, and then it becomes the text
    of the edit buffer: chapter generation, narration, the chat and every
    other control leave it as it is. *)
Theorem blueprint_changes_only_by_upload_or_save
    (w w' : Ui.World) (e : Ui.Event) :
  Ui.step w e = Some w' ->
  Ui.blueprint (story_of w') = Ui.blueprint (story_of w)
  \/ (e = Ui.ClickBlueprintButton
      /\ Ui.isEditingBlueprint (Ui.app w) = true
      /\ Ui.blueprint (story_of w') = Ui.editableBlueprint (Ui.app w))
  \/ exists n k f,
       e = Ui.Resume n k /\ nth_error (Ui.pending w) n = Some f
       /\ uploading f = true.
Proof.
  intros Hstep. unfold story_of.
  destruct (step_cases w w' e Hstep)
    as [(o & Ho & ->) | [(n & k & f & o & -> & Hf & _ & Ho & ->)
       | [(o & _ & ->) | (n & r & -> & Hf & ->)]]].
  - unfold Ui.commit. cbn [Ui.app]. rewrite useEffect_blueprint_state.
    destruct (handler_keeps_blueprint e _ o Ho) as [H | H];
      [now left | right; now left].
  - unfold Ui.commit. cbn [Ui.app]. rewrite useEffect_blueprint_state.
    destruct (resume_keeps_blueprint f k _ o Ho) as [H | H]; [now left |].
    right; right. now exists n, k, f.
  - now left.
  - left. unfold replied. cbn [Ui.app]. now destruct (snd _).
Qed.

Lemma blueprint_changes_only_by_upload_or_save_witness :
  Ui.blueprint
    (story_of (world_after (generation_in_flight
                            ++ [Ui.Resume 0 (reply "第 2 章：乙")])))
  = Ui.blueprint (story_of (world_after generation_in_flight)).
Proof.
  destruct (blueprint_changes_only_by_upload_or_save
              (world_after generation_in_flight)
              (world_after (generation_in_flight
                            ++ [Ui.Resume 0 (reply "第 2 章：乙")]))
              (Ui.Resume 0 (reply "第 2 章：乙")))
    as [Hsame | [[Hsave _] | (n & k & f & He & Hf & Hup)]].
  - vm_compute. reflexivity.
  - exact Hsame.
  - discriminate Hsave.
  - injection He as <- <-. vm_compute in Hf. injection Hf as <-.
    discriminate Hup.
Defined.

(** ** Undisturbed generation, on a session *)

Lemma undisturbed_story_grows_witness :
  exists more,
    Ui.paragraph
      (story_of (world_after (generation_in_flight
                              ++ [Ui.Resume 0 (reply "第 2 章：乙")])))
    = Ui.paragraph (story_of (world_after story_begun)) ++ more.
Proof.
  apply (undisturbed_story_grows
           [Ui.ClickGenerate; Ui.Resume 0 (reply "第 2 章：乙")]
           (world_after story_begun)
           (world_after (generation_in_flight
                         ++ [Ui.Resume 0 (reply "第 2 章：乙")])));
    vm_compute; reflexivity.
Defined.

Lemma story_changes_only_by_upload_or_generation_witness :
  (Ui.paragraph (story_of (world_after narration_started))
   = Ui.paragraph (story_of (world_after story_begun))
   /\ Ui.currentChapter (story_of (world_after narration_started))
      = Ui.currentChapter (story_of (world_after story_begun)))
  \/ exists n k f,
       Ui.ClickRead true = Ui.Resume n k
       /\ nth_error (Ui.pending (world_after story_begun)) n = Some f
       /\ writes_story f = true.
Proof.
  apply (story_changes_only_by_upload_or_generation
           (world_after story_begun) (world_after narration_started)
           (Ui.ClickRead true)).
  vm_compute. reflexivity.
Defined.

(** ** The article: paragraphs and headings *)

Lemma split_paragraphs_cons (a : code_unit) (s1 : jsstring) :
  Ui.split_paragraphs (a :: s1)
  = match s1 with
    | b :: s2 =>
      if (a =? LF)%N && (b =? LF)%N then [] :: Ui.split_paragraphs s2
      else match Ui.split_paragraphs s1 with
           | piece :: rest => (a :: piece) :: rest
           | [] => [[a]]
           end
    | [] => [[a]]
    end.
Proof. destruct s1; reflexivity. Qed.

Lemma split_paragraphs_not_nil (s : jsstring) : Ui.split_paragraphs s <> [].
Proof.
  destruct s as [| a s1]; [discriminate |].
  rewrite split_paragraphs_cons. destruct s1 as [| b s2]; [discriminate |].
  destruct (_ && _); [discriminate |].
  destruct (Ui.split_paragraphs (b :: s2)); discriminate.
Qed.

(** The pieces, joined by blank lines, are the text; no piece holds a
    blank line; and the first piece of a text is empty or starts as the
    text does. *)
Lemma split_paragraphs_spec (n : nat) (s : jsstring) :
  length s <= n ->
  join_chapters (Ui.split_paragraphs s) = s
  /\ Forall (fun p => index_of [LF; LF] p = None) (Ui.split_paragraphs s)
  /\ (forall a s1, s = a :: s1 ->
        hd [] (Ui.split_paragraphs s) = []
        \/ exists p, hd [] (Ui.split_paragraphs s) = a :: p).
Proof.
  revert s. induction n as [| n IH]; intros s Hlen.
  - destruct s; [| cbn in Hlen; lia]. cbn.
    split; [reflexivity |]. split; [now constructor | discriminate].
  - destruct s as [| a s1].
    { cbn. split; [reflexivity |]. split; [now constructor | discriminate]. }
    cbn [length] in Hlen. rewrite split_paragraphs_cons.
    destruct s1 as [| b s2].
    { cbn. split; [reflexivity |]. split.
      - constructor; [| constructor].
        cbn [index_of starts_with option_map]. now rewrite andb_false_r.
      - intros ? ? [= <- <-]. right. now exists []. }
    destruct ((a =? LF)%N && (b =? LF)%N) eqn:Hsep.
    + apply andb_true_iff in Hsep as [Ha Hb].
      apply N.eqb_eq in Ha, Hb. subst a b.
      assert (H2 : length s2 <= n) by (cbn in Hlen; lia).
      destruct (IH s2 H2) as (Hjoin & Hfree & _).
      pose proof (split_paragraphs_not_nil s2) as Hne.
      split; [| split].
      * destruct (Ui.split_paragraphs s2) as [| p rest]; [now elim Hne |].
        change (join_chapters ([] :: p :: rest))
          with (LF :: LF :: join_chapters (p :: rest)).
        now rewrite Hjoin.
      * constructor; [reflexivity | exact Hfree].
      * intros ? ? _. now left.
    + assert (H1 : length (b :: s2) <= n) by (cbn in Hlen |- *; lia).
      destruct (IH (b :: s2) H1) as (Hjoin & Hfree & Hhead).
      pose proof (split_paragraphs_not_nil (b :: s2)) as Hne.
      destruct (Ui.split_paragraphs (b :: s2)) as [| p rest];
        [now elim Hne |].
      cbn [hd] in Hhead. split; [| split].
      * now rewrite join_chapters_extend, Hjoin.
      * inversion Hfree as [| ? ? Hp Hrest]; subst.
        constructor; [| exact Hrest].
        rewrite index_of_cons, Hp.
        destruct (Hhead b s2 eq_refl) as [-> | [p' ->]].
        -- cbn. now rewrite andb_false_r.
        -- cbn [starts_with]. rewrite (N.eqb_sym LF a), (N.eqb_sym LF b).
           destruct (a =? LF)%N, (b =? LF)%N; try reflexivity.
           discriminate Hsep.
      * intros ? ? [= <- <-]. right. now exists p.
Qed.

(** X24.  The article shows the whole story and cuts it at blank lines:
    the paragraphs, joined by two line feeds, give the story text back,
    and no paragraph holds two line feeds in a row. *)
Theorem article_shows_the_story (paragraph : jsstring) :
  join_chapters (map snd (Ui.article paragraph)) = paragraph
  /\ Forall (fun p => index_of [LF; LF] p = None)
       (map snd (Ui.article paragraph)).
Proof.
  unfold Ui.article. rewrite map_map. cbn [snd]. rewrite map_id.
  destruct (split_paragraphs_spec (length paragraph) paragraph (le_n _))
    as (Hjoin & Hfree & _).
  now split.
Qed.

Lemma ends_with_LF_cons (a b : code_unit) (s : jsstring) :
  ends_with_LF (a :: b :: s) = ends_with_LF (b :: s).
Proof. reflexivity. Qed.

Lemma split_paragraphs_append (n : nat) (cc np : jsstring) :
  length cc <= n ->
  ends_with_LF cc = false ->
  Ui.split_paragraphs (cc ++ LF :: LF :: np)
  = Ui.split_paragraphs cc ++ Ui.split_paragraphs np.
Proof.
  revert cc. induction n as [| n IH]; intros cc Hlen Hend.
  - destruct cc; [| cbn in Hlen; lia].
    cbn [app]. rewrite split_paragraphs_cons. now rewrite N.eqb_refl.
  - destruct cc as [| a [| b s2]].
    + cbn [app]. rewrite split_paragraphs_cons. now rewrite N.eqb_refl.
    + cbn [ends_with_LF] in Hend. cbn [app].
      rewrite split_paragraphs_cons, Hend. cbn [andb].
      rewrite split_paragraphs_cons, N.eqb_refl. reflexivity.
    + rewrite ends_with_LF_cons in Hend.
      change ((a :: b :: s2) ++ LF :: LF :: np)
        with (a :: b :: s2 ++ LF :: LF :: np).
      rewrite (split_paragraphs_cons a (b :: s2 ++ LF :: LF :: np)).
      rewrite (split_paragraphs_cons a (b :: s2)).
      destruct ((a =? LF)%N && (b =? LF)%N) eqn:Hsep.
      * destruct s2 as [| c s3].
        { apply andb_true_iff in Hsep as [_ Hb].
          cbn [ends_with_LF] in Hend. now rewrite Hb in Hend. }
        assert (Hend2 : ends_with_LF (c :: s3) = false) by exact Hend.
        rewrite IH by (cbn in Hlen |- *; try lia; exact Hend2).
        reflexivity.
      * change (b :: s2 ++ LF :: LF :: np)
          with ((b :: s2) ++ LF :: LF :: np).
        rewrite IH by (cbn in Hlen |- *; try lia; exact Hend).
        pose proof (split_paragraphs_not_nil (b :: s2)) as Hne.
        destruct (Ui.split_paragraphs (b :: s2)); [now elim Hne | reflexivity].
Qed.

(** X25.  When a generation started from a story that does not end in a
    line feed and the model begins its chapter with 第, the article after
    the commit is the article before followed by the paragraphs of the
    answer, and the first of these is rendered as a chapter heading. *)
Theorem generated_heading_is_highlighted
    (chapter : N) (currentContent nextPart : jsstring) (a : Ui.App) :
  ends_with_LF currentContent = false ->
  starts_with [Ui.DI] nextPart = true ->
  Ui.article
    (Ui.paragraph
       (Ui.state
          (Ui.next
             (Ui.generateNextPartOfStory_resume chapter currentContent
                (Ui.Fulfilled (Some nextPart)) a))))
  = Ui.article currentContent ++ Ui.article nextPart
  /\ exists p rest, Ui.article nextPart = (true, p) :: rest.
Proof.
  intros Hend Hhead.
  unfold Ui.generateNextPartOfStory_resume, Ui.done, Ui.setIsAutoGenerating,
    Ui.setState.
  cbn [Ui.next Ui.state Ui.paragraph].
  assert (Hres : GeminiService.writeNextChapter_result (Some nextPart)
                 = nextPart)
    by (destruct nextPart; [discriminate Hhead | reflexivity]).
  rewrite Hres. unfold Ui.article. split.
  - change (currentContent ++ [LF; LF] ++ nextPart)
      with (currentContent ++ LF :: LF :: nextPart).
    rewrite (split_paragraphs_append (length currentContent) currentContent
               nextPart (le_n _) Hend).
    now rewrite map_app.
  - destruct nextPart as [| c r]; [discriminate Hhead |].
    destruct (split_paragraphs_spec (length (c :: r)) (c :: r) (le_n _))
      as (_ & _ & Hfirst).
    pose proof (split_paragraphs_not_nil (c :: r)) as Hne.
    destruct (Ui.split_paragraphs (c :: r)) as [| p rest] eqn:Hsplit;
      [now elim Hne |].
    cbn [hd] in Hfirst. cbn [map].
    destruct (Hfirst c r eq_refl) as [-> | [p' ->]].
    + rewrite split_paragraphs_cons in Hsplit.
      cbn [starts_with] in Hhead. rewrite andb_true_r in Hhead.
      apply N.eqb_eq in Hhead. subst c.
      destruct r as [| b s2]; [discriminate Hsplit |].
      change (Ui.DI =? LF)%N with false in Hsplit. cbn [andb] in Hsplit.
      destruct (Ui.split_paragraphs (b :: s2)); discriminate Hsplit.
    + cbn [starts_with] in Hhead |- *. rewrite Hhead.
      eexists. eexists. reflexivity.
Qed.

Lemma generated_heading_is_highlighted_witness :
  Ui.article
    (Ui.paragraph
       (Ui.state
          (Ui.next
             (Ui.generateNextPartOfStory_resume 2 (lit "起")
                (Ui.Fulfilled (Some (lit "第 2 章：乙"))) Ui.initialApp))))
  = [(false, lit "起"); (true, lit "第 2 章：乙")].
Proof.
  destruct (generated_heading_is_highlighted 2 (lit "起") (lit "第 2 章：乙")
              Ui.initialApp) as [Harticle _];
    [reflexivity | reflexivity |].
  rewrite Harticle. vm_compute. reflexivity.
Defined.

(** A chapter committed behind a story that ends in a line feed is cut one
    code unit early: its first paragraph starts with the line feed left
    over and is not rendered as a heading, though the narration still
    finds the chapter. *)
Example heading_after_trailing_line_feed :
  Ui.article (lit "起" ++ [LF] ++ [LF; LF] ++ lit "第 2 章：乙")
  = [(false, lit "起"); (false, [LF] ++ lit "第 2 章：乙")]
  /\ Ui.split_chapters (lit "起" ++ [LF] ++ [LF; LF] ++ lit "第 2 章：乙")
     = [lit "起" ++ [LF]; lit "第 2 章：乙"].
Proof. split; vm_compute; reflexivity. Qed.

(** ** The stop signal is never read *)

Lemma useEffect_blueprint_stopSignal (v : bool) (before after : Ui.App) :
  Ui.set_stopSignal v (Ui.useEffect_blueprint before after)
  = Ui.set_stopSignal v
      (Ui.useEffect_blueprint (Ui.set_stopSignal v before)
         (Ui.set_stopSignal v after)).
Proof.
  unfold Ui.useEffect_blueprint.
  cbn [Ui.set_stopSignal Ui.state].
  now destruct list_eq_dec.
Qed.

Lemma commit_without_stop_signal (w : Ui.World) (o o' : Ui.Outcome Ui.App) :
  Ui.set_stopSignal false (Ui.next o) = Ui.set_stopSignal false (Ui.next o') ->
  Ui.effects o = Ui.effects o' ->
  Ui.await o = Ui.await o' ->
  without_stop_signal (Ui.commit w o)
  = without_stop_signal (Ui.commit (without_stop_signal w) o').
Proof.
  intros Hnext Hfx Hk. unfold without_stop_signal, Ui.commit.
  cbn [Ui.app Ui.chat Ui.pending Ui.log]. rewrite Hfx, Hk. f_equal.
  rewrite useEffect_blueprint_stopSignal.
  rewrite (useEffect_blueprint_stopSignal false
             (Ui.set_stopSignal false (Ui.app w)) (Ui.next o')).
  now rewrite Hnext.
Qed.

Lemma handler_ignores_stop_signal (e : Ui.Event) (a : Ui.App)
    (o : Ui.Outcome Ui.App) :
  app_handler e a = Some o ->
  exists o',
    app_handler e (Ui.set_stopSignal false a) = Some o'
    /\ Ui.set_stopSignal false (Ui.next o) = Ui.set_stopSignal false (Ui.next o')
    /\ Ui.effects o = Ui.effects o'
    /\ Ui.await o = Ui.await o'.
Proof.
  destruct e; try discriminate; intros [= <-]; eexists;
    (split; [reflexivity |]); open_app a; handler_facts.
Qed.

Lemma resume_ignores_stop_signal (f : Ui.Frame) (k : Ui.Wake) (a : Ui.App) :
  match Ui.resume f k a, Ui.resume f k (Ui.set_stopSignal false a) with
  | Some o, Some o' =>
    Ui.set_stopSignal false (Ui.next o) = Ui.set_stopSignal false (Ui.next o')
    /\ Ui.effects o = Ui.effects o'
    /\ Ui.await o = Ui.await o'
  | None, None => True
  | _, _ => False
  end.
Proof.
  destruct f, k; cbn [Ui.resume]; try exact I; open_app a; handler_facts.
Qed.

Lemma step_ignores_stop_signal (w : Ui.World) (e : Ui.Event) :
  option_map without_stop_signal (Ui.step w e)
  = option_map without_stop_signal (Ui.step (without_stop_signal w) e).
Proof.
  destruct (app_handler e (Ui.app w)) as [o |] eqn:Ho.
  - destruct (handler_ignores_stop_signal e _ o Ho)
      as (o' & Ho' & Hnext & Hfx & Hk).
    assert (H1 : Ui.step w e = Some (Ui.commit w o))
      by (destruct e; try discriminate Ho; injection Ho as <-; reflexivity).
    assert (H2 : Ui.step (without_stop_signal w) e
                 = Some (Ui.commit (without_stop_signal w) o'))
      by (destruct e; try discriminate Ho'; injection Ho' as <-; reflexivity).
    rewrite H1, H2. cbn [option_map].
    now rewrite (commit_without_stop_signal w o o' Hnext Hfx Hk).
  - destruct e; try discriminate Ho; cbn [Ui.step]; try reflexivity.
    cbn [without_stop_signal Ui.pending Ui.app Ui.chat].
    destruct (nth_error (Ui.pending w) n) as [f |]; [| reflexivity].
    destruct f;
      try (match goal with
           | |- context [Ui.resume ?f k (Ui.app w)] =>
             pose proof (resume_ignores_stop_signal f k (Ui.app w)) as Hr;
             destruct (Ui.resume f k (Ui.app w)) as [o |];
             destruct (Ui.resume f k (Ui.set_stopSignal false (Ui.app w)))
               as [o' |];
             try contradiction; [| reflexivity];
             destruct Hr as (Hnext & Hfx & Hk); cbn [option_map];
             exact (f_equal Some
                      (commit_without_stop_signal (Ui.unplug n w) o o'
                         Hnext Hfx Hk))
           end).
    destruct k; try reflexivity.
    destruct (Ui.handleSend_resume r (Ui.chat w)) as [[c fx] [resp |]];
      reflexivity.
Qed.

(** X26.  The stop signal is written (by the stop button and at the start
    of a generation) but never read: two sessions that differ only in the
    stop signal they start with go through the same events with the same
    effects, the same suspended handlers and the same state, the stop
    signal apart.  Pressing the stop button therefore interrupts
    nothing. *)
Theorem stop_signal_is_never_read (es : list Ui.Event) (w : Ui.World) :
  option_map without_stop_signal (Ui.run w es)
  = option_map without_stop_signal (Ui.run (without_stop_signal w) es).
Proof.
  assert (H : forall es w1 w2,
             without_stop_signal w1 = without_stop_signal w2 ->
             option_map without_stop_signal (Ui.run w1 es)
             = option_map without_stop_signal (Ui.run w2 es)).
  { clear es w. induction es as [| e es IH]; intros w1 w2 Hsame.
    - cbn. now rewrite Hsame.
    - cbn [Ui.run].
      pose proof (step_ignores_stop_signal w1 e) as H1.
      pose proof (step_ignores_stop_signal w2 e) as H2.
      rewrite Hsame in H1. rewrite <- H2 in H1.
      destruct (Ui.step w1 e) as [v1 |], (Ui.step w2 e) as [v2 |];
        try discriminate H1; [| reflexivity].
      apply IH. cbn [option_map] in H1. congruence. }
  apply H. now destruct w as [[] ? ? ?].
Qed.

(** ** The label of the narration button *)

Ltac label_facts :=
  unfold label_in_step; handler_facts;
  intros [? ?]; subst; split; try reflexivity; try assumption;
  try (split; [reflexivity | lia]); try discriminate; intuition.

Lemma handler_label (e : Ui.Event) (a : Ui.App) (o : Ui.Outcome Ui.App) :
  app_handler e a = Some o ->
  Ui.isPlaying a = Ui.isReadingRef a /\ label_in_step a ->
  Ui.isPlaying (Ui.next o) = Ui.isReadingRef (Ui.next o)
  /\ label_in_step (Ui.next o).
Proof.
  destruct e; try discriminate; intros [= <-]; open_app a; label_facts.
Qed.

Lemma resume_label (f : Ui.Frame) (k : Ui.Wake) (a : Ui.App)
    (o : Ui.Outcome Ui.App) :
  Ui.resume f k a = Some o ->
  Ui.isPlaying a = Ui.isReadingRef a /\ label_in_step a ->
  Ui.isPlaying (Ui.next o) = Ui.isReadingRef (Ui.next o)
  /\ label_in_step (Ui.next o).
Proof.
  destruct f, k; try discriminate; intros [= <-]; open_app a; label_facts.
Qed.

(** X27.  In every session, the chapter index shown on the narration
    button is set exactly while the narration is shown as playing, and is
    then at least 1. *)
Theorem playing_label_names_a_chapter (es : list Ui.Event) (w : Ui.World) :
  Ui.run Ui.initialWorld es = Some w ->
  label_in_step (Ui.app w).
Proof.
  intros Hrun.
  pose (inv := fun w : Ui.World =>
    Ui.isPlaying (Ui.app w) = Ui.isReadingRef (Ui.app w)
    /\ label_in_step (Ui.app w)).
  assert (H : inv w); [| exact (proj2 H)].
  apply (run_invariant inv) with (es := es) (w := Ui.initialWorld);
    [| now split | exact Hrun].
  clear es w Hrun. unfold inv. intros w e w' Hw Hstep.
  assert (Hrender : forall b a,
             Ui.isPlaying a = Ui.isReadingRef a /\ label_in_step a ->
             Ui.isPlaying (Ui.useEffect_blueprint b a)
             = Ui.isReadingRef (Ui.useEffect_blueprint b a)
             /\ label_in_step (Ui.useEffect_blueprint b a)).
  { intros b a. unfold label_in_step.
    now destruct (useEffect_blueprint_cells b a)
      as (_ & _ & -> & -> & _ & ->). }
  destruct (step_cases w w' e Hstep)
    as [(o & Ho & ->) | [(n & k & f & o & -> & Hf & _ & Ho & ->)
       | [(o & _ & ->) | (n & r & -> & Hf & ->)]]].
  - apply Hrender. exact (handler_label e _ o Ho Hw).
  - apply Hrender. exact (resume_label f k _ o Ho Hw).
  - exact Hw.
  - unfold replied. cbn [Ui.app]. now destruct (snd _).
Qed.

Lemma playing_label_names_a_chapter_witness :
  label_in_step (Ui.app (world_after narration_started)).
Proof.
  apply (playing_label_names_a_chapter narration_started).
  vm_compute. reflexivity.
Defined.
